(** * IBA/utils.py: the Welford estimator and the saliency-map conversion

    A shallow embedding of [WelfordEstimator] and [to_saliency_map].

    - float64 values are modelled by exact rationals extended with the two
      infinities and NaN: every arithmetic operation is the IEEE operation
      without rounding (and without a negative zero). Where the rounding
      of the code decides a property, the rounded operation is modelled as
      well: the single precision of [active_neurons], and
      [to_saliency_map] in double precision.
    - numpy arrays are a shape and the row-major list of their elements;
      elementwise operations broadcast as numpy does.
    - the arrays an estimator holds live in a store and the estimator's
      attributes are references into it, so that the in-place update
      [self._neuron_nonzero += ...] and the rebinding updates
      [self.m = self.m + ...] keep their different sharing behaviour.
    - exceptions are an explicit outcome next to the state reached when
      they are raised. *)

From stdpp Require Import gmap strings list fin_maps numbers.
From Stdlib Require Import QArith Qcanon ZArith Lia.

Open Scope Z_scope.

(** ** Exceptions *)

Inductive exn :=
  | TypeError
  | ValueError
  | AttributeError
  | KeyError
  | AxisError
  | UnboundLocalError
  | ZeroDivisionError
  | SystemError.

Inductive result (A : Type) :=
  | Ok (a : A)
  | Raise (e : exn).
Arguments Ok {A} a.
Arguments Raise {A} e.

Definition is_ok {A} (r : result A) : bool :=
  match r with Ok _ => true | Raise _ => false end.

(** ** float64 values, without rounding *)

Inductive float64 :=
  | NaN
  | Inf (neg : bool)
  | Fin (q : Qc).

#[global] Instance float64_inhabited : Inhabited float64 := populate NaN.

Definition Qc_of_Z (z : Z) : Qc := Q2Qc (inject_Z z).
Definition of_Z (z : Z) : float64 := Fin (Qc_of_Z z).

Definition is_neg (q : Qc) : bool := bool_decide (q < 0)%Qc.
Definition is_zero (q : Qc) : bool := bool_decide (q = 0%Qc).

Definition isnan (x : float64) : bool :=
  match x with NaN => true | _ => false end.

Definition fneg (x : float64) : float64 :=
  match x with
  | NaN => NaN
  | Inf sg => Inf (negb sg)
  | Fin q => Fin (- q)%Qc
  end.

Definition fadd (x y : float64) : float64 :=
  match x, y with
  | NaN, _ | _, NaN => NaN
  | Inf a, Inf b => if Bool.eqb a b then Inf a else NaN
  | Inf a, Fin _ => Inf a
  | Fin _, Inf b => Inf b
  | Fin p, Fin q => Fin (p + q)%Qc
  end.

Definition fsub (x y : float64) : float64 := fadd x (fneg y).

Definition fmul (x y : float64) : float64 :=
  match x, y with
  | NaN, _ | _, NaN => NaN
  | Inf a, Inf b => Inf (xorb a b)
  | Inf a, Fin q => if is_zero q then NaN else Inf (xorb a (is_neg q))
  | Fin p, Inf b => if is_zero p then NaN else Inf (xorb (is_neg p) b)
  | Fin p, Fin q => Fin (p * q)%Qc
  end.

(** Division of arrays never raises: a zero divisor gives an infinity, or
    NaN for 0/0. *)
Definition fdiv (x y : float64) : float64 :=
  match x, y with
  | NaN, _ | _, NaN => NaN
  | Inf _, Inf _ => NaN
  | Inf a, Fin q => Inf (xorb a (is_neg q))
  | Fin _, Inf _ => Fin 0%Qc
  | Fin p, Fin q =>
      if is_zero q then (if is_zero p then NaN else Inf (is_neg p))
      else Fin (p / q)%Qc
  end.

(** [x != 0.] *)
Definition fne0 (x : float64) : bool :=
  match x with
  | Fin q => negb (is_zero q)
  | _ => true
  end.

(** [x > y] *)
Definition fgt (x y : float64) : bool :=
  match x, y with
  | NaN, _ | _, NaN => false
  | Inf a, Inf b => negb a && b
  | Inf a, Fin _ => negb a
  | Fin _, Inf b => b
  | Fin p, Fin q => bool_decide (q < p)%Qc
  end.

(** The [long] dtype: 64-bit two's complement. *)
Definition wrap64 (z : Z) : Z := (z + 2 ^ 63) mod 2 ^ 64 - 2 ^ 63.

(** [c += b] for a [long] element [c] and a [bool] element [b]. *)
Definition add_bool (c : Z) (b : bool) : Z := wrap64 (c + (if b then 1 else 0)).

(** ** Rounding to a binary format

    The operations above do not round. Where the rounding of the code
    decides a property, an operation is followed by the rounding to the
    format that the code computes in. *)

(** The integer nearest to [n / d], for [0 < d]; of two nearest ones, the
    even one. *)
Definition div_nearest_even (n d : Z) : Z :=
  let q := n / d in
  let r := n mod d in
  if decide (2 * r < d) then q
  else if decide (d < 2 * r) then q + 1
  else if Z.even q then q else q + 1.

(** The number [m * 2^e] nearest to [q], with [|m| < 2^prec] and
    [emin <= e], ties to the even [m]; a result of magnitude [2^emax] or
    more is an infinity. [emin] is the exponent of the last bit of the
    subnormal numbers. *)
Definition round_binary (prec emin emax : Z) (q : Qc) : float64 :=
  let n := Z.abs (Qnum q) in
  let d := Z.pos (Qden q) in
  if decide (n = 0) then Fin 0%Qc
  else
    (* 2^k <= n/d < 2^(k+1) *)
    let k0 := Z.log2 n - Z.log2 d in
    let k := if decide (d * 2 ^ Z.max 0 k0 ≤ n * 2 ^ Z.max 0 (- k0))
             then k0 else k0 - 1 in
    let e := Z.max (k - prec + 1) emin in
    let m := div_nearest_even (n * 2 ^ Z.max 0 (- e)) (d * 2 ^ Z.max 0 e) in
    if decide (2 ^ emax * 2 ^ Z.max 0 (- e) ≤ m * 2 ^ Z.max 0 e)
    then Inf (bool_decide (Qnum q < 0))
    else Fin (Q2Qc (Qmake (Z.sgn (Qnum q) * m * 2 ^ Z.max 0 e)
                          (Z.to_pos (2 ^ Z.max 0 (- e))))).

(** binary64 (double precision) and binary32 (single precision). *)
Definition round64 (x : float64) : float64 :=
  match x with
  | Fin q => round_binary 53 (-1074) 1024 q
  | _ => x
  end.

Definition round32 (x : float64) : float64 :=
  match x with
  | Fin q => round_binary 24 (-149) 128 q
  | _ => x
  end.

(** ** Arrays *)

Record ndarray (A : Type) := NDArray { shape : list nat; data : list A }.
Arguments NDArray {A} shape data.
Arguments shape {A} _.
Arguments data {A} _.

(** Number of elements of an array of the given shape. *)
Definition numel (sh : list nat) : nat := foldr Nat.mul 1%nat sh.

Definition ndim {A} (a : ndarray A) : nat := length (shape a).

Definition full {A} (sh : list nat) (v : A) : ndarray A :=
  NDArray sh (replicate (numel sh) v).

(** [np.zeros(shape)] and [np.zeros(shape, dtype='long')] *)
Definition np_zeros (sh : list nat) : ndarray float64 := full sh (Fin 0%Qc).
Definition np_zeros_long (sh : list nat) : ndarray Z := full sh 0.

(** An operation between an array and a Python scalar. *)
Definition amap {A B} (f : A → B) (a : ndarray A) : ndarray B :=
  NDArray (shape a) (f <$> data a).

(** *** Broadcasting

    Shapes are aligned on their last axis; two extents are compatible when
    they are equal or one of them is 1. The functions below work on the
    reversed shapes, last axis first. *)

Definition broadcast_dim (x y : nat) : option nat :=
  if decide (x = y) then Some x
  else if decide (x = 1%nat) then Some y
  else if decide (y = 1%nat) then Some x
  else None.

Fixpoint broadcast_dims (a b : list nat) : option (list nat) :=
  match a, b with
  | [], r => Some r
  | r, [] => Some r
  | x :: a', y :: b' =>
      match broadcast_dim x y, broadcast_dims a' b' with
      | Some d, Some r => Some (d :: r)
      | _, _ => None
      end
  end.

Definition broadcast_shapes (a b : list nat) : option (list nat) :=
  reverse <$> broadcast_dims (reverse a) (reverse b).

(** Flat index, in an array of (reversed) shape [src], of the element that
    broadcasting puts at flat index [i] of the (reversed) shape [tgt]: an
    axis of extent 1, or a missing leading axis, is read with stride 0. *)
Fixpoint src_index (src tgt : list nat) (i : nat) : nat :=
  match src, tgt with
  | x :: src', t :: tgt' =>
      ((if decide (x = 1%nat) then 0 else i mod t)
       + x * src_index src' tgt' (i / t))%nat
  | _, _ => 0%nat
  end.

Definition broadcast_to {A} `{Inhabited A} (a : ndarray A) (tgt : list nat)
  : list A :=
  (λ i, data a !!! src_index (reverse (shape a)) (reverse tgt) i) <$> seq 0 (numel tgt).

(** [a op b], a new array. *)
Definition binop {A B C} `{Inhabited A, Inhabited B}
    (f : A → B → C) (a : ndarray A) (b : ndarray B) : result (ndarray C) :=
  match broadcast_shapes (shape a) (shape b) with
  | Some r => Ok (NDArray r (zip_with f (broadcast_to a r) (broadcast_to b r)))
  | None => Raise ValueError
  end.

(** [a op= b]: the result is written into [a], whose shape must be the
    broadcast shape. *)
Definition inplace {A B} `{Inhabited B}
    (f : A → B → A) (a : ndarray A) (b : ndarray B) : result (ndarray A) :=
  match broadcast_shapes (shape a) (shape b) with
  | Some r =>
      if decide (r = shape a)
      then Ok (NDArray (shape a) (zip_with f (data a) (broadcast_to b (shape a))))
      else Raise ValueError
  | None => Raise ValueError
  end.

(** [k] consecutive chunks of [n] elements. *)
Fixpoint chunks {A} (n k : nat) (d : list A) : list (list A) :=
  match k with
  | O => []
  | S k' => take n d :: chunks n k' (drop n d)
  end.

(** [for xi in x]: the sub-arrays along the first axis; a 0-d array cannot
    be iterated. *)
Definition iter {A} (x : ndarray A) : result (list (ndarray A)) :=
  match shape x with
  | [] => Raise TypeError
  | b :: sh => Ok (NDArray sh <$> chunks (numel sh) b (data x))
  end.

(** ** The store and the estimator object *)

(** Arrays are allocated at the end of the store and never freed. *)
Record heap := Heap {
  floats : list (ndarray float64);
  longs : list (ndarray Z)
}.

Definition empty_heap : heap := Heap [] [].

(** The attributes of a [WelfordEstimator]: [None] is Python's [None], a
    number is a reference into the store. *)
Record WelfordEstimator := Estimator {
  m : option nat;
  s : option nat;
  _n_samples : Z;
  _neuron_nonzero : option nat
}.

(** Methods run on the store and on [self]; an exception leaves both as
    they were when it was raised. *)
Definition state : Type := heap * WelfordEstimator.
Definition M (A : Type) : Type := state → state * result A.

Definition ret {A} (a : A) : M A := λ st, (st, Ok a).
Definition raise {A} (e : exn) : M A := λ st, (st, Raise e).
Definition bind {A B} (c : M A) (k : A → M B) : M B :=
  λ st, match c st with
        | (st', Ok a) => k a st'
        | (st', Raise e) => (st', Raise e)
        end.
Definition lift {A} (r : result A) : M A := λ st, (st, r).

Notation "'let!' x ':=' c 'in' k" := (bind c (λ x, k))
  (at level 10, x pattern, c at level 100, k at level 200).
Notation "c ';;' k" := (bind c (λ _, k))
  (at level 100, k at level 200, right associativity).

(** Reading and binding the attributes of [self]. *)
Definition get {A} (attr : WelfordEstimator → A) : M A :=
  λ st, (st, Ok (attr st.2)).
Definition set_m (v : option nat) : M unit :=
  λ '(h, self), ((h, Estimator v (s self) (_n_samples self) (_neuron_nonzero self)), Ok tt).
Definition set_s (v : option nat) : M unit :=
  λ '(h, self), ((h, Estimator (m self) v (_n_samples self) (_neuron_nonzero self)), Ok tt).
Definition set_n_samples (v : Z) : M unit :=
  λ '(h, self), ((h, Estimator (m self) (s self) v (_neuron_nonzero self)), Ok tt).
Definition set_neuron_nonzero (v : option nat) : M unit :=
  λ '(h, self), ((h, Estimator (m self) (s self) (_n_samples self) v), Ok tt).

(** Allocation, reading and overwriting of arrays. A reference held by an
    estimator is always allocated; [SystemError] stands for the dangling
    reference that Python cannot produce. *)
Definition new_float (a : ndarray float64) : M nat :=
  λ '(h, self), ((Heap (floats h ++ [a]) (longs h), self), Ok (length (floats h))).
Definition new_long (a : ndarray Z) : M nat :=
  λ '(h, self), ((Heap (floats h) (longs h ++ [a]), self), Ok (length (longs h))).
Definition load_float (l : nat) : M (ndarray float64) :=
  λ st, (st, match floats st.1 !! l with Some a => Ok a | None => Raise SystemError end).
Definition load_long (l : nat) : M (ndarray Z) :=
  λ st, (st, match longs st.1 !! l with Some a => Ok a | None => Raise SystemError end).
Definition store_long (l : nat) (a : ndarray Z) : M unit :=
  λ '(h, self), ((Heap (floats h) (<[l := a]> (longs h)), self), Ok tt).

(** The array an attribute refers to; [e] is what Python raises when the
    attribute is [None]. *)
Definition deref_float (attr : WelfordEstimator → option nat) (e : exn)
  : M (ndarray float64) :=
  let! r := get attr in
  match r with
  | Some l => load_float l
  | None => raise e
  end.

Fixpoint for_each {A} (xs : list A) (body : A → M unit) : M unit :=
  match xs with
  | [] => ret tt
  | x :: xs' => body x ;; for_each xs' body
  end.

(** *** [WelfordEstimator.__init__] *)
Definition __init__ : WelfordEstimator := Estimator None None 0 None.

(** *** [WelfordEstimator.fit]: the body of the loop, for one sample [xi] *)
Definition fit_sample (xi : ndarray float64) : M unit :=
  (* self._neuron_nonzero += (xi != 0.) *)
  let! r := get _neuron_nonzero in
  match r with
  | Some l =>
      let! nz := load_long l in
      let! nz' := lift (inplace add_bool nz (amap fne0 xi)) in
      store_long l nz'
  | None => raise TypeError
  end ;;
  (* old_m = self.m.copy() *)
  let! old_m := deref_float m AttributeError in
  (* self.m = self.m + (xi-self.m) / (self._n_samples + 1) *)
  let! cur_m := deref_float m TypeError in
  let! d := lift (binop fsub xi cur_m) in
  let! n := get _n_samples in
  let q := amap (λ v, fdiv v (of_Z (n + 1))) d in
  let! new_m := lift (binop fadd cur_m q) in
  let! lm := new_float new_m in
  set_m (Some lm) ;;
  (* self.s = self.s + (xi-self.m) * (xi-old_m) *)
  let! cur_m := deref_float m TypeError in
  let! d1 := lift (binop fsub xi cur_m) in
  let! d2 := lift (binop fsub xi old_m) in
  let! p := lift (binop fmul d1 d2) in
  let! cur_s := deref_float s TypeError in
  let! new_s := lift (binop fadd cur_s p) in
  let! ls := new_float new_s in
  set_s (Some ls) ;;
  (* self._n_samples += 1 *)
  let! n := get _n_samples in
  set_n_samples (n + 1).

(** *** [WelfordEstimator.fit] *)
Definition fit (x : ndarray float64) : M (ndarray float64) :=
  let! n := get _n_samples in
  (if decide (n = 0) then
     (* Initialize on first datapoint *)
     let shape := tail (shape x) in
     let! lm := new_float (np_zeros shape) in
     set_m (Some lm) ;;
     let! ls := new_float (np_zeros shape) in
     set_s (Some ls) ;;
     let! lz := new_long (np_zeros_long shape) in
     set_neuron_nonzero (Some lz)
   else ret tt) ;;
  let! xs := lift (iter x) in
  for_each xs fit_sample ;;
  ret x.

(** *** [n_samples], [mean] *)
Definition n_samples : M Z := get _n_samples.

(** [mean] returns the attribute itself: a reference to the estimator's
    own array, or [None]. *)
Definition mean : M (option nat) := get m.

(** *** [std] and [active_neurons]

    [np.sqrt] is outside the repository; it is a parameter of the model. *)
Section Std.
Variable np_sqrt : float64 → float64.

Definition std : M (ndarray float64) :=
  let! cur_s := deref_float s TypeError in
  let! n := get _n_samples in
  ret (amap (λ v, np_sqrt (fdiv v (of_Z (n - 1)))) cur_s).
End Std.

Definition default_threshold : float64 := Fin (Q2Qc (1 # 100)).

(** [.astype(np.float32)]: the counts are converted to single precision.
    The sample count, a Python integer, and the threshold, a Python float,
    take the type of the array they meet: the quotient and the comparison
    are those of single precision. The default threshold 0.01 and the
    double nearest to it round to the same single-precision number. A
    sample count that does not fit a [long] is outside the model. *)
Definition float32_of_Z (z : Z) : float64 := round32 (of_Z z).

Definition active_neurons (threshold : option float64) : M (ndarray bool) :=
  let threshold := default default_threshold threshold in
  let! r := get _neuron_nonzero in
  match r with
  | Some l =>
      let! nz := load_long l in
      let! n := get _n_samples in
      ret (amap (λ c, fgt (round32 (fdiv (float32_of_Z c) (float32_of_Z n)))
                          (round32 threshold)) nz)
  | None => raise AttributeError
  end.

(** *** [state_dict] and [load_state_dict] *)

(** The values of a state dictionary. *)
Inductive pyval :=
  | PyNone
  | PyInt (z : Z)
  | PyFloatArray (l : nat)
  | PyLongArray (l : nat).

Definition float_ref (r : option nat) : pyval :=
  match r with Some l => PyFloatArray l | None => PyNone end.
Definition long_ref (r : option nat) : pyval :=
  match r with Some l => PyLongArray l | None => PyNone end.

Definition state_dict : M (gmap string pyval) :=
  let! vm := get m in
  let! vs := get s in
  let! vn := get _n_samples in
  let! vz := get _neuron_nonzero in
  ret (<["m" := float_ref vm]>
       (<["s" := float_ref vs]>
        (<["n_samples" := PyInt vn]>
         (<["neuron_nonzero" := long_ref vz]> ∅)))).

(** [state[key]] *)
Definition getitem (state : gmap string pyval) (key : string) : M pyval :=
  match state !! key with
  | Some v => ret v
  | None => raise KeyError
  end.

(** The attributes are typed in this model: [m] and [s] hold [None] or a
    float array, [_neuron_nonzero] holds [None] or a [long] array and
    [_n_samples] an integer. Python binds whatever the dictionary holds; a
    value of another kind is outside the model and is refused. *)
Definition as_float_ref (v : pyval) : M (option nat) :=
  match v with
  | PyNone => ret None
  | PyFloatArray l => ret (Some l)
  | _ => raise TypeError
  end.
Definition as_long_ref (v : pyval) : M (option nat) :=
  match v with
  | PyNone => ret None
  | PyLongArray l => ret (Some l)
  | _ => raise TypeError
  end.
Definition as_int (v : pyval) : M Z :=
  match v with
  | PyInt z => ret z
  | _ => raise TypeError
  end.

Definition load_state_dict (state : gmap string pyval) : M unit :=
  (let! v := getitem state "m" in let! r := as_float_ref v in set_m r) ;;
  (let! v := getitem state "s" in let! r := as_float_ref v in set_s r) ;;
  (let! v := getitem state "n_samples" in let! z := as_int v in set_n_samples z) ;;
  (let! v := getitem state "neuron_nonzero" in let! r := as_long_ref v in
   set_neuron_nonzero r).

(** ** [to_saliency_map] *)

Definition rbind {A B} (r : result A) (k : A → result B) : result B :=
  match r with
  | Ok a => k a
  | Raise e => Raise e
  end.

Notation "'let?' x ':=' c 'in' k" := (rbind c (λ x, k))
  (at level 10, x pattern, c at level 100, k at level 200).

(** [float(np.log(2))]: the double nearest to ln 2, 0x1.62e42fefa39efp-1. *)
Definition LN2 : float64 := Fin (Q2Qc (6243314768165359 # 9007199254740992)).

Definition nan_to_zero (x : float64) : float64 :=
  if isnan x then Fin 0%Qc else x.

(** Sum of a list of values, and the sum that takes NaN for zero. The
    terms are added one after the other, without rounding. *)
Definition fsum (l : list float64) : float64 := foldl fadd (Fin 0%Qc) l.
Definition nansum_list (l : list float64) : float64 := fsum (nan_to_zero <$> l).

(** The same sums in double precision: every addition is rounded. numpy
    adds the terms along an axis one after the other, except along an axis
    that is contiguous in memory, where it adds them pairwise; what is
    stated of these sums does not depend on the order. *)
Definition fsum64 (l : list float64) : float64 :=
  foldl (λ a x, round64 (fadd a x)) (Fin 0%Qc) l.
Definition nansum_list64 (l : list float64) : float64 :=
  fsum64 (nan_to_zero <$> l).

(** [np.nansum(a, axis)], with [sum] for the sum of the elements along the
    axis. With [shape a = pre ++ [c] ++ post] and [axis] the position of
    [c], the result has shape [pre ++ post] and its element at flat index
    [j] sums the [c] elements of [a] whose other indices are those of
    [j]. *)
Definition np_nansum_with (sum : list float64 → float64)
    (a : ndarray float64) (axis : Z) : result (ndarray float64) :=
  let nd := Z.of_nat (ndim a) in
  if decide (nd = 0 ∧ (axis = 0 ∨ axis = -1)) then
    (* on a 0-d array the axes 0 and -1 are let through *)
    Ok (NDArray [] [sum [data a !!! 0%nat]])
  else
    let ax := if decide (axis < 0) then axis + nd else axis in
    if decide (0 ≤ ax < nd) then
      let k := Z.to_nat ax in
      let c := shape a !!! k in
      let sh := take k (shape a) ++ drop (S k) (shape a) in
      let inner := numel (drop (S k) (shape a)) in
      Ok (NDArray sh
            ((λ j, sum
                     ((λ i, data a !!! ((j / inner * c + i) * inner + j mod inner)%nat)
                        <$> seq 0 c))
               <$> seq 0 (numel sh)))
    else Raise AxisError.

Definition np_nansum : ndarray float64 → Z → result (ndarray float64) :=
  np_nansum_with nansum_list.

Definition np_nansum64 : ndarray float64 → Z → result (ndarray float64) :=
  np_nansum_with nansum_list64.

(** [a.shape], a tuple of Python integers. *)
Definition shape_tuple {A} (a : ndarray A) : list Z := Z.of_nat <$> shape a.

(** [a, b = t] *)
Definition unpack2 (t : list Z) : result (Z * Z) :=
  match t with
  | [a; b] => Ok (a, b)
  | _ => Raise ValueError
  end.

(** [a / b] on Python integers. *)
Definition true_div (a b : Z) : result float64 :=
  if decide (b = 0) then Raise ZeroDivisionError
  else Ok (Fin (Qc_of_Z a / Qc_of_Z b)%Qc).

Section Saliency.
(** [skimage.transform.resize(image, output_shape, order=, preserve_range=)]
    is outside the repository. *)
Variable resize :
  ndarray float64 → list Z → Z → bool → result (ndarray float64).

Definition to_saliency_map (capacity : ndarray float64)
    (shape : option (list Z)) (data_format : string)
  : result (ndarray float64) :=
  let saliency_map : option (ndarray float64) := None in
  let? saliency_map :=
    if decide (data_format = "NCHW")
    then let? r := np_nansum capacity 0 in Ok (Some r)
    else Ok saliency_map in
  let? saliency_map :=
    if decide (data_format = "NHWC")
    then let? r := np_nansum capacity (-1) in Ok (Some r)
    else Ok saliency_map in
  (* to bits *)
  let? saliency_map :=
    match saliency_map with
    | Some a => Ok (amap (λ v, fdiv v LN2) a)
    | None => Raise UnboundLocalError
    end in
  match shape with
  | Some shape =>
      let? (ho, wo) := unpack2 (shape_tuple saliency_map) in
      let? (h, w) := unpack2 shape in
      (* Scale bits to the pixels *)
      let? factor := true_div (ho * wo) (h * w) in
      let saliency_map := amap (λ v, fmul v factor) saliency_map in
      resize saliency_map shape 1 true
  | None => Ok saliency_map
  end.

(** The same function in double precision: the sums, the two divisions
    and the multiplication are rounded. *)
Definition to_saliency_map64 (capacity : ndarray float64)
    (shape : option (list Z)) (data_format : string)
  : result (ndarray float64) :=
  let saliency_map : option (ndarray float64) := None in
  let? saliency_map :=
    if decide (data_format = "NCHW")
    then let? r := np_nansum64 capacity 0 in Ok (Some r)
    else Ok saliency_map in
  let? saliency_map :=
    if decide (data_format = "NHWC")
    then let? r := np_nansum64 capacity (-1) in Ok (Some r)
    else Ok saliency_map in
  (* to bits *)
  let? saliency_map :=
    match saliency_map with
    | Some a => Ok (amap (λ v, round64 (fdiv v LN2)) a)
    | None => Raise UnboundLocalError
    end in
  match shape with
  | Some shape =>
      let? (ho, wo) := unpack2 (shape_tuple saliency_map) in
      let? (h, w) := unpack2 shape in
      (* Scale bits to the pixels *)
      let? factor := true_div (ho * wo) (h * w) in
      let factor := round64 factor in
      let saliency_map := amap (λ v, round64 (fmul v factor)) saliency_map in
      resize saliency_map shape 1 true
  | None => Ok saliency_map
  end.
End Saliency.

(** ** Sequences of calls *)

(** A one-dimensional batch of scalar-shaped samples. *)
Definition vec (l : list float64) : ndarray float64 := NDArray [length l] l.

(** Successive [fit] calls on one estimator; an exception raised by a call
    is caught and the next call is made on the state it left. *)
Definition run_fits (xs : list (ndarray float64)) (st : state) : state :=
  foldl (λ st x, (fit x st).1) st xs.

(** * Vocabulary of the properties *)

#[global] Instance exn_eq_dec : EqDecision exn.
Proof. solve_decision. Defined.
#[global] Instance result_eq_dec {A} `{EqDecision A} : EqDecision (result A).
Proof. solve_decision. Defined.
#[global] Instance float64_eq_dec : EqDecision float64.
Proof. solve_decision. Defined.
#[global] Instance ndarray_eq_dec {A} `{EqDecision A} : EqDecision (ndarray A).
Proof. solve_decision. Defined.
#[global] Instance pyval_eq_dec : EqDecision pyval.
Proof. solve_decision. Defined.
#[global] Instance estimator_eq_dec : EqDecision WelfordEstimator.
Proof. solve_decision. Defined.
#[global] Instance heap_eq_dec : EqDecision heap.
Proof. solve_decision. Defined.

(** A closed, decidable statement is settled by evaluation. *)
Ltac by_eval :=
  match goal with
  | |- ?P => apply (bool_decide_eq_true_1 P); vm_compute; reflexivity
  end.

(** ** Reading a state *)

(** The arrays an estimator refers to, read from the store. *)
Definition mean_value (st : state) : option (ndarray float64) :=
  m st.2 ≫= (floats st.1 !!.).

Definition ssd_value (st : state) : option (ndarray float64) :=
  s st.2 ≫= (floats st.1 !!.).

Definition counts_value (st : state) : option (ndarray Z) :=
  _neuron_nonzero st.2 ≫= (longs st.1 !!.).

(** The shape of the array of counts, while there is one. *)
Definition feature_shape (st : state) : option (list nat) :=
  l ← _neuron_nonzero st.2; a ← longs st.1 !! l; Some (shape a).

(** The counts of a state: every element of the array of counts is at most
    the sample count. *)
Definition counts_bounded (st : state) : Prop :=
  ∀ l a i c,
    _neuron_nonzero st.2 = Some l → longs st.1 !! l = Some a →
    data a !! i = Some c → c ≤ _n_samples st.2.

(** The mapping that [state_dict] builds. *)
Definition snapshot_of (self : WelfordEstimator) : gmap string pyval :=
  <["m" := float_ref (m self)]>
    (<["s" := float_ref (s self)]>
       (<["n_samples" := PyInt (_n_samples self)]>
          (<["neuron_nonzero" := long_ref (_neuron_nonzero self)]> ∅))).

(** ** The two assignments of the loop body *)

(** The new mean and the new sum of squared deviations, as the two
    assignments of the loop body compute them. *)
Definition welford_mean (cur_m xi : ndarray float64) (n : Z)
  : result (ndarray float64) :=
  let? d := binop fsub xi cur_m in
  binop fadd cur_m (amap (λ v, fdiv v (of_Z (n + 1))) d).

Definition welford_ssd (cur_s old_m new_m xi : ndarray float64)
  : result (ndarray float64) :=
  let? d1 := binop fsub xi new_m in
  let? d2 := binop fsub xi old_m in
  let? p := binop fmul d1 d2 in
  binop fadd cur_s p.

(** Welford's update on one location: the sample count, the mean, the sum
    of squared deviations and the count of non-zero samples. *)
Definition welford_step (acc : Z * float64 * float64 * Z) (x : float64)
  : Z * float64 * float64 * Z :=
  let '(n, mv, sv, c) := acc in
  let mv' := fadd mv (fdiv (fsub x mv) (of_Z (n + 1))) in
  (n + 1, mv', fadd sv (fmul (fsub x mv') (fsub x mv)), add_bool c (fne0 x)).

Definition scalar (v : float64) : ndarray float64 := NDArray [] [v].

(** ** Invariants *)

(** The attributes of [self] are bound to allocated arrays. *)
Definition bound (st : state) (am a_s : ndarray float64) (az : ndarray Z) : Prop :=
  ∃ lm ls lz,
    m st.2 = Some lm ∧ s st.2 = Some ls ∧ _neuron_nonzero st.2 = Some lz
    ∧ floats st.1 !! lm = Some am ∧ floats st.1 !! ls = Some a_s
    ∧ longs st.1 !! lz = Some az.

(** Every count is a [long] and is at most [n]. *)
Definition counts_le (n : Z) (az : ndarray Z) : Prop :=
  Forall (λ c, - 2 ^ 63 ≤ c ≤ n) (data az).

(** The state of an estimator whose arrays are allocated: the three arrays
    have one shape, the sample count is not negative and bounds every
    count. *)
Definition fitted (st : state) : Prop :=
  0 ≤ _n_samples st.2
  ∧ ∃ am a_s az,
      bound st am a_s az
      ∧ shape am = shape az ∧ shape a_s = shape az
      ∧ counts_le (_n_samples st.2) az.

(** The states between two calls: a new estimator, or a fitted one. *)
Definition inv (st : state) : Prop := st.2 = __init__ ∨ fitted st.

(** The state that the first lines of [fit] build when no sample has been
    seen. *)
Definition initialized (sh : list nat) (st : state) : state :=
  (Heap ((floats st.1 ++ [np_zeros sh]) ++ [np_zeros sh])
        (longs st.1 ++ [np_zeros_long sh]),
   Estimator (Some (length (floats st.1))) (Some (S (length (floats st.1))))
             (_n_samples st.2) (Some (length (longs st.1)))).

(** The state of an estimator of 0-d feature shape, read as one location.
    While no sample has been seen the arrays, if there are any, are
    replaced by zeros at the next call. *)
Definition scalar_state (st : state) (acc : Z * float64 * float64 * Z) : Prop :=
  let '(n, mv, sv, c) := acc in
  _n_samples st.2 = n ∧ 0 ≤ n
  ∧ (n = 0 → mv = Fin 0%Qc ∧ sv = Fin 0%Qc ∧ c = 0)
  ∧ (n ≠ 0 → bound st (scalar mv) (scalar sv) (NDArray [] [c])).

(** ** The estimator as a function of the contents of its arrays *)

(** The contents of a bound estimator: the sample count and the three
    arrays. *)
Record view := View {
  v_n : Z;
  v_m : ndarray float64;
  v_s : ndarray float64;
  v_z : ndarray Z
}.

Definition views (st : state) (v : view) : Prop :=
  _n_samples st.2 = v_n v ∧ bound st (v_m v) (v_s v) (v_z v).

(** One iteration, on the contents. *)
Definition sample_view (xi : ndarray float64) (v : view) : view * result unit :=
  match inplace add_bool (v_z v) (amap fne0 xi) with
  | Raise ex => (v, Raise ex)
  | Ok z' =>
      match welford_mean (v_m v) xi (v_n v) with
      | Raise ex => (View (v_n v) (v_m v) (v_s v) z', Raise ex)
      | Ok nm =>
          match welford_ssd (v_s v) (v_m v) nm xi with
          | Raise ex => (View (v_n v) nm (v_s v) z', Raise ex)
          | Ok ns => (View (v_n v + 1) nm ns z', Ok tt)
          end
      end
  end.

Fixpoint loop_view (xs : list (ndarray float64)) (v : view) : view * result unit :=
  match xs with
  | [] => (v, Ok tt)
  | xi :: xs' =>
      match sample_view xi v with
      | (v', Ok _) => loop_view xs' v'
      | (v', Raise ex) => (v', Raise ex)
      end
  end.

Definition zeros_view (sh : list nat) : view :=
  View 0 (np_zeros sh) (np_zeros sh) (np_zeros_long sh).

Definition fit_view (x : ndarray float64) (v : view)
  : view * result (ndarray float64) :=
  let v1 := if decide (v_n v = 0) then zeros_view (tail (shape x)) else v in
  match iter x with
  | Raise ex => (v1, Raise ex)
  | Ok xs =>
      match loop_view xs v1 with
      | (v2, Ok _) => (v2, Ok x)
      | (v2, Raise ex) => (v2, Raise ex)
      end
  end.

(** Successive calls, on the contents. *)
Definition run_view (xs : list (ndarray float64)) (v : view) : view :=
  foldl (λ v x, (fit_view x v).1) v xs.

(** Two contents that differ at most in the values of the counts. *)
Definition sim (v v' : view) : Prop :=
  v_n v = v_n v' ∧ v_m v = v_m v' ∧ v_s v = v_s v'
  ∧ shape (v_z v) = shape (v_z v').

(** The state is new, or bound with the contents [v]. *)
Definition tracks (st : state) (v : view) : Prop :=
  0 ≤ _n_samples st.2
  ∧ (st.2 = __init__ ∧ v_n v = 0 ∨ views st v).

(** The estimator is new, or its attributes are bound to allocated arrays;
    its sample count is not negative. *)
Definition allocated (st : state) : Prop := ∃ v, tracks st v.

(** What a step leaves alone: the float arrays are only added to, the
    estimator keeps its array of counts, and no other array of counts is
    written. *)
Definition step_frame (st st' : state) : Prop :=
  floats st.1 `prefix_of` floats st'.1
  ∧ _neuron_nonzero st'.2 = _neuron_nonzero st.2
  ∧ length (longs st'.1) = length (longs st.1)
  ∧ (∀ l, _neuron_nonzero st.2 ≠ Some l → longs st'.1 !! l = longs st.1 !! l).

(** What a call leaves alone. Float arrays are only added; of the arrays
    of counts that exist before the call, only the estimator's own can be
    written, and only when a sample has been seen: otherwise the call
    binds a new one. *)
Definition call_frame (st st' : state) : Prop :=
  floats st.1 `prefix_of` floats st'.1
  ∧ (length (longs st.1) ≤ length (longs st'.1))%nat
  ∧ _n_samples st.2 ≤ _n_samples st'.2
  ∧ (∀ l, (l < length (longs st.1))%nat →
          (_n_samples st.2 ≠ 0 → _neuron_nonzero st.2 ≠ Some l) →
          longs st'.1 !! l = longs st.1 !! l)
  ∧ (∀ l, (l < length (longs st.1))%nat →
          shape <$> longs st'.1 !! l = shape <$> longs st.1 !! l)
  ∧ (_n_samples st.2 ≠ 0 → _neuron_nonzero st'.2 = _neuron_nonzero st.2)
  ∧ (_n_samples st.2 = 0 →
     st' = st
     ∨ ∃ l, _neuron_nonzero st'.2 = Some l ∧ (length (longs st.1) ≤ l)%nat).

(** ** Two estimators on one store *)

(** A call of [fit] on the first ([true]) or on the second ([false]) of
    two estimators. *)
Definition fit_on (who : bool) (x : ndarray float64)
    (w : heap * WelfordEstimator * WelfordEstimator)
  : heap * WelfordEstimator * WelfordEstimator :=
  let '(h, ea, eb) := w in
  if who
  then let st := (fit x (h, ea)).1 in (st.1, st.2, eb)
  else let st := (fit x (h, eb)).1 in (st.1, ea, st.2).

Definition run_both (sched : list (bool * ndarray float64))
    (w : heap * WelfordEstimator * WelfordEstimator)
  : heap * WelfordEstimator * WelfordEstimator :=
  foldl (λ w c, fit_on c.1 c.2 w) w sched.

(** The batches that a schedule feeds to one of the two estimators. *)
Definition calls_on (who : bool) (sched : list (bool * ndarray float64))
  : list (ndarray float64) :=
  snd <$> filter (λ c, c.1 = who) sched.

(** An estimator restored from the snapshot of [self], after the calls
    [k]. Its mean, its sum of squared deviations and its sample count are
    those that the calls [k] compute from the snapshot. If the snapshot
    was taken after a sample had been seen, its array of counts is still
    the snapshot's; otherwise its first call has bound an array of its own,
    which holds the counts of [k]. *)
Definition role (h0 : heap) (self : WelfordEstimator) (v0 : view)
    (h : heap) (e : WelfordEstimator) (k : list (ndarray float64)) : Prop :=
  ∃ v, tracks (h, e) v ∧ sim v (run_view k v0)
       ∧ (_n_samples self ≠ 0 →
          _neuron_nonzero e = _neuron_nonzero self ∧ _n_samples e ≠ 0)
       ∧ (_n_samples self = 0 →
          (k = [] ∧ e = self)
          ∨ (k ≠ [] ∧ v = run_view k v0 ∧ views (h, e) v
             ∧ ∃ l, _neuron_nonzero e = Some l
                    ∧ (length (longs h0) ≤ l)%nat)).

(** The two estimators of a schedule that starts from [self] twice. *)
Definition both (h0 : heap) (self : WelfordEstimator) (v0 : view)
    (w : heap * WelfordEstimator * WelfordEstimator)
    (ka kb : list (ndarray float64)) : Prop :=
  role h0 self v0 w.1.1 w.1.2 ka ∧ role h0 self v0 w.1.1 w.2 kb
  ∧ (length (longs h0) ≤ length (longs w.1.1))%nat
  ∧ (_n_samples self = 0 → ka ≠ [] → kb ≠ [] →
     _neuron_nonzero w.1.2 ≠ _neuron_nonzero w.2).

(** ** Stand-ins for the library functions *)

(** A stand-in for [resize] where a concrete one is needed: it returns the
    image as it is. *)
Definition no_resize (image : ndarray float64) (output_shape : list Z)
    (order : Z) (preserve_range : bool) : result (ndarray float64) :=
  Ok image.

(** A square root on the model's values: exact on the squares of
    rationals, rounded down to a multiple of the inverse of the denominator
    otherwise. *)
Definition rational_sqrt (x : float64) : float64 :=
  match x with
  | NaN => NaN
  | Inf sg => if sg then NaN else Inf false
  | Fin q =>
      if is_neg q then NaN
      else Fin (Q2Qc (Z.sqrt (Qnum q * Z.pos (Qden q)) # Qden q))
  end.

(** ** Batches of samples of one shape *)

(** The data of an array fills its shape. *)
Definition wf_array {A} (a : ndarray A) : Prop :=
  length (data a) = numel (shape a).

(** A batch that [fit] can fold into an estimator of feature shape [sh]:
    samples of shape [sh] stacked on a first axis. *)
Definition batch_of (sh : list nat) (x : ndarray float64) : Prop :=
  wf_array x ∧ ∃ b, shape x = b :: sh.

(** The number of samples of a batch. *)
Definition batch_size {A} (x : ndarray A) : nat :=
  match shape x with
  | b :: _ => b
  | [] => 0%nat
  end.

(** The values that the samples of a batch have at the flat index [i], in
    the order of the samples. *)
Definition column (i : nat) (x : ndarray float64) : list float64 :=
  match iter x with
  | Ok xs => (λ xi, data xi !!! i) <$> xs
  | Raise _ => []
  end.

(** The values at the flat index [i] of all the samples of a sequence of
    batches. *)
Definition columns (i : nat) (calls : list (ndarray float64)) : list float64 :=
  mjoin (column i <$> calls).

(** The sample count and the mean, the sum of squared deviations and the
    count of non-zero samples at the flat index [i]. *)
Definition at_location (i : nat) (v : view) : Z * float64 * float64 * Z :=
  (v_n v, data (v_m v) !!! i, data (v_s v) !!! i, data (v_z v) !!! i).

(** The three arrays have the shape [sh] and are filled. *)
Definition uniform (sh : list nat) (v : view) : Prop :=
  (shape (v_m v) = sh ∧ wf_array (v_m v))
  ∧ (shape (v_s v) = sh ∧ wf_array (v_s v))
  ∧ (shape (v_z v) = sh ∧ wf_array (v_z v)).

(** ** The samples of a sequence of calls *)

(** The samples of a batch, in the order of the loop. *)
Definition samples (x : ndarray float64) : list (ndarray float64) :=
  match iter x with
  | Ok xs => xs
  | Raise _ => []
  end.

(** The samples of a sequence of batches, one batch after the other. *)
Definition all_samples (calls : list (ndarray float64)) : list (ndarray float64) :=
  mjoin (samples <$> calls).

(** The number of values that are not equal to zero; NaN and the
    infinities are not. *)
Definition count_nonzero (l : list float64) : Z :=
  Z.of_nat (length (filter (λ x, fne0 x = true) l)).

(** ** The statistics of a list of rationals *)

Definition qsum (l : list Qc) : Qc := foldr Qcplus 0%Qc l.

(** The arithmetic mean. *)
Definition qmean (l : list Qc) : Qc :=
  (qsum l / Qc_of_Z (Z.of_nat (length l)))%Qc.

(** The sum of the squared deviations from the arithmetic mean. *)
Definition qssd (l : list Qc) : Qc :=
  qsum ((λ q, (q - qmean l) * (q - qmean l))%Qc <$> l).

(** ** What a computation leaves alone *)

(** The computation writes to no float array of the store: the arrays are
    only added to. *)
Definition keeps_floats {A} (c : M A) : Prop :=
  ∀ st, floats st.1 `prefix_of` floats (c st).1.1.

(** ** Kinds of values *)

Definition is_finite (x : float64) : bool :=
  match x with
  | Fin _ => true
  | _ => false
  end.

(** A value that is not negative: a finite one, or the positive
    infinity. *)
Definition is_nonneg (x : float64) : bool :=
  match x with
  | Fin q => bool_decide (0 ≤ q)%Qc
  | Inf sg => negb sg
  | NaN => false
  end.

(** The rational that a finite value holds. *)
Definition rational (x : float64) : Qc :=
  match x with
  | Fin q => q
  | _ => 0%Qc
  end.

(** * Properties *)

(** ** The state dictionary *)

Lemma state_dict_snapshot_of (h : heap) (self : WelfordEstimator) :
  state_dict (h, self) = ((h, self), Ok (snapshot_of self)).
Proof. reflexivity. Qed.

Lemma snapshot_of_counts (self : WelfordEstimator) :
  snapshot_of self !! "neuron_nonzero" = Some (long_ref (_neuron_nonzero self)).
Proof. unfold snapshot_of. by simplify_map_eq. Qed.

(** C4 (as amended): [state_dict] returns a mapping with exactly the four
    keys "m", "s", "n_samples" and "neuron_nonzero"; their values are the
    estimator's current [m], [s] and [_neuron_nonzero] (the references
    themselves, or [None]) and its integer sample count. The call changes
    neither the store nor the estimator. *)
Theorem state_dict_keys_values (h : heap) (self : WelfordEstimator) :
  ∃ d : gmap string pyval,
    state_dict (h, self) = ((h, self), Ok d)
    ∧ dom d = ({["m"; "s"; "n_samples"; "neuron_nonzero"]} : gset string)
    ∧ d !! "m" = Some (float_ref (m self))
    ∧ d !! "s" = Some (float_ref (s self))
    ∧ d !! "n_samples" = Some (PyInt (_n_samples self))
    ∧ d !! "neuron_nonzero" = Some (long_ref (_neuron_nonzero self)).
Proof.
  exists (snapshot_of self). split; [apply state_dict_snapshot_of|].
  unfold snapshot_of. split.
  { rewrite !dom_insert_L, dom_empty_L. set_solver. }
  repeat split; by simplify_map_eq.
Qed.

(** C4 (as stated) fails: the mapping of a new estimator has no key "mean",
    so its keys are not "mean", "sum_sq_dev", "sample_count" and
    "nonzero_count". *)
Lemma state_dict_no_mean_key :
  ∃ d : gmap string pyval,
    state_dict (empty_heap, __init__) = ((empty_heap, __init__), Ok d)
    ∧ d !! "mean" = None
    ∧ dom d ≠ ({["mean"; "sum_sq_dev"; "sample_count"; "nonzero_count"]} : gset string).
Proof.
  eexists. split; [reflexivity|].
  split; [by simplify_map_eq|].
  rewrite !dom_insert_L, dom_empty_L.
  intros Heq.
  assert (Hin : "mean" ∈ ({["mean"; "sum_sq_dev"; "sample_count"; "nonzero_count"]} : gset string))
    by set_solver.
  rewrite <- Heq in Hin. set_solver.
Qed.

(** ** [to_saliency_map]: the layout argument and the errors *)

Section SaliencyFacts.
Variable resize :
  ndarray float64 → list Z → Z → bool → result (ndarray float64).

Lemma np_nansum_ok (a : ndarray float64) (axis : Z) :
  (axis = 0 ∨ axis = -1) → is_ok (np_nansum a axis) = true.
Proof.
  intros Hax. unfold np_nansum, np_nansum_with. cbv zeta.
  case_decide as H0; [done|].
  destruct Hax as [-> | ->]; repeat case_decide; simpl;
    try reflexivity; exfalso; lia.
Qed.

Lemma np_nansum_ndim (a r : ndarray float64) (axis : Z) :
  np_nansum a axis = Ok r → ndim r = (ndim a - 1)%nat.
Proof.
  unfold np_nansum, np_nansum_with. cbv zeta.
  case_decide as H0.
  { intros [= <-]. unfold ndim in *. simpl. lia. }
  case_decide as Hax; [|done].
  intros [= <-]. unfold ndim in *. simpl.
  rewrite length_app, length_take, length_drop. lia.
Qed.

(** The map in bits at its native resolution: the reduction over the
    channel axis, every element divided by [LN2]. *)
Lemma to_saliency_map_native (capacity : ndarray float64) (data_format : string) :
  to_saliency_map resize capacity None data_format =
    if decide (data_format = "NCHW")
    then let? r := np_nansum capacity 0 in Ok (amap (λ v, fdiv v LN2) r)
    else if decide (data_format = "NHWC")
    then let? r := np_nansum capacity (-1) in Ok (amap (λ v, fdiv v LN2) r)
    else Raise UnboundLocalError.
Proof.
  unfold to_saliency_map.
  destruct (decide (data_format = "NCHW")) as [->|Hc]; simpl.
  - by destruct (np_nansum capacity 0).
  - destruct (decide (data_format = "NHWC")) as [->|Hl]; simpl; [|done].
    by destruct (np_nansum capacity (-1)).
Qed.

(** With a target shape, the call is the native map followed by the
    rescaling and the call to [resize]. *)
Lemma to_saliency_map_target (capacity : ndarray float64) (t : list Z)
    (data_format : string) :
  to_saliency_map resize capacity (Some t) data_format =
    let? saliency_map := to_saliency_map resize capacity None data_format in
    let? (ho, wo) := unpack2 (shape_tuple saliency_map) in
    let? (h, w) := unpack2 t in
    let? factor := true_div (ho * wo) (h * w) in
    resize (amap (λ v, fmul v factor) saliency_map) t 1 true.
Proof.
  unfold to_saliency_map.
  destruct (decide (data_format = "NCHW")) as [->|Hc]; simpl.
  - by destruct (np_nansum capacity 0).
  - destruct (decide (data_format = "NHWC")) as [->|Hl]; simpl; [|done].
    by destruct (np_nansum capacity (-1)).
Qed.

Lemma to_saliency_map_native_ndim (capacity sm : ndarray float64)
    (data_format : string) :
  to_saliency_map resize capacity None data_format = Ok sm →
  ndim sm = (ndim capacity - 1)%nat.
Proof.
  rewrite to_saliency_map_native.
  repeat case_decide; [| |done].
  - destruct (np_nansum capacity 0) as [r|] eqn:Hr; [|done].
    intros [= <-]. by apply np_nansum_ndim in Hr.
  - destruct (np_nansum capacity (-1)) as [r|] eqn:Hr; [|done].
    intros [= <-]. by apply np_nansum_ndim in Hr.
Qed.

(** C10: a layout other than "NCHW" and "NHWC" binds no map, and the
    conversion to bits raises (an [UnboundLocalError]) whatever the other
    arguments are; on an input of at least two dimensions, with no target
    shape, the call returns a map exactly when the layout is one of the
    two. *)
Theorem to_saliency_map_data_format :
  (∀ capacity shape data_format,
      data_format ≠ "NCHW" → data_format ≠ "NHWC" →
      to_saliency_map resize capacity shape data_format = Raise UnboundLocalError)
  ∧ (∀ capacity data_format,
      (2 ≤ ndim capacity)%nat →
      is_ok (to_saliency_map resize capacity None data_format) = true
      ↔ data_format = "NCHW" ∨ data_format = "NHWC").
Proof.
  split.
  - intros capacity [t|] data_format Hc Hl.
    + rewrite to_saliency_map_target, to_saliency_map_native.
      by rewrite !decide_False by done.
    + rewrite to_saliency_map_native. by rewrite !decide_False by done.
  - intros capacity data_format Hnd.
    rewrite to_saliency_map_native.
    assert (Hok : ∀ ax, ax = 0 ∨ ax = -1 →
              is_ok (let? r := np_nansum capacity ax in
                     Ok (amap (λ v, fdiv v LN2) r)) = true).
    { intros ax Hax. pose proof (np_nansum_ok capacity ax Hax) as H.
      by destruct (np_nansum capacity ax). }
    repeat case_decide; subst.
    + rewrite Hok by auto. tauto.
    + rewrite Hok by auto. tauto.
    + simpl. split; [done|]. intros [?|?]; done.
Qed.

(** C8 (as amended): when a target shape is given, the call fails
    whenever the reduced map is not two-dimensional ([capacity] not
    three-dimensional), the target shape does not have exactly two entries,
    or one of them is 0. Without a target shape, a [capacity] of fewer
    than two dimensions is accepted and reduced to a 0-d value. *)
Theorem to_saliency_map_shape_errors (capacity : ndarray float64)
    (target : option (list Z)) (data_format : string) :
  (∀ t, target = Some t →
     ndim capacity ≠ 3%nat ∨ length t ≠ 2%nat ∨ 0 ∈ t →
     is_ok (to_saliency_map resize capacity target data_format) = false)
  ∧ ((ndim capacity ≤ 1)%nat → target = None →
     data_format = "NCHW" ∨ data_format = "NHWC" →
     ∃ sm, to_saliency_map resize capacity target data_format = Ok sm
           ∧ ndim sm = 0%nat).
Proof.
  split.
  - intros t -> Hbad. rewrite to_saliency_map_target.
    destruct (to_saliency_map resize capacity None data_format) as [sm|] eqn:E;
      [|done].
    apply to_saliency_map_native_ndim in E. simpl.
    unfold shape_tuple, ndim in *.
    destruct (shape sm) as [|ho [|wo [|? ?]]] eqn:Esh; simpl in *; try done.
    destruct Hbad as [?|Hbad]; [lia|].
    destruct t as [|h [|w [|? ?]]]; simpl in *; try done.
    destruct Hbad as [?|Hbad]; [lia|].
    assert (h * w = 0) as Hz.
    { apply list_elem_of_In in Hbad. simpl in Hbad. nia. }
    unfold true_div. by rewrite decide_True.
  - intros H1 -> Hfmt.
    rewrite to_saliency_map_native in *.
    assert (Hok : ∀ ax, ax = 0 ∨ ax = -1 →
              ∃ r, np_nansum capacity ax = Ok r ∧ ndim r = 0%nat).
    { intros ax Hax. pose proof (np_nansum_ok capacity ax Hax) as H.
      destruct (np_nansum capacity ax) as [r|] eqn:Hr; [|done].
      exists r. split; [done|]. apply np_nansum_ndim in Hr. lia. }
    destruct Hfmt as [-> | ->].
    + destruct (Hok 0) as (r & -> & Hr); [auto|]. simpl. eauto.
    + destruct (Hok (-1)) as (r & -> & Hr); [auto|]. simpl. eauto.
Qed.

End SaliencyFacts.

(** C6: without a target shape the call returns the map in bits at its
    native resolution, whatever [resize] is; with a target shape [(H, W)]
    and a native map of shape [(ho, wo)], every element of that map is
    multiplied by [(ho*wo)/(H*W)] and the product is handed to
    [resize(_, (H, W), order=1, preserve_range=True)], whose result is
    returned. *)
Theorem to_saliency_map_rescale
    (resize : ndarray float64 → list Z → Z → bool → result (ndarray float64))
    (capacity sm : ndarray float64)
    (data_format : string) :
  to_saliency_map resize capacity None data_format = Ok sm →
  (∀ resize', to_saliency_map resize' capacity None data_format = Ok sm)
  ∧ (∃ r, (data_format = "NCHW" ∧ np_nansum capacity 0 = Ok r
           ∨ data_format = "NHWC" ∧ np_nansum capacity (-1) = Ok r)
          ∧ sm = amap (λ v, fdiv v LN2) r)
  ∧ (∀ (ho wo : nat) (H W : Z),
       shape sm = [ho; wo] → H * W ≠ 0 →
       to_saliency_map resize capacity (Some [H; W]) data_format =
         resize
           (amap (λ v, fmul v (Fin (Qc_of_Z (Z.of_nat ho * Z.of_nat wo)
                                    / Qc_of_Z (H * W))%Qc)) sm)
           [H; W] 1 true).
Proof.
  intros Hsm. split; [|split].
  - intros resize'. rewrite to_saliency_map_native.
    by rewrite to_saliency_map_native in Hsm.
  - rewrite to_saliency_map_native in Hsm.
    repeat case_decide; [| |done].
    + destruct (np_nansum capacity 0) as [r|] eqn:Hr; [|done].
      injection Hsm as <-. eauto.
    + destruct (np_nansum capacity (-1)) as [r|] eqn:Hr; [|done].
      injection Hsm as <-. eauto.
  - intros ho wo H W Hsh HHW.
    rewrite to_saliency_map_target, Hsm. simpl.
    unfold shape_tuple. rewrite Hsh. simpl.
    unfold true_div. by rewrite decide_False.
Qed.

(** C8 (as stated) fails: a one-dimensional [capacity] is reduced to a 0-d
    value and returned. *)
Lemma to_saliency_map_accepts_1d :
  ndim (vec [LN2; LN2]) = 1%nat
  ∧ to_saliency_map no_resize (vec [LN2; LN2]) None "NCHW" = Ok (NDArray [] [of_Z 2]).
Proof. split; [reflexivity|by_eval]. Qed.

(** ** [to_saliency_map]: the reduction over the channel axis *)

Lemma fadd_0_r (x : float64) : fadd x (Fin 0%Qc) = x.
Proof. destruct x as [| |q]; simpl; [done..|]. f_equal. ring. Qed.

Lemma Qc_of_Z_succ (n : nat) :
  Qc_of_Z (Z.of_nat (S n)) = (Qc_of_Z (Z.of_nat n) + 1)%Qc.
Proof.
  unfold Qc_of_Z. apply Qc_is_canon. simpl.
  rewrite Nat2Z.inj_succ, <- Z.add_1_r, inject_Z_plus.
  rewrite !Qred_correct. reflexivity.
Qed.

Lemma foldl_fadd_replicate (n : nat) (a q : Qc) :
  foldl fadd (Fin a) (replicate n (Fin q)) = Fin (a + Qc_of_Z (Z.of_nat n) * q)%Qc.
Proof.
  revert a. induction n as [|n IH]; intros a.
  - simpl replicate. simpl foldl. f_equal.
    replace (Qc_of_Z (Z.of_nat 0)) with 0%Qc by reflexivity. ring.
  - rewrite Qc_of_Z_succ. simpl replicate. simpl foldl. rewrite IH. f_equal. ring.
Qed.

(** A NaN entry contributes nothing to the sum. *)
Lemma nansum_list_filter (l : list float64) :
  nansum_list l = fsum (filter (λ x, isnan x = false) l).
Proof.
  unfold nansum_list, fsum. generalize (Fin 0%Qc) as a.
  induction l as [|x l IH]; intros a; [done|].
  rewrite fmap_cons, filter_cons. simpl foldl.
  destruct x as [| |q]; simpl.
  - rewrite fadd_0_r. apply IH.
  - apply IH.
  - apply IH.
Qed.

Lemma nansum_list_all_nan (l : list float64) :
  Forall (λ x, isnan x = true) l → nansum_list l = Fin 0%Qc.
Proof.
  intros Hall. rewrite nansum_list_filter.
  replace (filter (λ x, isnan x = false) l) with (@nil float64); [done|].
  symmetry. induction Hall as [|x l Hx _ IH]; [done|].
  rewrite filter_cons. rewrite decide_False by congruence. done.
Qed.

Lemma fmap_seq_const {A} (f : nat → A) (v : A) (n : nat) :
  (∀ i, (i < n)%nat → f i = v) → f <$> seq 0 n = replicate n v.
Proof.
  intros Hf. apply list_eq. intros i.
  rewrite list_lookup_fmap.
  destruct (decide (i < n)%nat) as [Hi|Hi].
  - rewrite lookup_seq_lt by done. simpl.
    rewrite lookup_replicate_2 by done. f_equal. by apply Hf.
  - rewrite lookup_seq_ge by lia. simpl. symmetry.
    apply lookup_replicate_None. lia.
Qed.

(** Reduction along axis 0: element [j] of the result sums the elements
    [i * numel rest + j] of the data, [i] ranging over the channels. *)
Lemma np_nansum_axis0 (c : nat) (rest : list nat) (d : list float64) :
  np_nansum (NDArray (c :: rest) d) 0 =
    Ok (NDArray rest
          ((λ j, nansum_list ((λ i, d !!! (i * numel rest + j)%nat) <$> seq 0 c))
             <$> seq 0 (numel rest))).
Proof.
  unfold np_nansum, np_nansum_with, ndim.
  rewrite decide_False by (simpl; lia). simpl.
  change (drop (Z.to_nat 0) rest) with rest. do 2 f_equal.
  apply Forall_fmap_ext_1, list.Forall_forall. intros j Hj.
  apply elem_of_seq in Hj. f_equal.
  apply Forall_fmap_ext_1, list.Forall_forall. intros i _.
  rewrite Nat.div_small, Nat.mod_small by lia. simpl. done.
Qed.

(** Reduction along the last axis: element [j] of the result sums the [c]
    consecutive elements that start at [j * c]. *)
Lemma np_nansum_last_axis (pre : list nat) (c : nat) (d : list float64) :
  np_nansum (NDArray (pre ++ [c]) d) (-1) =
    Ok (NDArray pre
          ((λ j, nansum_list ((λ i, d !!! (j * c + i)%nat) <$> seq 0 c))
             <$> seq 0 (numel pre))).
Proof.
  unfold np_nansum, np_nansum_with, ndim. cbn [shape data].
  rewrite decide_False by (rewrite length_app; simpl; lia).
  simpl. rewrite length_app. simpl.
  rewrite decide_True by lia.
  replace (Z.to_nat (-1 + Z.of_nat (length pre + 1))) with (length pre) by lia.
  rewrite take_app_length.
  replace (drop (S (length pre)) (pre ++ [c])) with (@nil nat)
    by (symmetry; apply drop_ge; rewrite length_app; simpl; lia).
  rewrite app_nil_r. change (numel []) with 1%nat.
  replace ((pre ++ [c]) !!! length pre) with c.
  2:{ symmetry. apply list_lookup_total_correct.
      rewrite lookup_app_r by lia. by rewrite Nat.sub_diag. }
  do 2 f_equal.
  apply Forall_fmap_ext_1, list.Forall_forall. intros j _. f_equal.
  apply Forall_fmap_ext_1, list.Forall_forall. intros i _.
  rewrite Nat.div_1_r, Nat.mod_1_r. f_equal. lia.
Qed.

Lemma LN2_finite :
  ∃ q : Qc, LN2 = Fin q ∧ q ≠ 0%Qc.
Proof. eexists. split; [reflexivity|]. by_eval. Qed.

Lemma nansum_list_uniform (n : nat) :
  fdiv (nansum_list (replicate n LN2)) LN2 = of_Z (Z.of_nat n).
Proof.
  destruct LN2_finite as (q & -> & Hq).
  unfold nansum_list, fsum. rewrite fmap_replicate.
  change (nan_to_zero (Fin q)) with (Fin q).
  rewrite foldl_fadd_replicate. simpl. unfold is_zero.
  rewrite bool_decide_eq_false_2 by done.
  unfold of_Z. f_equal. field. done.
Qed.

(** C5 (as amended): with no target shape, the "NCHW" layout sums over
    axis 0 and the "NHWC" layout over the last axis, and every sum is
    divided by [LN2]; a NaN entry contributes nothing to its sum, so that a
    location whose entries are all NaN yields 0; an array of shape
    (C, H, W) filled with [LN2] yields the (H, W) map filled with one
    value, the sum of C copies of [LN2] divided by [LN2]. Computed without
    rounding, this value is C. *)
Theorem to_saliency_map_reduction
    (resize : ndarray float64 → list Z → Z → bool → result (ndarray float64)) :
  (∀ (c : nat) (rest : list nat) (d : list float64),
     to_saliency_map resize (NDArray (c :: rest) d) None "NCHW" =
       Ok (NDArray rest
             ((λ j, fdiv (nansum_list
                            ((λ i, d !!! (i * numel rest + j)%nat) <$> seq 0 c))
                         LN2)
                <$> seq 0 (numel rest))))
  ∧ (∀ (pre : list nat) (c : nat) (d : list float64),
       to_saliency_map resize (NDArray (pre ++ [c]) d) None "NHWC" =
         Ok (NDArray pre
               ((λ j, fdiv (nansum_list
                              ((λ i, d !!! (j * c + i)%nat) <$> seq 0 c))
                           LN2)
                  <$> seq 0 (numel pre))))
  ∧ (∀ l : list float64,
       nansum_list l = fsum (filter (λ x, isnan x = false) l))
  ∧ (∀ l : list float64,
       Forall (λ x, isnan x = true) l →
       fdiv (nansum_list l) LN2 = Fin 0%Qc)
  ∧ (∀ C H W : nat,
       to_saliency_map resize (full [C; H; W] LN2) None "NCHW" =
         Ok (full [H; W] (fdiv (nansum_list (replicate C LN2)) LN2)))
  ∧ (∀ C : nat, fdiv (nansum_list (replicate C LN2)) LN2 = of_Z (Z.of_nat C)).
Proof.
  assert (Hchw : ∀ (c : nat) (rest : list nat) (d : list float64),
     to_saliency_map resize (NDArray (c :: rest) d) None "NCHW" =
       Ok (NDArray rest
             ((λ j, fdiv (nansum_list
                            ((λ i, d !!! (i * numel rest + j)%nat) <$> seq 0 c))
                         LN2)
                <$> seq 0 (numel rest)))).
  { intros c rest d. rewrite to_saliency_map_native.
    rewrite decide_True by done.
    rewrite np_nansum_axis0. cbn [rbind]. unfold amap. cbn [shape data].
    by rewrite <- list_fmap_compose. }
  split; [exact Hchw|]. split; [|split; [|split; [|split]]].
  - intros pre c d. rewrite to_saliency_map_native.
    rewrite decide_False by done. rewrite decide_True by done.
    rewrite np_nansum_last_axis. cbn [rbind]. unfold amap. cbn [shape data].
    by rewrite <- list_fmap_compose.
  - apply nansum_list_filter.
  - intros l Hl. rewrite nansum_list_all_nan by done. by_eval.
  - intros C H W. unfold full at 1. rewrite Hchw. unfold full. do 2 f_equal.
    apply fmap_seq_const. intros j Hj.
    rewrite (fmap_seq_const _ LN2); [done|].
    intros i Hi. apply lookup_total_replicate_2.
    change (numel [C; H; W]) with (C * numel [H; W])%nat. nia.
  - apply nansum_list_uniform.
Qed.

(** C5 (as stated) fails: in double precision the sum of 25 copies of
    [LN2], divided by [LN2], is 25 - 2^-48 (24.999999999999996), not 25. *)
Lemma to_saliency_map_uniform_rounds :
  to_saliency_map64 no_resize (full [25; 1; 2]%nat LN2) None "NCHW"
    = Ok (full [1; 2]%nat (Fin (Q2Qc (7036874417766399 # 281474976710656))))
  ∧ Fin (Q2Qc (7036874417766399 # 281474976710656)) ≠ of_Z 25
  ∧ (7036874417766399 # 281474976710656 == 25 - 1 / inject_Z (2 ^ 48))%Q.
Proof. split; [by_eval|]. split; [by_eval|]. reflexivity. Qed.

(** ** The estimator: one sample *)

(** What one iteration does to a state whose attributes are bound: the
    counts are overwritten where they are, the mean and the sum of squared
    deviations are rebound to new arrays. *)
Lemma fit_sample_closed (h : heap) (self : WelfordEstimator) (lm ls lz : nat)
    (am a_s : ndarray float64) (az : ndarray Z) (xi : ndarray float64) :
  m self = Some lm → s self = Some ls → _neuron_nonzero self = Some lz →
  floats h !! lm = Some am → floats h !! ls = Some a_s →
  longs h !! lz = Some az →
  fit_sample xi (h, self) =
    match inplace add_bool az (amap fne0 xi) with
    | Raise ex => ((h, self), Raise ex)
    | Ok az' =>
        let lg := <[lz := az']> (longs h) in
        match welford_mean am xi (_n_samples self) with
        | Raise ex => ((Heap (floats h) lg, self), Raise ex)
        | Ok nm =>
            let l := length (floats h) in
            match welford_ssd a_s am nm xi with
            | Raise ex =>
                ((Heap (floats h ++ [nm]) lg,
                  Estimator (Some l) (Some ls) (_n_samples self) (Some lz)),
                 Raise ex)
            | Ok ns =>
                ((Heap ((floats h ++ [nm]) ++ [ns]) lg,
                  Estimator (Some l) (Some (S l)) (_n_samples self + 1) (Some lz)),
                 Ok tt)
            end
        end
    end.
Proof.
  destruct self as [em es en ez], h as [fl lg]. simpl.
  intros -> -> -> Hlm Hls Hlz.
  unfold fit_sample, bind, get, deref_float, load_long, load_float, lift,
    store_long, new_float, set_m, set_s, set_n_samples, raise, bind, get.
  simpl. rewrite Hlz.
  destruct (inplace add_bool az (amap fne0 xi)) as [az'|ex]; [|done].
  simpl. rewrite Hlm. unfold welford_mean, welford_ssd.
  destruct (binop fsub xi am) as [d|ex]; [|done]. simpl.
  destruct (binop fadd am _) as [nm|ex]; [|done]. simpl.
  rewrite list_lookup_middle by done.
  destruct (binop fsub xi nm) as [d1|ex]; [|done]. simpl.
  destruct (binop fmul d1 d) as [p|ex]; [|done]. simpl.
  rewrite lookup_app_l by (by eapply lookup_lt_Some).
  rewrite Hls.
  destruct (binop fadd a_s p) as [ns|ex]; [|done]. simpl.
  rewrite length_app. simpl. do 4 f_equal. lia.
Qed.

(** ** Broadcasting of shapes *)

Lemma broadcast_dim_comm (x y : nat) : broadcast_dim x y = broadcast_dim y x.
Proof. unfold broadcast_dim. repeat case_decide; congruence. Qed.

Lemma broadcast_dim_diag (x : nat) : broadcast_dim x x = Some x.
Proof. unfold broadcast_dim. by rewrite decide_True. Qed.

Lemma broadcast_dims_comm (a b : list nat) :
  broadcast_dims a b = broadcast_dims b a.
Proof.
  revert b. induction a as [|x a IH]; intros [|y b]; simpl; try done.
  by rewrite broadcast_dim_comm, IH.
Qed.

Lemma broadcast_dims_diag (a : list nat) : broadcast_dims a a = Some a.
Proof.
  induction a as [|x a IH]; simpl; [done|].
  by rewrite broadcast_dim_diag, IH.
Qed.

Lemma broadcast_shapes_comm (a b : list nat) :
  broadcast_shapes a b = broadcast_shapes b a.
Proof. unfold broadcast_shapes. by rewrite broadcast_dims_comm. Qed.

Lemma broadcast_shapes_diag (a : list nat) : broadcast_shapes a a = Some a.
Proof.
  unfold broadcast_shapes. rewrite broadcast_dims_diag. simpl.
  by rewrite reverse_involutive.
Qed.

Lemma binop_shape {A B C} `{Inhabited A, Inhabited B}
    (f : A → B → C) (a : ndarray A) (b : ndarray B) :
  binop f a b =
    match broadcast_shapes (shape a) (shape b) with
    | Some r => Ok (NDArray r (zip_with f (broadcast_to a r) (broadcast_to b r)))
    | None => Raise ValueError
    end.
Proof. reflexivity. Qed.

(** An in-place operation succeeds exactly when the operand broadcasts to
    the shape of the target; the only exception is [ValueError]. *)
Lemma inplace_ok {A B} `{Inhabited B}
    (f : A → B → A) (a : ndarray A) (b : ndarray B) :
  broadcast_shapes (shape a) (shape b) = Some (shape a) →
  inplace f a b = Ok (NDArray (shape a) (zip_with f (data a) (broadcast_to b (shape a)))).
Proof. intros Hb. unfold inplace. rewrite Hb. by rewrite decide_True. Qed.

Lemma inplace_raise {A B} `{Inhabited B}
    (f : A → B → A) (a : ndarray A) (b : ndarray B) :
  broadcast_shapes (shape a) (shape b) ≠ Some (shape a) →
  inplace f a b = Raise ValueError.
Proof.
  intros Hb. unfold inplace.
  destruct (broadcast_shapes (shape a) (shape b)) as [r|]; [|done].
  rewrite decide_False; [done|]. congruence.
Qed.

(** When the sample broadcasts to the common shape of the mean and of the
    sum of squared deviations, both updates succeed and keep that shape. *)
Lemma welford_mean_ok (cur_m xi : ndarray float64) (n : Z) :
  broadcast_shapes (shape cur_m) (shape xi) = Some (shape cur_m) →
  ∃ nm, welford_mean cur_m xi n = Ok nm ∧ shape nm = shape cur_m.
Proof.
  intros Hb. unfold welford_mean.
  rewrite binop_shape, broadcast_shapes_comm, Hb. cbn [rbind].
  rewrite binop_shape. cbn [amap shape].
  rewrite broadcast_shapes_diag. eauto.
Qed.

Lemma welford_ssd_ok (cur_s old_m new_m xi : ndarray float64) :
  shape old_m = shape cur_s → shape new_m = shape cur_s →
  broadcast_shapes (shape cur_s) (shape xi) = Some (shape cur_s) →
  ∃ ns, welford_ssd cur_s old_m new_m xi = Ok ns ∧ shape ns = shape cur_s.
Proof.
  intros Ho Hn Hb. unfold welford_ssd.
  rewrite binop_shape, Hn, broadcast_shapes_comm, Hb. cbn [rbind].
  rewrite binop_shape, Ho, broadcast_shapes_comm, Hb. cbn [rbind].
  rewrite binop_shape. cbn [shape].
  rewrite broadcast_shapes_diag. cbn [rbind].
  rewrite binop_shape. cbn [shape].
  rewrite broadcast_shapes_diag. eauto.
Qed.

(** ** The estimator: invariants of the loop *)

Lemma wrap64_range (z : Z) : - 2 ^ 63 ≤ wrap64 z < 2 ^ 63.
Proof. unfold wrap64. pose proof (Z.mod_pos_bound (z + 2 ^ 63) (2 ^ 64)). lia. Qed.

Lemma wrap64_le (z : Z) : - 2 ^ 63 ≤ z → wrap64 z ≤ z.
Proof.
  intros Hz. unfold wrap64.
  pose proof (Z.mod_le (z + 2 ^ 63) (2 ^ 64)). lia.
Qed.

Lemma add_bool_bound (n c : Z) (b : bool) :
  - 2 ^ 63 ≤ c ≤ n → - 2 ^ 63 ≤ add_bool c b ≤ n + 1.
Proof.
  intros Hc. unfold add_bool.
  pose proof (wrap64_range (c + (if b then 1 else 0))).
  pose proof (wrap64_le (c + (if b then 1 else 0))).
  destruct b; lia.
Qed.

Lemma counts_le_zip (n : Z) (sh : list nat) (d : list Z) (bs : list bool) :
  Forall (λ c, - 2 ^ 63 ≤ c ≤ n) d →
  counts_le (n + 1) (NDArray sh (zip_with add_bool d bs)).
Proof.
  unfold counts_le. simpl. intros Hd. revert bs.
  induction Hd as [|c d Hc _ IH]; intros [|b bs]; simpl; try constructor.
  - by apply add_bool_bound.
  - apply IH.
Qed.

Lemma feature_shape_bound (st : state) (am a_s : ndarray float64) (az : ndarray Z) :
  bound st am a_s az → feature_shape st = Some (shape az).
Proof.
  intros (lm & ls & lz & _ & _ & Hz & _ & _ & Hlz).
  unfold feature_shape. rewrite Hz. simpl. by rewrite Hlz.
Qed.

(** One iteration on a fitted state: a sample that does not broadcast to
    the feature shape raises [ValueError] at the first statement and leaves
    the state as it is; any other sample is folded in, the arrays keep
    their shape and the counts stay in the array they are in. *)
Lemma fit_sample_fitted (st : state) (xi : ndarray float64) (fs : list nat) :
  fitted st → feature_shape st = Some fs →
  (broadcast_shapes fs (shape xi) ≠ Some fs
   ∧ fit_sample xi st = (st, Raise ValueError))
  ∨ (broadcast_shapes fs (shape xi) = Some fs
     ∧ ∃ st', fit_sample xi st = (st', Ok tt)
              ∧ fitted st' ∧ feature_shape st' = Some fs
              ∧ _n_samples st'.2 = _n_samples st.2 + 1
              ∧ _neuron_nonzero st'.2 = _neuron_nonzero st.2).
Proof.
  intros (Hn & am & a_s & az & Hb & Hsm & Hss & Hc) Hfs.
  rewrite (feature_shape_bound _ _ _ _ Hb) in Hfs. injection Hfs as <-.
  destruct Hb as (lm & ls & lz & Hm & Hs & Hz & Hlm & Hls & Hlz).
  destruct st as [h self]. simpl in *.
  rewrite (fit_sample_closed h self lm ls lz am a_s az xi) by done.
  destruct (decide (broadcast_shapes (shape az) (shape xi) = Some (shape az)))
    as [Hbc|Hbc].
  - right. split; [done|].
    rewrite (inplace_ok add_bool az (amap fne0 xi)) by done.
    destruct (welford_mean_ok am xi (_n_samples self)) as (nm & -> & Hnm);
      [by rewrite Hsm|].
    destruct (welford_ssd_ok a_s am nm xi) as (ns & -> & Hns);
      [congruence|congruence|by rewrite Hss|].
    cbn zeta. eexists. split; [reflexivity|].
    assert (Hlt : (lz < length (longs h))%nat) by (by eapply lookup_lt_Some).
    split; [|split; [|split]].
    + split; [simpl; lia|].
      exists nm, ns, (NDArray (shape az)
        (zip_with add_bool (data az) (broadcast_to (amap fne0 xi) (shape az)))).
      split.
      * exists (length (floats h)), (S (length (floats h))), lz. simpl.
        repeat split.
        -- rewrite lookup_app_l by (rewrite length_app; simpl; lia).
           by rewrite list_lookup_middle.
        -- rewrite (list_lookup_middle (floats h ++ [nm]) [] ns); [done|].
           rewrite length_app. simpl. lia.
        -- by rewrite list_lookup_insert_eq.
      * simpl. repeat split; [congruence|congruence|].
        by apply counts_le_zip.
    + unfold feature_shape. simpl.
      by rewrite list_lookup_insert_eq.
    + done.
    + simpl. done.
  - left. split; [done|].
    by rewrite (inplace_raise add_bool az (amap fne0 xi)).
Qed.

(** The loop over a batch whose samples all have the shape [xsh]. *)
Lemma for_each_fitted (xs : list (ndarray float64)) (xsh fs : list nat)
    (st : state) :
  Forall (λ xi, shape xi = xsh) xs →
  fitted st → feature_shape st = Some fs →
  (broadcast_shapes fs xsh ≠ Some fs ∧ xs ≠ []
   ∧ for_each xs fit_sample st = (st, Raise ValueError))
  ∨ ((broadcast_shapes fs xsh = Some fs ∨ xs = [])
     ∧ ∃ st', for_each xs fit_sample st = (st', Ok tt)
              ∧ fitted st' ∧ feature_shape st' = Some fs
              ∧ _n_samples st'.2 = _n_samples st.2 + Z.of_nat (length xs)
              ∧ _neuron_nonzero st'.2 = _neuron_nonzero st.2).
Proof.
  intros Hxs. revert st.
  induction Hxs as [|xi xs Hxi Hxs IH]; intros st Hfit Hfs.
  - right. split; [by right|]. exists st. simpl.
    split; [done|]. split; [done|]. split; [done|]. split; [lia|done].
  - destruct (fit_sample_fitted st xi fs Hfit Hfs)
      as [[Hbc Hstep]|[Hbc (st1 & Hstep & Hfit1 & Hfs1 & Hn1 & Hz1)]];
      rewrite Hxi in Hbc.
    + left. split; [done|]. split; [done|].
      simpl. unfold bind. by rewrite Hstep.
    + right. split; [by left|].
      destruct (IH st1 Hfit1 Hfs1)
        as [(Hbc' & _)|(_ & st2 & Hloop & Hfit2 & Hfs2 & Hn2 & Hz2)]; [done|].
      exists st2. simpl. unfold bind. rewrite Hstep, Hloop.
      split; [done|]. split; [done|]. split; [done|]. split; [|congruence].
      rewrite Hn2, Hn1. lia.
Qed.

Lemma fit_unfold (x : ndarray float64) (st : state) :
  fit x st =
    let st1 := if decide (_n_samples st.2 = 0)
               then initialized (tail (shape x)) st else st in
    match iter x with
    | Raise ex => (st1, Raise ex)
    | Ok xs =>
        match for_each xs fit_sample st1 with
        | (st2, Ok _) => (st2, Ok x)
        | (st2, Raise ex) => (st2, Raise ex)
        end
    end.
Proof.
  destruct st as [[fl lg] [em es en ez]].
  unfold fit, bind at 1, get. cbn [snd _n_samples].
  destruct (decide (en = 0)) as [->|Hn].
  - unfold bind at 1. unfold bind at 1, new_float, set_m, set_s, new_long,
      set_neuron_nonzero, bind. cbn.
    unfold initialized, lift. simpl. rewrite length_app. simpl.
    replace (length fl + 1)%nat with (S (length fl)) by lia.
    destruct (iter x) as [xs|ex]; [|done].
    by destruct (for_each xs fit_sample _) as [st2 [[]|ex]].
  - unfold bind, ret, lift. simpl.
    destruct (iter x) as [xs|ex]; [|done].
    by destruct (for_each xs fit_sample _) as [st2 [[]|ex]].
Qed.

Lemma initialized_fitted (sh : list nat) (st : state) :
  _n_samples st.2 = 0 →
  fitted (initialized sh st) ∧ feature_shape (initialized sh st) = Some sh.
Proof.
  intros Hn. destruct st as [[fl lg] self]. simpl in *.
  unfold fitted, initialized, feature_shape, bound. simpl. rewrite Hn.
  split.
  - split; [done|].
    exists (np_zeros sh), (np_zeros sh), (np_zeros_long sh).
    split; [|repeat split; by apply Forall_replicate].
    exists (length fl), (S (length fl)), (length lg). repeat split.
    + rewrite lookup_app_l by (rewrite length_app; simpl; lia).
      by rewrite list_lookup_middle.
    + rewrite (list_lookup_middle (fl ++ [np_zeros sh]) []); [done|].
      rewrite length_app. simpl. lia.
    + by rewrite list_lookup_middle.
  - by rewrite list_lookup_middle.
Qed.

Lemma chunks_length {A} (n k : nat) (d : list A) : length (chunks n k d) = k.
Proof. revert d. induction k as [|k IH]; intros d; simpl; [done|]. by rewrite IH. Qed.


(** ** The estimator: a call of [fit] *)


(** Every call leaves a fitted estimator, whether it returns or raises. *)
Lemma fit_inv (x : ndarray float64) (st : state) :
  inv st → fitted (fit x st).1.
Proof.
  intros Hinv. rewrite fit_unfold. cbn zeta.
  set (st1 := if decide (_n_samples st.2 = 0)
              then initialized (tail (shape x)) st else st).
  assert (Hst1 : fitted st1 ∧ ∃ fs, feature_shape st1 = Some fs).
  { unfold st1. case_decide as Hn.
    - destruct (initialized_fitted (tail (shape x)) st Hn). eauto.
    - destruct Hinv as [Hnew|Hfit]; [by rewrite Hnew in Hn|].
      split; [done|].
      destruct Hfit as (_ & am & a_s & az & Hb & _).
      rewrite (feature_shape_bound _ _ _ _ Hb). eauto. }
  destruct Hst1 as (Hfit1 & fs & Hfs1).
  unfold iter. destruct (shape x) as [|b xsh]; [done|].
  assert (Hxs : Forall (λ xi : ndarray float64, shape xi = xsh)
                  (NDArray xsh <$> chunks (numel xsh) b (data x)))
    by (apply Forall_fmap, Forall_true; done).
  destruct (for_each_fitted _ xsh fs st1 Hxs Hfit1 Hfs1)
    as [(_ & _ & ->)|(_ & st' & -> & Hfit' & _)]; done.
Qed.

Lemma run_fits_snoc (calls : list (ndarray float64)) (x : ndarray float64)
    (st : state) :
  run_fits (calls ++ [x]) st = (fit x (run_fits calls st)).1.
Proof. unfold run_fits. by rewrite foldl_app. Qed.

Lemma run_fits_inv (calls : list (ndarray float64)) (st : state) :
  inv st → inv (run_fits calls st).
Proof.
  intros Hinv. induction calls as [|x calls IH] using rev_ind; [done|].
  rewrite run_fits_snoc. right. by apply fit_inv.
Qed.

Lemma inv_new (h : heap) : inv (h, __init__).
Proof. by left. Qed.

Lemma inv_counts_bounded (st : state) : inv st → counts_bounded st.
Proof.
  intros [Hnew|(_ & am & a_s & az & Hb & _ & _ & Hc)] l a i c Hz Hl Hi.
  - by rewrite Hnew in Hz.
  - destruct Hb as (lm & ls & lz & _ & _ & Hz' & _ & _ & Hlz).
    assert (l = lz) as -> by congruence. assert (a = az) as -> by congruence.
    unfold counts_le in Hc. rewrite list.Forall_lookup in Hc.
    apply Hc in Hi. lia.
Qed.

(** Once a sample has been seen, the array of counts exists. *)
Lemma inv_counts_exist (st : state) :
  inv st → 1 ≤ _n_samples st.2 →
  ∃ l a, _neuron_nonzero st.2 = Some l ∧ longs st.1 !! l = Some a.
Proof.
  intros [Hnew|(_ & am & a_s & az & Hb & _)] Hn.
  - rewrite Hnew in Hn. simpl in Hn. lia.
  - destruct Hb as (lm & ls & lz & _ & _ & Hz' & _ & _ & Hlz). eauto.
Qed.

(** C7: in every state reached from a new estimator by calls of [fit]
    (whether they return or raise), every element of the array of counts is
    at most the sample count, and one more call of [fit] leaves it so; once
    a sample has been seen the array exists. *)
Theorem nonzero_count_le_sample_count (calls : list (ndarray float64))
    (x : ndarray float64) :
  let st := run_fits calls (empty_heap, __init__) in
  counts_bounded st
  ∧ counts_bounded (fit x st).1
  ∧ (1 ≤ _n_samples st.2 →
     ∃ l a, _neuron_nonzero st.2 = Some l ∧ longs st.1 !! l = Some a).
Proof.
  intros st.
  assert (Hinv : inv st) by apply run_fits_inv, inv_new.
  split; [by apply inv_counts_bounded|]. split.
  - apply inv_counts_bounded. right. by apply fit_inv.
  - by apply inv_counts_exist.
Qed.




(** ** [active_neurons] *)

Lemma Qc_of_Z_nonzero (z : Z) : z ≠ 0 → Qc_of_Z z ≠ 0%Qc.
Proof.
  intros Hz Heq. unfold Qc_of_Z in Heq.
  apply Q2Qc_eq_iff in Heq. unfold Qeq in Heq. simpl in Heq. lia.
Qed.

(** C9 (as amended): when the array of counts exists and a sample has
    been seen (the sample count fitting a [long]), as is the case in every
    state reached from a new estimator by calls of [fit] once the sample
    count is at least 1, [active_neurons]
    returns a mask of the shape of the counts. The mask is true exactly
    where the quotient of the count by the sample count, both converted to
    single precision and divided in single precision, is greater than the
    threshold rounded to single precision, the threshold being 1/100 when
    none is given; after the samples [1,0], [1,0], [0,0] the counts are
    [2,0], the sample count is 3 and the mask for the threshold 1/2 is
    [true, false]. *)
Theorem active_neurons_mask :
  (∀ (h : heap) (self : WelfordEstimator) (l : nat) (nz : ndarray Z)
     (threshold : option float64),
     _neuron_nonzero self = Some l → longs h !! l = Some nz →
     1 ≤ _n_samples self < 2 ^ 63 →
     ∃ mask,
       active_neurons threshold (h, self) = ((h, self), Ok mask)
       ∧ shape mask = shape nz
       ∧ data mask =
           (λ c, fgt (round32 (fdiv (round32 (of_Z c))
                                    (round32 (of_Z (_n_samples self)))))
                     (round32 (default (Fin (Q2Qc (1 # 100))) threshold)))
             <$> data nz)
  ∧ (∀ calls : list (ndarray float64),
       let st := run_fits calls (empty_heap, __init__) in
       1 ≤ _n_samples st.2 →
       ∃ l nz, _neuron_nonzero st.2 = Some l ∧ longs st.1 !! l = Some nz)
  ∧ (let st := run_fits [NDArray [3; 2]%nat (of_Z <$> [1; 0; 1; 0; 0; 0])]
                 (empty_heap, __init__) in
     (_neuron_nonzero st.2 ≫= (longs st.1 !!.)) = Some (NDArray [2%nat] [2; 0])
     ∧ _n_samples st.2 = 3
     ∧ (active_neurons (Some (Fin (Q2Qc (1 # 2)))) st).2
       = Ok (NDArray [2%nat] [true; false])).
Proof.
  split; [|split].
  - intros h self l nz threshold Hz Hl Hn.
    unfold active_neurons, bind, get, load_long, ret. simpl.
    rewrite Hz. simpl. rewrite Hl. eexists. split; [reflexivity|].
    split; reflexivity.
  - intros calls st Hn. apply inv_counts_exist; [|done].
    apply run_fits_inv, inv_new.
  - cbv zeta. split; [reflexivity|]. split; [reflexivity|]. by_eval.
Qed.

(** C9 (as stated) fails: after the samples [1], [0], [0] the count is 1
    and the sample count 3. For the threshold 0.333..., the double nearest
    to 1/3, the quotient 1/3 is greater than the threshold, but the mask is
    false: in single precision the quotient and the threshold are the same
    number. *)
Lemma active_neurons_in_single_precision :
  let st := run_fits [NDArray [3; 1]%nat (of_Z <$> [1; 0; 0])]
              (empty_heap, __init__) in
  let threshold := Fin (Q2Qc (6004799503160661 # 18014398509481984)) in
  counts_value st = Some (NDArray [1%nat] [1])
  ∧ _n_samples st.2 = 3
  ∧ round64 (Fin (Q2Qc (1 # 3))) = threshold
  ∧ fgt (fdiv (of_Z 1) (of_Z 3)) threshold = true
  ∧ (active_neurons (Some threshold) st).2 = Ok (NDArray [1%nat] [false]).
Proof. cbv zeta. repeat split; by_eval. Qed.

(** ** Scalar-shaped samples *)

Lemma fit_sample_scalar (st : state) (n : Z) (mv sv : float64) (c : Z) (x : float64) :
  _n_samples st.2 = n →
  bound st (scalar mv) (scalar sv) (NDArray [] [c]) →
  ∃ st', fit_sample (scalar x) st = (st', Ok tt)
         ∧ _n_samples st'.2 = n + 1
         ∧ (let '(_, mv', sv', c') := welford_step (n, mv, sv, c) x in
            bound st' (scalar mv') (scalar sv') (NDArray [] [c'])).
Proof.
  intros Hn (lm & ls & lz & Hm & Hs & Hz & Hlm & Hls & Hlz).
  destruct st as [h self]. simpl in *.
  rewrite (fit_sample_closed h self lm ls lz _ _ _ _ Hm Hs Hz Hlm Hls Hlz).
  rewrite Hn.
  change (inplace add_bool (NDArray [] [c]) (amap fne0 (scalar x)))
    with (Ok (NDArray [] [add_bool c (fne0 x)])).
  change (welford_mean (scalar mv) (scalar x) n)
    with (Ok (scalar (fadd mv (fdiv (fsub x mv) (of_Z (n + 1)))))).
  cbv zeta.
  set (mv' := fadd mv (fdiv (fsub x mv) (of_Z (n + 1)))).
  change (welford_ssd (scalar sv) (scalar mv) (scalar mv') (scalar x))
    with (Ok (scalar (fadd sv (fmul (fsub x mv') (fsub x mv))))).
  eexists. split; [reflexivity|]. split; [reflexivity|].
  assert (Hlt : (lz < length (longs h))%nat) by (by eapply lookup_lt_Some).
  exists (length (floats h)), (S (length (floats h))), lz. simpl.
  repeat split.
  - rewrite lookup_app_l by (rewrite length_app; simpl; lia).
    by rewrite list_lookup_middle.
  - rewrite (list_lookup_middle (floats h ++ [_]) []); [done|].
    rewrite length_app. simpl. lia.
  - by rewrite list_lookup_insert_eq.
Qed.

Lemma for_each_scalar (l : list float64) (st : state)
    (n : Z) (mv sv : float64) (c : Z) :
  _n_samples st.2 = n →
  bound st (scalar mv) (scalar sv) (NDArray [] [c]) →
  ∃ st', for_each (scalar <$> l) fit_sample st = (st', Ok tt)
         ∧ _n_samples st'.2 = n + Z.of_nat (length l)
         ∧ (let '(_, mv', sv', c') := foldl welford_step (n, mv, sv, c) l in
            bound st' (scalar mv') (scalar sv') (NDArray [] [c'])).
Proof.
  revert st n mv sv c.
  induction l as [|x l IH]; intros st n mv sv c Hn Hb.
  - exists st. simpl. split; [done|]. split; [lia|done].
  - destruct (fit_sample_scalar st n mv sv c x Hn Hb) as (st1 & Hstep & Hn1 & Hb1).
    simpl in Hb1.
    destruct (IH st1 _ _ _ _ Hn1 Hb1) as (st2 & Hloop & Hn2 & Hb2).
    exists st2. rewrite fmap_cons. cbn [for_each]. unfold bind.
    rewrite Hstep, Hloop.
    split; [done|]. split; [rewrite Hn2, length_cons; lia|]. exact Hb2.
Qed.

Lemma chunks_1 {A} (l : list A) : chunks 1 (length l) l = (λ x, [x]) <$> l.
Proof. induction l as [|x l IH]; simpl; [done|]. by rewrite drop_0, IH. Qed.

Lemma iter_vec (l : list float64) : iter (vec l) = Ok (scalar <$> l).
Proof.
  unfold iter, vec. simpl. change (numel []) with 1%nat.
  rewrite chunks_1, <- list_fmap_compose. reflexivity.
Qed.

Lemma foldl_welford_step_count (l : list float64) (acc : Z * float64 * float64 * Z) :
  (foldl welford_step acc l).1.1.1 = acc.1.1.1 + Z.of_nat (length l).
Proof.
  revert acc. induction l as [|x l IH]; intros [[[n mv] sv] c]; simpl; [lia|].
  rewrite IH. simpl. lia.
Qed.

(** A call with a one-dimensional batch folds its elements in, one by
    one. *)
Lemma fit_vec (l : list float64) (st : state) (acc : Z * float64 * float64 * Z) :
  scalar_state st acc →
  ∃ st', fit (vec l) st = (st', Ok (vec l))
         ∧ scalar_state st' (foldl welford_step acc l).
Proof.
  destruct acc as [[[n mv] sv] c]. intros (Hn & Hpos & H0 & Hb).
  rewrite fit_unfold, iter_vec. cbv beta iota zeta.
  set (st1 := if decide (_n_samples st.2 = 0)
              then initialized (tail (shape (vec l))) st else st).
  assert (Hst1 : _n_samples st1.2 = n
                 ∧ bound st1 (scalar mv) (scalar sv) (NDArray [] [c])).
  { unfold st1. case_decide as Hz.
    - destruct H0 as (-> & -> & ->); [congruence|].
      split; [simpl; congruence|].
      destruct (initialized_fitted [] st Hz) as ((_ & am & a_s & az & Hbd & _) & _).
      destruct st as [[fl lg] self].
      exists (length fl), (S (length fl)), (length lg). simpl. repeat split.
      + rewrite lookup_app_l by (rewrite length_app; simpl; lia).
        by rewrite list_lookup_middle.
      + rewrite (list_lookup_middle (fl ++ [_]) []); [done|].
        rewrite length_app. simpl. lia.
      + by rewrite list_lookup_middle.
    - split; [done|]. apply Hb. congruence. }
  destruct Hst1 as (Hn1 & Hb1).
  destruct (for_each_scalar l st1 n mv sv c Hn1 Hb1) as (st2 & -> & Hn2 & Hb2).
  exists st2. split; [done|].
  pose proof (foldl_welford_step_count l (n, mv, sv, c)) as Hcnt.
  destruct (foldl welford_step (n, mv, sv, c) l) as [[[n' mv'] sv'] c'] eqn:Hfold.
  simpl in Hcnt. subst n'.
  split; [done|]. split; [lia|]. split; [|done].
  intros Hz. assert (l = []) as -> by (destruct l; [done|simpl in Hz; lia]).
  simpl in Hfold. injection Hfold as _ <- <- <-. apply H0. lia.
Qed.

Lemma run_fits_vec (batches : list (list float64)) (st : state)
    (acc : Z * float64 * float64 * Z) :
  scalar_state st acc →
  scalar_state (run_fits (vec <$> batches) st) (foldl welford_step acc (mjoin batches)).
Proof.
  revert st acc. induction batches as [|l batches IH]; intros st acc Hst; [done|].
  simpl. rewrite foldl_app.
  destruct (fit_vec l st acc Hst) as (st' & -> & Hst'). simpl.
  by apply IH.
Qed.

Lemma scalar_state_new (h : heap) :
  scalar_state (h, __init__) (0, Fin 0%Qc, Fin 0%Qc, 0).
Proof. repeat split; done. Qed.

Lemma welford_step_123 :
  foldl welford_step (0, Fin 0%Qc, Fin 0%Qc, 0) [of_Z 1; of_Z 2; of_Z 3]
  = (3, of_Z 2, of_Z 2, 3).
Proof. by_eval. Qed.

(** C1: from a new estimator, the scalar-shaped samples 1, 2, 3, fed in
    order in one-dimensional batches however they are grouped, give the
    sample count 3, the mean 2 and the sum of squared deviations 2; [std]
    is then the square root of 2/(3-1) = 1, which is 1 for a square root
    that is exact at 1. *)
Theorem welford_known_values (np_sqrt : float64 → float64)
    (batches : list (list float64)) :
  np_sqrt (of_Z 1) = of_Z 1 →
  mjoin batches = [of_Z 1; of_Z 2; of_Z 3] →
  let st := run_fits (vec <$> batches) (empty_heap, __init__) in
  (∃ l, mean st = (st, Ok (Some l))
        ∧ floats st.1 !! l = Some (scalar (of_Z 2)))
  ∧ n_samples st = (st, Ok 3)
  ∧ (∃ l, s st.2 = Some l ∧ floats st.1 !! l = Some (scalar (of_Z 2)))
  ∧ std np_sqrt st = (st, Ok (scalar (of_Z 1))).
Proof.
  intros Hsqrt Hjoin st.
  pose proof (run_fits_vec batches _ _ (scalar_state_new empty_heap)) as Hst.
  fold st in Hst. rewrite Hjoin, welford_step_123 in Hst.
  destruct Hst as (Hn & _ & _ & Hb).
  destruct Hb as (lm & ls & lz & Hm & Hs & Hz & Hlm & Hls & Hlz); [done|].
  split; [|split; [|split]].
  - exists lm. unfold mean, get. by rewrite Hm.
  - unfold n_samples, get. by rewrite Hn.
  - eauto.
  - unfold std, bind, deref_float, get, load_float, ret, bind, get.
    cbv beta. rewrite Hs. cbv beta iota. rewrite Hls, Hn.
    change (amap ?f (scalar ?v)) with (scalar (f v)). cbv beta.
    replace (fdiv (of_Z 2) (of_Z (3 - 1))) with (of_Z 1) by (symmetry; by_eval).
    by rewrite Hsqrt.
Qed.

Lemma welford_known_values_witness :
  rational_sqrt (of_Z 1) = of_Z 1
  ∧ mjoin [[of_Z 1]; []; [of_Z 2; of_Z 3]] = [of_Z 1; of_Z 2; of_Z 3]
  ∧ let st := run_fits (vec <$> [[of_Z 1]; []; [of_Z 2; of_Z 3]])
                (empty_heap, __init__) in
    (∃ l, mean st = (st, Ok (Some l))
          ∧ floats st.1 !! l = Some (scalar (of_Z 2)))
    ∧ n_samples st = (st, Ok 3)
    ∧ (∃ l, s st.2 = Some l ∧ floats st.1 !! l = Some (scalar (of_Z 2)))
    ∧ std rational_sqrt st = (st, Ok (scalar (of_Z 1))).
Proof.
  split; [by_eval|]. split; [reflexivity|].
  apply (welford_known_values rational_sqrt [[of_Z 1]; []; [of_Z 2; of_Z 3]]).
  - by_eval.
  - reflexivity.
Defined.

(** ** Calls compute on the contents *)

Lemma step_frame_refl (st : state) : step_frame st st.
Proof. by repeat split. Qed.

Lemma step_frame_trans (st1 st2 st3 : state) :
  step_frame st1 st2 → step_frame st2 st3 → step_frame st1 st3.
Proof.
  intros (Hf1 & Hz1 & Hl1 & Ho1) (Hf2 & Hz2 & Hl2 & Ho2).
  split; [by etrans|]. split; [congruence|]. split; [congruence|].
  intros l Hl. rewrite Ho2, Ho1; [done..|congruence].
Qed.

Lemma sample_view_shape (xi : ndarray float64) (v : view) :
  shape (v_z (sample_view xi v).1) = shape (v_z v).
Proof.
  unfold sample_view, inplace.
  destruct (broadcast_shapes _ _) as [r|]; [|done].
  case_decide; [|done].
  destruct (welford_mean _ _ _) as [nm|]; [|done].
  by destruct (welford_ssd _ _ _ _).
Qed.

Lemma sample_view_count (xi : ndarray float64) (v : view) :
  v_n v ≤ v_n (sample_view xi v).1.
Proof.
  unfold sample_view.
  destruct (inplace _ _ _) as [z'|]; [|done].
  destruct (welford_mean _ _ _) as [nm|]; [|done].
  destruct (welford_ssd _ _ _ _); simpl; lia.
Qed.

(** One iteration on a bound state computes [sample_view]. *)
Lemma fit_sample_views (xi : ndarray float64) (st : state) (v : view) :
  views st v →
  views (fit_sample xi st).1 (sample_view xi v).1
  ∧ (fit_sample xi st).2 = (sample_view xi v).2
  ∧ step_frame st (fit_sample xi st).1.
Proof.
  destruct v as [n am a_s az].
  intros (Hn & lm & ls & lz & Hm & Hs & Hz & Hlm & Hls & Hlz).
  destruct st as [h self]. simpl in *.
  rewrite (fit_sample_closed h self lm ls lz am a_s az xi) by done.
  unfold sample_view. simpl. rewrite Hn.
  assert (Hlt : (lz < length (longs h))%nat) by (by eapply lookup_lt_Some).
  assert (Hlmlt : (lm < length (floats h))%nat) by (by eapply lookup_lt_Some).
  assert (Hlslt : (ls < length (floats h))%nat) by (by eapply lookup_lt_Some).
  destruct (inplace add_bool az (amap fne0 xi)) as [z'|ex].
  2:{ split; [|split; [done|apply step_frame_refl]].
      split; [done|]. by exists lm, ls, lz. }
  assert (Hfr : ∀ fl' self',
            floats h `prefix_of` fl' →
            _neuron_nonzero self' = Some lz →
            step_frame (h, self) (Heap fl' (<[lz:=z']> (longs h)), self')).
  { intros fl' self' Hpre Hz'. split; [done|]. simpl.
    split; [congruence|]. split; [by rewrite length_insert|].
    intros l Hl. rewrite list_lookup_insert_ne; [done|congruence]. }
  destruct (welford_mean am xi n) as [nm|ex].
  2:{ split; [|split; [done|by apply Hfr]].
      split; [done|]. exists lm, ls, lz. simpl.
      by rewrite list_lookup_insert_eq. }
  cbv zeta.
  destruct (welford_ssd a_s am nm xi) as [ns|ex].
  - split; [|split; [done|]].
    + split; [simpl; congruence|].
      exists (length (floats h)), (S (length (floats h))), lz. simpl.
      repeat split.
      * rewrite lookup_app_l by (rewrite length_app; simpl; lia).
        by rewrite list_lookup_middle.
      * rewrite (list_lookup_middle (floats h ++ [nm]) [] ns); [done|].
        rewrite length_app. simpl. lia.
      * by rewrite list_lookup_insert_eq.
    + apply Hfr; [|done]. rewrite <- app_assoc. by apply prefix_app_r.
  - split; [|split; [done|]].
    + split; [done|].
      exists (length (floats h)), ls, lz. simpl. repeat split.
      * by rewrite list_lookup_middle.
      * by rewrite lookup_app_l.
      * by rewrite list_lookup_insert_eq.
    + apply Hfr; [|done]. by apply prefix_app_r.
Qed.

Lemma for_each_views (xs : list (ndarray float64)) (st : state) (v : view) :
  views st v →
  views (for_each xs fit_sample st).1 (loop_view xs v).1
  ∧ (for_each xs fit_sample st).2 = (loop_view xs v).2
  ∧ step_frame st (for_each xs fit_sample st).1.
Proof.
  revert st v. induction xs as [|xi xs IH]; intros st v Hv.
  - simpl. split; [done|]. split; [done|apply step_frame_refl].
  - destruct (fit_sample_views xi st v Hv) as (Hv1 & Hr1 & Hf1).
    simpl. unfold bind.
    destruct (fit_sample xi st) as [st1 r1].
    destruct (sample_view xi v) as [v1 r1']. simpl in *. subst r1'.
    destruct r1 as [[]|ex]; [|done].
    destruct (IH st1 v1 Hv1) as (Hv2 & Hr2 & Hf2).
    split; [done|]. split; [done|]. by eapply step_frame_trans.
Qed.

Lemma loop_view_shape (xs : list (ndarray float64)) (v : view) :
  shape (v_z (loop_view xs v).1) = shape (v_z v).
Proof.
  revert v. induction xs as [|xi xs IH]; intros v; simpl; [done|].
  pose proof (sample_view_shape xi v) as Hsh.
  destruct (sample_view xi v) as [v1 [[]|ex]]; simpl in *; [|done].
  by rewrite IH.
Qed.

Lemma loop_view_count (xs : list (ndarray float64)) (v : view) :
  v_n v ≤ v_n (loop_view xs v).1.
Proof.
  revert v. induction xs as [|xi xs IH]; intros v; simpl; [done|].
  pose proof (sample_view_count xi v) as Hn.
  destruct (sample_view xi v) as [v1 [[]|ex]]; simpl in *; [|done].
  specialize (IH v1). lia.
Qed.

Lemma call_frame_refl (st : state) : call_frame st st.
Proof. repeat split; try done. by left. Qed.

Lemma initialized_views (sh : list nat) (st : state) :
  _n_samples st.2 = 0 → views (initialized sh st) (zeros_view sh).
Proof.
  intros Hn. destruct st as [[fl lg] self]. simpl in *.
  split; [done|].
  exists (length fl), (S (length fl)), (length lg). simpl. repeat split.
  - rewrite lookup_app_l by (rewrite length_app; simpl; lia).
    by rewrite list_lookup_middle.
  - rewrite (list_lookup_middle (fl ++ [np_zeros sh]) []); [done|].
    rewrite length_app. simpl. lia.
  - by rewrite list_lookup_middle.
Qed.

(** A call computes [fit_view] on the contents. *)
Lemma fit_views (x : ndarray float64) (st : state) (v : view) :
  tracks st v →
  views (fit x st).1 (fit_view x v).1
  ∧ (fit x st).2 = (fit_view x v).2
  ∧ call_frame st (fit x st).1.
Proof.
  intros (Hpos & Htr). rewrite fit_unfold. unfold fit_view.
  assert (Hnv : _n_samples st.2 = v_n v).
  { destruct Htr as [(Hnew & ->)|(Hn & _)]; [by rewrite Hnew|done]. }
  rewrite <- Hnv. cbv zeta.
  destruct (decide (_n_samples st.2 = 0)) as [Hn|Hn].
  - pose proof (initialized_views (tail (shape x)) st Hn) as Hv1.
    set (st1 := initialized (tail (shape x)) st) in *.
    assert (Hfr1 : call_frame st st1
                   ∧ _neuron_nonzero st1.2 = Some (length (longs st.1))
                   ∧ length (longs st1.1) = S (length (longs st.1))).
    { destruct st as [[fl lg] self]. unfold st1, initialized. simpl in *.
      split; [|split; [done|rewrite length_app; simpl; lia]].
      split; [rewrite <- app_assoc; by apply prefix_app_r|]. simpl.
      split; [rewrite length_app; lia|]. split; [lia|].
      split; [intros l Hl _; by rewrite lookup_app_l|].
      split; [intros l Hl; by rewrite lookup_app_l|].
      split; [done|]. intros _. right. eauto. }
    destruct Hfr1 as (Hfr1 & Hz1 & Hlen1). clearbody st1.
    destruct (iter x) as [xs|ex]; [|done].
    destruct (for_each_views xs st1 _ Hv1) as (Hv2 & Hr2 & Hf2).
    pose proof (loop_view_count xs (zeros_view (tail (shape x)))) as Hcnt.
    destruct (for_each xs fit_sample st1) as [st2 r2].
    destruct (loop_view xs _) as [v2 r2']. simpl in *. subst r2'.
    assert (Hfr : call_frame st st2).
    { destruct Hf2 as (Hf & Hz & Hl & Ho).
      destruct Hfr1 as (Hf' & Hl' & Hn' & Ho' & Hs' & _ & _).
      destruct Hv2 as (Hn2 & _).
      split; [by etrans|]. split; [lia|]. split; [lia|].
      split; [|split; [|split; [done|]]].
      - intros l Hl0 _. rewrite Ho; [by apply Ho'|].
        rewrite Hz1. intros [= Heq]. lia.
      - intros l Hl0. rewrite Ho; [by apply Hs'|].
        rewrite Hz1. intros [= Heq]. lia.
      - intros _. right. exists (length (longs st.1)).
        split; [congruence|done]. }
    by destruct r2 as [[]|ex].
  - destruct Htr as [(Hnew & _)|Hv]; [by rewrite Hnew in Hn|].
    destruct (iter x) as [xs|ex]; [|by split; [|split; [|apply call_frame_refl]]].
    destruct (for_each_views xs st v Hv) as (Hv2 & Hr2 & Hf2).
    pose proof (loop_view_count xs v) as Hcnt.
    pose proof (loop_view_shape xs v) as Hshape.
    destruct (for_each xs fit_sample st) as [st2 r2].
    destruct (loop_view xs v) as [v2 r2']. simpl in *. subst r2'.
    assert (Hfr : call_frame st st2).
    { destruct Hf2 as (Hf & Hz & Hl & Ho).
      destruct Hv2 as (Hn2 & _ & _ & lz2 & _ & _ & Hz2 & _ & _ & Hlz2).
      destruct Hv as (_ & _ & _ & lz & _ & _ & Hz0 & _ & _ & Hlz).
      split; [done|]. split; [lia|]. split; [lia|].
      split; [|split; [|split; [done|done]]].
      - intros l Hl0 Hc. apply Ho. by apply Hc.
      - intros l Hl0. destruct (decide (l = lz)) as [->|Hne].
        + assert (lz2 = lz) as -> by congruence.
          rewrite Hlz2, Hlz. simpl. by rewrite Hshape.
        + rewrite Ho; [done|]. congruence. }
    by destruct r2 as [[]|ex].
Qed.

Lemma sample_view_sim (xi : ndarray float64) (v v' : view) :
  sim v v' →
  sim (sample_view xi v).1 (sample_view xi v').1
  ∧ (sample_view xi v).2 = (sample_view xi v').2.
Proof.
  destruct v as [n am a_s az], v' as [n' am' a_s' az'].
  intros (Hn & Hm & Hs & Hz). simpl in *. subst n' am' a_s'.
  unfold sample_view. simpl.
  destruct (decide (broadcast_shapes (shape az) (shape (amap fne0 xi))
                    = Some (shape az))) as [Hbc|Hbc].
  - rewrite (inplace_ok add_bool az) by done.
    rewrite (inplace_ok add_bool az') by (by rewrite <- Hz).
    destruct (welford_mean am xi n) as [nm|ex]; [|by repeat split].
    destruct (welford_ssd a_s am nm xi) as [ns|ex]; by repeat split.
  - rewrite (inplace_raise add_bool az) by done.
    rewrite (inplace_raise add_bool az') by (by rewrite <- Hz).
    by repeat split.
Qed.

Lemma loop_view_sim (xs : list (ndarray float64)) (v v' : view) :
  sim v v' →
  sim (loop_view xs v).1 (loop_view xs v').1
  ∧ (loop_view xs v).2 = (loop_view xs v').2.
Proof.
  revert v v'. induction xs as [|xi xs IH]; intros v v' Hsim; [done|].
  simpl. destruct (sample_view_sim xi v v' Hsim) as (Hsim1 & Hr1).
  destruct (sample_view xi v) as [v1 r1], (sample_view xi v') as [v1' r1'].
  simpl in *. subst r1'. destruct r1 as [[]|ex]; [|done]. by apply IH.
Qed.

Lemma sim_refl (v : view) : sim v v.
Proof. by repeat split. Qed.

Lemma fit_view_sim (x : ndarray float64) (v v' : view) :
  sim v v' → sim (fit_view x v).1 (fit_view x v').1.
Proof.
  intros Hsim. unfold fit_view. destruct Hsim as (Hn & Hrest).
  rewrite <- Hn. cbv zeta.
  set (v1 := if decide (v_n v = 0) then zeros_view (tail (shape x)) else v).
  set (v1' := if decide (v_n v = 0) then zeros_view (tail (shape x)) else v').
  assert (Hsim1 : sim v1 v1').
  { unfold v1, v1'. case_decide; [apply sim_refl|by split]. }
  destruct (iter x) as [xs|ex]; [|done].
  destruct (loop_view_sim xs v1 v1' Hsim1) as (Hsim2 & Hr2).
  destruct (loop_view xs v1) as [v2 r2], (loop_view xs v1') as [v2' r2'].
  simpl in *. subst r2'. by destruct r2 as [[]|ex].
Qed.

(** ** Snapshot and restore *)

(** Restoring a snapshot binds the attributes to the very values the
    snapshot was taken from: the same references, no array is copied and
    the store is not touched. *)
Lemma load_state_dict_snapshot_of (h' : heap) (self other : WelfordEstimator) :
  load_state_dict (snapshot_of self) (h', other) = ((h', self), Ok tt).
Proof. by destruct self as [[lm|] [ls|] n [lz|]], other as [? ? ? ?]. Qed.

Lemma std_bound (np_sqrt : float64 → float64) (st : state) (v : view) :
  views st v →
  (std np_sqrt st).2 =
    Ok (amap (λ x, np_sqrt (fdiv x (of_Z (v_n v - 1)))) (v_s v)).
Proof.
  intros (Hn & lm & ls & lz & _ & Hs & _ & _ & Hls & _).
  unfold std, bind, deref_float, get, load_float, ret, bind, get.
  cbv beta. rewrite Hs. cbv beta iota. by rewrite Hls, Hn.
Qed.

Lemma views_values (st : state) (v : view) :
  views st v →
  mean_value st = Some (v_m v) ∧ ssd_value st = Some (v_s v)
  ∧ counts_value st = Some (v_z v).
Proof.
  intros (_ & lm & ls & lz & Hm & Hs & Hz & Hlm & Hls & Hlz).
  unfold mean_value, ssd_value, counts_value.
  rewrite Hm, Hs, Hz. simpl. by rewrite Hlm, Hls, Hlz.
Qed.

(** A call on an estimator that has seen no sample binds a new array of
    counts, allocated at the end of the store. *)
Lemma fit_new_counts (x : ndarray float64) (st : state) :
  _n_samples st.2 = 0 →
  _neuron_nonzero (fit x st).1.2 = Some (length (longs st.1)).
Proof.
  intros Hn. rewrite fit_unfold. rewrite decide_True by done. cbv zeta.
  pose proof (initialized_views (tail (shape x)) st Hn) as Hv1.
  assert (Hz1 : _neuron_nonzero (initialized (tail (shape x)) st).2
                = Some (length (longs st.1))) by reflexivity.
  destruct (iter x) as [xs|ex]; [|done].
  destruct (for_each_views xs _ _ Hv1) as (_ & _ & _ & Hz & _).
  destruct (for_each xs fit_sample _) as [st2 [[]|ex]]; simpl in *; congruence.
Qed.

Lemma sim_sym (v v' : view) : sim v v' → sim v' v.
Proof. intros (? & ? & ? & ?). by repeat split. Qed.

Lemma sim_trans (v1 v2 v3 : view) : sim v1 v2 → sim v2 v3 → sim v1 v3.
Proof. intros (? & ? & ? & ?) (? & ? & ? & ?). repeat split; congruence. Qed.

Lemma fit_view_new (x : ndarray float64) (v v' : view) :
  v_n v = 0 → v_n v' = 0 → fit_view x v = fit_view x v'.
Proof. intros Hn Hn'. unfold fit_view. by rewrite Hn, Hn'. Qed.

Lemma run_view_snoc (k : list (ndarray float64)) (x : ndarray float64) (v : view) :
  run_view (k ++ [x]) v = (fit_view x (run_view k v)).1.
Proof. unfold run_view. by rewrite foldl_app. Qed.

Lemma tracks_count (st : state) (v : view) : tracks st v → _n_samples st.2 = v_n v.
Proof. intros (_ & [(Hnew & ->)|(Hn & _)]); [by rewrite Hnew|done]. Qed.

(** An estimator that stands by while [fit] is called on another one: its
    float arrays are intact and its array of counts has kept its shape; the
    counts themselves are intact unless it shares the array with the
    other. *)
Lemma tracks_bystander (h h' : heap) (actor actor' other : WelfordEstimator)
    (v : view) :
  tracks (h, other) v → call_frame (h, actor) (h', actor') →
  ∃ v', tracks (h', other) v' ∧ sim v v'
        ∧ (views (h, other) v → views (h', other) v')
        ∧ ((_n_samples actor ≠ 0 →
            _neuron_nonzero actor ≠ _neuron_nonzero other) → v' = v).
Proof.
  intros (Hpos & Htr) (Hf & Hl & _ & Ho & Hsh & _ & _). simpl in *.
  destruct Htr as [(Hnew & Hn0)|Hv].
  - exists v. split; [split; [done|by left]|]. split; [apply sim_refl|].
    split; [|done]. intros (_ & lm & _ & _ & Hm & _).
    simpl in *. by rewrite Hnew in Hm.
  - destruct v as [n am a_s az].
    destruct Hv as (Hn & lm & ls & lz & Hm & Hs & Hz & Hlm & Hls & Hlz).
    simpl in *.
    assert (Hlt : (lz < length (longs h))%nat) by (by eapply lookup_lt_Some).
    pose proof (Hsh lz Hlt) as Hshape. rewrite Hlz in Hshape. simpl in Hshape.
    destruct (longs h' !! lz) as [az'|] eqn:Hlz'; [|done].
    injection Hshape as Hshape.
    assert (Hv' : views (h', other) (View n am a_s az')).
    { split; [done|]. exists lm, ls, lz. simpl. repeat split; try done.
      - by eapply prefix_lookup_Some.
      - by eapply prefix_lookup_Some. }
    exists (View n am a_s az'). split; [split; [done|by right]|].
    split; [by repeat split|]. split; [done|].
    intros Hsep. rewrite Ho in Hlz'; [|done|].
    + rewrite Hlz in Hlz'. by injection Hlz' as ->.
    + intros Hn0. rewrite <- Hz. by apply Hsep.
Qed.

(** *** Two estimators on one store *)

Section SharedSnapshot.
Variables (h0 : heap) (self : WelfordEstimator) (v0 : view).
Hypothesis Htr0 : tracks (h0, self) v0.

Lemma role_start : role h0 self v0 h0 self [].
Proof.
  exists v0. split; [done|]. split; [apply sim_refl|].
  split; [done|]. intros _. by left.
Qed.

Lemma role_step (h : heap) (e e' : WelfordEstimator)
    (k k' : list (ndarray float64)) (x : ndarray float64) :
  role h0 self v0 h e k → role h0 self v0 h e' k' →
  (length (longs h0) ≤ length (longs h))%nat →
  (_n_samples self = 0 → k ≠ [] → k' ≠ [] →
   _neuron_nonzero e ≠ _neuron_nonzero e') →
  role h0 self v0 (fit x (h, e)).1.1 (fit x (h, e)).1.2 (k ++ [x])
  ∧ role h0 self v0 (fit x (h, e)).1.1 e' k'
  ∧ (length (longs h0) ≤ length (longs (fit x (h, e)).1.1))%nat
  ∧ (_n_samples self = 0 → k' ≠ [] →
     _neuron_nonzero (fit x (h, e)).1.2 ≠ _neuron_nonzero e').
Proof.
  intros (v & Htr & Hsim & Hnz & Hpriv) (v' & Htr' & Hsim' & Hnz' & Hpriv')
         Hlen Hsep.
  destruct (fit_views x (h, e) v Htr) as (Hv1 & _ & Hfr).
  pose proof (fit_new_counts x (h, e)) as Hfresh.
  pose proof (tracks_count _ _ Htr) as Hcnt.
  destruct (fit x (h, e)) as [[h1 e1] r]. simpl in *.
  destruct (tracks_bystander h h1 e e1 e' v' Htr' Hfr)
    as (v'' & Htr'' & Hsim'' & Hviews'' & Hsame'').
  destruct Hfr as (Hf & Hl & Hn & Ho & Hsh & Hzc & _). simpl in *.
  destruct Htr as (Hpos & Htr). simpl in Hpos.
  assert (Hk : _n_samples self = 0 → _n_samples e ≠ 0 → k ≠ []).
  { intros H0 Hne ->. destruct (Hpriv H0) as [(_ & ->)|(? & _)]; done. }
  assert (Hold : _n_samples self = 0 → _n_samples e ≠ 0 →
                 ∃ l, _neuron_nonzero e = Some l ∧ (length (longs h0) ≤ l)%nat).
  { intros H0 Hne. destruct (Hpriv H0) as [(_ & ->)|(_ & _ & _ & Hl0)]; done. }
  split; [|split; [|split]].
  - exists (fit_view x v).1. split; [split; [simpl; lia|by right]|].
    split; [rewrite run_view_snoc; by apply fit_view_sim|].
    split.
    + intros H0. destruct (Hnz H0) as (Hz & Hne).
      split; [by rewrite Hzc|lia].
    + intros H0. right. split; [by destruct k|].
      split; [|split; [done|]].
      * rewrite run_view_snoc.
        destruct (Hpriv H0) as [(-> & ->)|(_ & -> & _)]; [|done].
        simpl. f_equal. apply fit_view_new; [congruence|].
        destruct Hsim as (Hsn & _). simpl in Hsn. congruence.
      * destruct (decide (_n_samples e = 0)) as [He|He].
        -- exists (length (longs h)). split; [by apply Hfresh|done].
        -- rewrite Hzc by done. by apply Hold.
  - exists v''. split; [done|].
    split; [eapply sim_trans; [by apply sim_sym|done]|].
    split; [done|].
    intros H0. destruct (Hpriv' H0) as [Hleft|(Hk' & -> & Hv' & Hl')];
      [by left|].
    right. split; [done|].
    assert (v'' = run_view k' v0) as ->.
    { apply Hsame''. intros He. apply Hsep; [done| |done]. by apply Hk. }
    split; [done|]. split; [|done]. by apply Hviews''.
  - lia.
  - intros H0 Hk'.
    destruct (Hpriv' H0) as [(-> & _)|(_ & _ & Hv' & _)]; [done|].
    destruct Hv' as (_ & _ & _ & lz' & _ & _ & Hz' & _ & _ & Hlz').
    simpl in *.
    destruct (decide (_n_samples e = 0)) as [He|He].
    + rewrite Hfresh, Hz' by done. intros [= Heq].
      apply lookup_lt_Some in Hlz'. lia.
    + rewrite Hzc by done. apply Hsep; [done|by apply Hk|done].
Qed.

Lemma calls_on_snoc (who who' : bool) (x : ndarray float64)
    (sched : list (bool * ndarray float64)) :
  calls_on who (sched ++ [(who', x)]) =
    calls_on who sched ++ (if decide (who' = who) then [x] else []).
Proof.
  unfold calls_on. rewrite list.filter_app, fmap_app. f_equal.
  rewrite filter_cons, filter_nil. simpl. by case_decide.
Qed.

Lemma run_both_both (sched : list (bool * ndarray float64)) :
  both h0 self v0 (run_both sched (h0, self, self))
       (calls_on true sched) (calls_on false sched).
Proof.
  induction sched as [|[who x] sched IH] using rev_ind.
  - split; [apply role_start|]. split; [apply role_start|]. by split.
  - unfold run_both in *. rewrite foldl_app. simpl.
    destruct (foldl _ _ sched) as [[h ea] eb].
    destruct IH as (Ha & Hb & Hlen & Hsep). simpl in *.
    rewrite !calls_on_snoc. destruct who; simpl.
    + rewrite app_nil_r.
      destruct (role_step h ea eb _ _ x Ha Hb Hlen Hsep) as (Ha' & Hb' & Hl' & Hs').
      split; [done|]. split; [done|]. split; [done|].
      intros H0 _ Hkb. by apply Hs'.
    + rewrite app_nil_r.
      assert (Hsep' : _n_samples self = 0 → calls_on false sched ≠ [] →
                      calls_on true sched ≠ [] →
                      _neuron_nonzero eb ≠ _neuron_nonzero ea).
      { intros H0 Hkb Hka Heq. by apply (Hsep H0 Hka Hkb). }
      destruct (role_step h eb ea _ _ x Hb Ha Hlen Hsep') as (Hb' & Ha' & Hl' & Hs').
      split; [done|]. split; [done|]. split; [done|].
      intros H0 Hka _ Heq. by apply (Hs' H0 Hka).
Qed.

End SharedSnapshot.

(** C2 (as amended): a snapshot holds the estimator's own arrays, not
    copies, and restoring it into a new estimator gives an estimator with
    the very same references. When the same further calls of [fit] are then
    made on the original and on the restored estimator, in whatever order
    the calls on the one and on the other alternate, both end with the same
    mean, sum of squared deviations, [std], sample count and counts of
    non-zero samples. Once a sample has been seen, the array of counts is
    one array shared by the snapshot and the two estimators, which neither
    of them ever rebinds. *)
Theorem snapshot_restore_shares_arrays (np_sqrt : float64 → float64)
    (h : heap) (self : WelfordEstimator)
    (sched : list (bool * ndarray float64)) :
  allocated (h, self) →
  calls_on true sched = calls_on false sched →
  ∃ d,
    state_dict (h, self) = ((h, self), Ok d)
    ∧ d !! "neuron_nonzero" = Some (long_ref (_neuron_nonzero self))
    ∧ load_state_dict d (h, __init__) = ((h, self), Ok tt)
    ∧ let w := run_both sched (h, self, self) in
      let original := (w.1.1, w.1.2) in
      let restored := (w.1.1, w.2) in
      mean_value original = mean_value restored
      ∧ ssd_value original = ssd_value restored
      ∧ (std np_sqrt original).2 = (std np_sqrt restored).2
      ∧ _n_samples original.2 = _n_samples restored.2
      ∧ counts_value original = counts_value restored
      ∧ (1 ≤ _n_samples self →
         _neuron_nonzero original.2 = _neuron_nonzero self
         ∧ _neuron_nonzero restored.2 = _neuron_nonzero self).
Proof.
  intros [v0 Htr0] Hcalls.
  exists (snapshot_of self). split; [apply state_dict_snapshot_of|].
  split; [apply snapshot_of_counts|].
  split; [apply load_state_dict_snapshot_of|].
  pose proof (run_both_both h self v0 Htr0 sched) as Hboth.
  rewrite <- Hcalls in Hboth.
  destruct (run_both sched (h, self, self)) as [[h' ea] eb].
  destruct Hboth as (Ha & Hb & _ & _). cbn [fst snd] in *.
  destruct Ha as (va & Htra & Hsima & Hnza & Hpriva).
  destruct Hb as (vb & Htrb & Hsimb & Hnzb & Hprivb).
  assert (Hviews : ∀ st1 st2 v1 v2,
            views st1 v1 → views st2 v2 → sim v1 v2 →
            mean_value st1 = mean_value st2
            ∧ ssd_value st1 = ssd_value st2
            ∧ (std np_sqrt st1).2 = (std np_sqrt st2).2
            ∧ _n_samples st1.2 = _n_samples st2.2).
  { intros st1 st2 v1 v2 Hv1 Hv2 (Hsn & Hsm & Hss & _).
    destruct (views_values _ _ Hv1) as (-> & -> & _).
    destruct (views_values _ _ Hv2) as (-> & -> & _).
    rewrite (std_bound np_sqrt st1 v1), (std_bound np_sqrt st2 v2) by done.
    destruct Hv1 as (-> & _), Hv2 as (-> & _).
    by rewrite Hsn, Hsm, Hss. }
  destruct (decide (_n_samples self = 0)) as [H0|H0].
  - destruct (Hpriva H0) as [(Hk & ->)|(Hk & -> & Hva & _)];
      destruct (Hprivb H0) as [(Hk' & ->)|(Hk' & -> & Hvb & _)]; try done.
    destruct (Hviews _ _ _ _ Hva Hvb (sim_refl _)) as (? & ? & ? & ?).
    destruct (views_values _ _ Hva) as (_ & _ & Hza).
    destruct (views_values _ _ Hvb) as (_ & _ & Hzb).
    split; [done|]. split; [done|]. split; [done|]. split; [done|].
    split; [congruence|]. intros Hn. lia.
  - destruct (Hnza H0) as (Hza & Hna), (Hnzb H0) as (Hzb & Hnb).
    assert (Hva : views (h', ea) va).
    { destruct Htra as (_ & [(Hnew & _)|Hv]); [|done].
      simpl in Hnew. by rewrite Hnew in Hna. }
    assert (Hvb : views (h', eb) vb).
    { destruct Htrb as (_ & [(Hnew & _)|Hv]); [|done].
      simpl in Hnew. by rewrite Hnew in Hnb. }
    assert (Hsim : sim va vb)
      by (eapply sim_trans; [done|by apply sim_sym]).
    destruct (Hviews _ _ _ _ Hva Hvb Hsim) as (? & ? & ? & ?).
    split; [done|]. split; [done|]. split; [done|]. split; [done|].
    split; [|done].
    unfold counts_value. simpl. by rewrite Hza, Hzb.
Qed.

Lemma inv_allocated (st : state) : inv st → allocated st.
Proof.
  intros [Hnew|(Hpos & am & a_s & az & Hb & _)].
  - exists (zeros_view []). split; [by rewrite Hnew|by left].
  - exists (View (_n_samples st.2) am a_s az). split; [done|]. right. by split.
Qed.

(** C2 (as stated) fails: an estimator that has seen the sample [1,0] is
    snapshotted and the snapshot restored into a new estimator. One more
    call of [fit] on the original, with [1,0] again, changes the array of
    counts that the snapshot holds from [1,0] to [2,0], and with it the
    counts of the restored estimator, which has seen one sample. *)
Lemma snapshot_is_not_a_copy :
  let x := NDArray [1; 2]%nat [of_Z 1; of_Z 0] in
  let st := run_fits [x] (empty_heap, __init__) in
  ∃ d l,
    state_dict st = (st, Ok d)
    ∧ d !! "neuron_nonzero" = Some (PyLongArray l)
    ∧ longs st.1 !! l = Some (NDArray [2%nat] [1; 0])
    ∧ load_state_dict d (st.1, __init__) = (st, Ok tt)
    ∧ let st1 := (fit x st).1 in
      longs st1.1 !! l = Some (NDArray [2%nat] [2; 0])
      ∧ counts_value (st1.1, st.2) = Some (NDArray [2%nat] [2; 0])
      ∧ _n_samples st.2 = 1.
Proof.
  cbv zeta. exists (snapshot_of
    (run_fits [NDArray [1; 2]%nat [of_Z 1; of_Z 0]] (empty_heap, __init__)).2),
    0%nat.
  split; [reflexivity|]. split; [reflexivity|]. split; [reflexivity|].
  split.
  { rewrite load_state_dict_snapshot_of. by rewrite <- surjective_pairing. }
  split; [reflexivity|]. split; reflexivity.
Qed.

Lemma snapshot_restore_shares_arrays_witness :
  let x := NDArray [1; 2]%nat [of_Z 1; of_Z 0] in
  let y := NDArray [1; 2]%nat [of_Z 3; of_Z 4] in
  let st := run_fits [x] (empty_heap, __init__) in
  let sched := [(true, x); (false, x); (false, y); (true, y)] in
  allocated (st.1, st.2)
  ∧ calls_on true sched = calls_on false sched
  ∧ ∃ d,
      state_dict (st.1, st.2) = ((st.1, st.2), Ok d)
      ∧ d !! "neuron_nonzero" = Some (long_ref (_neuron_nonzero st.2))
      ∧ load_state_dict d (st.1, __init__) = ((st.1, st.2), Ok tt)
      ∧ let w := run_both sched (st.1, st.2, st.2) in
        let original := (w.1.1, w.1.2) in
        let restored := (w.1.1, w.2) in
        mean_value original = mean_value restored
        ∧ ssd_value original = ssd_value restored
        ∧ (std rational_sqrt original).2 = (std rational_sqrt restored).2
        ∧ _n_samples original.2 = _n_samples restored.2
        ∧ counts_value original = counts_value restored
        ∧ (1 ≤ _n_samples st.2 →
           _neuron_nonzero original.2 = _neuron_nonzero st.2
           ∧ _neuron_nonzero restored.2 = _neuron_nonzero st.2).
Proof.
  cbv zeta.
  assert (Hall : allocated
    ((run_fits [NDArray [1; 2]%nat [of_Z 1; of_Z 0]] (empty_heap, __init__)).1,
     (run_fits [NDArray [1; 2]%nat [of_Z 1; of_Z 0]] (empty_heap, __init__)).2)).
  { rewrite <- surjective_pairing.
    apply inv_allocated, run_fits_inv, inv_new. }
  assert (Hcalls :
    calls_on true
      [(true, NDArray [1; 2]%nat [of_Z 1; of_Z 0]);
       (false, NDArray [1; 2]%nat [of_Z 1; of_Z 0]);
       (false, NDArray [1; 2]%nat [of_Z 3; of_Z 4]);
       (true, NDArray [1; 2]%nat [of_Z 3; of_Z 4])]
    = calls_on false
      [(true, NDArray [1; 2]%nat [of_Z 1; of_Z 0]);
       (false, NDArray [1; 2]%nat [of_Z 1; of_Z 0]);
       (false, NDArray [1; 2]%nat [of_Z 3; of_Z 4]);
       (true, NDArray [1; 2]%nat [of_Z 3; of_Z 4])]) by reflexivity.
  split; [exact Hall|]. split; [exact Hcalls|].
  exact (snapshot_restore_shares_arrays rational_sqrt _ _ _ Hall Hcalls).
Defined.

(** ** Instances on concrete inputs *)


Lemma nonzero_count_le_sample_count_witness :
  let st := run_fits [vec [of_Z 0; of_Z 4]] (empty_heap, __init__) in
  1 ≤ _n_samples st.2
  ∧ counts_bounded st
  ∧ counts_bounded (fit (vec [of_Z 7]) st).1
  ∧ ∃ l a, _neuron_nonzero st.2 = Some l ∧ longs st.1 !! l = Some a.
Proof.
  cbv zeta.
  assert (H1 : 1 ≤ _n_samples
            (run_fits [vec [of_Z 0; of_Z 4]] (empty_heap, __init__)).2)
    by (vm_compute; discriminate).
  pose proof (nonzero_count_le_sample_count
                [vec [of_Z 0; of_Z 4]] (vec [of_Z 7])) as (Ha & Hb & Hc).
  split; [exact H1|]. split; [exact Ha|]. split; [exact Hb|]. exact (Hc H1).
Defined.

Lemma active_neurons_mask_witness :
  let h := Heap [] [NDArray [2%nat] [2; 0]] in
  let self := Estimator None None 3 (Some 0%nat) in
  _neuron_nonzero self = Some 0%nat
  ∧ longs h !! 0%nat = Some (NDArray [2%nat] [2; 0])
  ∧ 1 ≤ _n_samples self < 2 ^ 63
  ∧ ∃ mask,
      active_neurons None (h, self) = ((h, self), Ok mask)
      ∧ shape mask = [2%nat]
      ∧ data mask =
          (λ c, fgt (round32 (fdiv (round32 (of_Z c)) (round32 (of_Z 3))))
                    (round32 (Fin (Q2Qc (1 # 100)))))
            <$> [2; 0].
Proof.
  cbv zeta.
  assert (H3 : 1 ≤ 3 < 2 ^ 63) by (vm_compute; split; [discriminate|reflexivity]).
  split; [reflexivity|]. split; [reflexivity|]. split; [exact H3|].
  exact (proj1 active_neurons_mask
           (Heap [] [NDArray [2%nat] [2; 0]])
           (Estimator None None 3 (Some 0%nat)) 0%nat
           (NDArray [2%nat] [2; 0]) None
           eq_refl eq_refl H3).
Defined.

Lemma to_saliency_map_data_format_witness :
  "NCWH" ≠ "NCHW" ∧ "NCWH" ≠ "NHWC"
  ∧ to_saliency_map no_resize (NDArray [2; 1; 1]%nat [LN2; LN2]) None "NCWH"
    = Raise UnboundLocalError
  ∧ (2 ≤ ndim (NDArray [2; 1]%nat [LN2; LN2]))%nat
  ∧ (is_ok (to_saliency_map no_resize (NDArray [2; 1]%nat [LN2; LN2]) None "NHWC")
     = true
     ↔ "NHWC" = "NCHW" ∨ "NHWC" = "NHWC").
Proof.
  assert (H1 : "NCWH" ≠ "NCHW") by discriminate.
  assert (H2 : "NCWH" ≠ "NHWC") by discriminate.
  assert (H3 : (2 ≤ ndim (NDArray [2; 1]%nat [LN2; LN2]))%nat)
    by (vm_compute; lia).
  split; [exact H1|]. split; [exact H2|].
  split; [exact (proj1 (to_saliency_map_data_format no_resize) _ None _ H1 H2)|].
  split; [exact H3|].
  exact (proj2 (to_saliency_map_data_format no_resize) _ "NHWC" H3).
Defined.

Lemma to_saliency_map_shape_errors_witness :
  0 ∈ [0; 3]
  ∧ is_ok (to_saliency_map no_resize (full [1; 2; 2]%nat LN2) (Some [0; 3]) "NCHW")
    = false
  ∧ (ndim (scalar LN2) ≤ 1)%nat
  ∧ ∃ sm, to_saliency_map no_resize (scalar LN2) None "NHWC" = Ok sm
          ∧ ndim sm = 0%nat.
Proof.
  assert (H2 : 0 ∈ [0; 3]) by (apply list_elem_of_here).
  assert (H3 : (ndim (scalar LN2) ≤ 1)%nat) by (vm_compute; lia).
  split; [exact H2|].
  split.
  { exact (proj1 (to_saliency_map_shape_errors no_resize
             (full [1; 2; 2]%nat LN2) (Some [0; 3]) "NCHW")
             [0; 3] eq_refl (or_intror (or_intror H2))). }
  split; [exact H3|].
  exact (proj2 (to_saliency_map_shape_errors no_resize
           (scalar LN2) None "NHWC") H3 eq_refl (or_intror eq_refl)).
Defined.

Lemma to_saliency_map_rescale_witness :
  let capacity := full [1; 2; 2]%nat LN2 in
  let sm := full [2; 2]%nat (of_Z 1) in
  to_saliency_map no_resize capacity None "NCHW" = Ok sm
  ∧ shape sm = [2; 2]%nat
  ∧ 4 * 4 ≠ 0
  ∧ to_saliency_map no_resize capacity (Some [4; 4]) "NCHW" =
      no_resize
        (amap (λ v, fmul v (Fin (Qc_of_Z (Z.of_nat 2 * Z.of_nat 2)
                                 / Qc_of_Z (4 * 4))%Qc)) sm)
        [4; 4] 1 true.
Proof.
  cbv zeta.
  assert (H1 : to_saliency_map no_resize (full [1; 2; 2]%nat LN2) None "NCHW"
               = Ok (full [2; 2]%nat (of_Z 1)))
    by by_eval.
  assert (H2 : shape (full [2; 2]%nat (of_Z 1)) = [2; 2]%nat) by reflexivity.
  assert (H3 : 4 * 4 ≠ 0) by discriminate.
  split; [exact H1|]. split; [exact H2|]. split; [exact H3|].
  exact (proj2 (proj2 (to_saliency_map_rescale no_resize _ _ "NCHW" H1))
           2%nat 2%nat 4 4 H2 H3).
Defined.

Lemma to_saliency_map_reduction_witness :
  Forall (λ x, isnan x = true) [NaN; NaN]
  ∧ fdiv (nansum_list [NaN; NaN]) LN2 = Fin 0%Qc
  ∧ to_saliency_map no_resize (NDArray [2; 1; 1]%nat [NaN; NaN]) None "NCHW"
    = Ok (NDArray [1; 1]%nat [Fin 0%Qc]).
Proof.
  assert (H1 : Forall (λ x, isnan x = true) [NaN; NaN])
    by (repeat constructor).
  split; [exact H1|].
  assert (H2 : fdiv (nansum_list [NaN; NaN]) LN2 = Fin 0%Qc)
    by exact (proj1 (proj2 (proj2 (proj2
                (to_saliency_map_reduction no_resize)))) [NaN; NaN] H1).
  split; [exact H2|].
  by_eval.
Defined.

(** ** Arrays of one shape *)

Lemma numel_app (a b : list nat) : numel (a ++ b) = (numel a * numel b)%nat.
Proof.
  unfold numel. induction a as [|x a IH]; simpl; [lia|].
  rewrite IH. lia.
Qed.

Lemma numel_reverse (sh : list nat) : numel (reverse sh) = numel sh.
Proof.
  induction sh as [|x sh IH]; [done|].
  rewrite reverse_cons, numel_app, IH. unfold numel. simpl. lia.
Qed.

(** Broadcasting an array to its own shape reads every element where it
    is. *)
Lemma src_index_diag (rs : list nat) (i : nat) :
  (i < numel rs)%nat → src_index rs rs i = i.
Proof.
  revert i. induction rs as [|x rs IH]; intros i Hi.
  - unfold numel in Hi. simpl in Hi. simpl. lia.
  - change (numel (x :: rs)) with (x * numel rs)%nat in Hi.
    cbn [src_index]. case_decide as Hx.
    + subst x. rewrite Nat.div_1_r, IH by lia. lia.
    + assert (x ≠ 0%nat) by lia.
      rewrite IH by (apply Nat.Div0.div_lt_upper_bound; lia).
      pose proof (Nat.div_mod_eq i x). lia.
Qed.

Lemma broadcast_to_self {A} `{Inhabited A} (a : ndarray A) :
  wf_array a → broadcast_to a (shape a) = data a.
Proof.
  intros Hwf. unfold wf_array in Hwf.
  unfold broadcast_to. apply list_eq. intros i.
  rewrite list_lookup_fmap. rewrite <- Hwf.
  destruct (decide (i < length (data a))%nat) as [Hi|Hi].
  - rewrite lookup_seq_lt by done. simpl.
    rewrite src_index_diag by (rewrite numel_reverse; lia).
    symmetry. by apply list_lookup_lookup_total_lt.
  - rewrite lookup_seq_ge by lia. simpl. symmetry.
    apply lookup_ge_None. lia.
Qed.

Lemma binop_same {A B C} `{Inhabited A, Inhabited B}
    (f : A → B → C) (a : ndarray A) (b : ndarray B) :
  shape b = shape a → wf_array a → wf_array b →
  binop f a b = Ok (NDArray (shape a) (zip_with f (data a) (data b))).
Proof.
  intros Hsh Ha Hb. unfold binop. rewrite Hsh, broadcast_shapes_diag.
  rewrite broadcast_to_self by done.
  rewrite <- Hsh, broadcast_to_self by done. by rewrite Hsh.
Qed.

Lemma inplace_same {A B} `{Inhabited B}
    (f : A → B → A) (a : ndarray A) (b : ndarray B) :
  shape b = shape a → wf_array b →
  inplace f a b = Ok (NDArray (shape a) (zip_with f (data a) (data b))).
Proof.
  intros Hsh Hb. rewrite inplace_ok by (rewrite Hsh; apply broadcast_shapes_diag).
  by rewrite <- Hsh, broadcast_to_self.
Qed.

Lemma lookup_total_zip_with {A B C} `{Inhabited A, Inhabited B, Inhabited C}
    (f : A → B → C) (l : list A) (k : list B) (i : nat) :
  (i < length l)%nat → (i < length k)%nat →
  zip_with f l k !!! i = f (l !!! i) (k !!! i).
Proof.
  intros Hl Hk. apply list_lookup_total_correct.
  rewrite lookup_zip_with.
  rewrite (list_lookup_lookup_total_lt l i Hl).
  by rewrite (list_lookup_lookup_total_lt k i Hk).
Qed.

(** ** One sample of the feature shape, location by location *)

Lemma welford_mean_pointwise (sh : list nat) (cur_m xi : ndarray float64) (n : Z) :
  shape cur_m = sh → wf_array cur_m → shape xi = sh → wf_array xi →
  ∃ nm, welford_mean cur_m xi n = Ok nm
        ∧ shape nm = sh ∧ wf_array nm
        ∧ ∀ i, (i < numel sh)%nat →
            data nm !!! i =
              fadd (data cur_m !!! i)
                   (fdiv (fsub (data xi !!! i) (data cur_m !!! i)) (of_Z (n + 1))).
Proof.
  destruct cur_m as [? dm], xi as [? dx]. unfold wf_array. cbn [shape data].
  intros -> Hwm -> Hwx. unfold welford_mean.
  rewrite (binop_same fsub) by done. cbn [rbind shape data].
  rewrite (binop_same fadd) by
    (try done; unfold wf_array; cbn [amap shape data];
     rewrite length_fmap, length_zip_with; lia).
  eexists. split; [reflexivity|]. cbn [shape data amap].
  split; [done|]. split.
  - rewrite length_zip_with, length_fmap, length_zip_with. lia.
  - intros i Hi.
    rewrite lookup_total_zip_with by
      (rewrite ?length_fmap, ?length_zip_with; lia).
    rewrite (@list_lookup_total_fmap _ _ _ float64_inhabited _)
      by (rewrite length_zip_with; lia).
    by rewrite lookup_total_zip_with by lia.
Qed.

Lemma welford_ssd_pointwise (sh : list nat) (cur_s old_m new_m xi : ndarray float64) :
  shape cur_s = sh → wf_array cur_s → shape old_m = sh → wf_array old_m →
  shape new_m = sh → wf_array new_m → shape xi = sh → wf_array xi →
  ∃ ns, welford_ssd cur_s old_m new_m xi = Ok ns
        ∧ shape ns = sh ∧ wf_array ns
        ∧ ∀ i, (i < numel sh)%nat →
            data ns !!! i =
              fadd (data cur_s !!! i)
                   (fmul (fsub (data xi !!! i) (data new_m !!! i))
                         (fsub (data xi !!! i) (data old_m !!! i))).
Proof.
  destruct cur_s as [? ds], old_m as [? dm], new_m as [? dn], xi as [? dx].
  unfold wf_array. cbn [shape data].
  intros -> Hws -> Hwo -> Hwn -> Hwx. unfold welford_ssd.
  rewrite (binop_same fsub (NDArray _ dx) (NDArray _ dn)) by done.
  cbn [rbind shape data].
  rewrite (binop_same fsub (NDArray _ dx) (NDArray _ dm)) by done.
  cbn [rbind shape data].
  rewrite (binop_same fmul) by
    (try done; unfold wf_array; cbn [shape data]; rewrite length_zip_with; lia).
  cbn [rbind shape data].
  rewrite (binop_same fadd) by
    (try done; unfold wf_array; cbn [shape data];
     rewrite !length_zip_with; lia).
  eexists. split; [reflexivity|]. cbn [shape data].
  split; [done|]. split.
  - rewrite !length_zip_with. lia.
  - intros i Hi.
    rewrite lookup_total_zip_with by (rewrite ?length_zip_with; lia).
    rewrite lookup_total_zip_with by (rewrite ?length_zip_with; lia).
    by rewrite !lookup_total_zip_with by lia.
Qed.

(** A sample of the feature shape is always folded in, and every location
    is updated by [welford_step] on its own values. *)
Lemma sample_view_pointwise (sh : list nat) (xi : ndarray float64) (v : view) :
  uniform sh v → shape xi = sh → wf_array xi →
  ∃ v', sample_view xi v = (v', Ok tt)
        ∧ uniform sh v'
        ∧ v_n v' = v_n v + 1
        ∧ ∀ i, (i < numel sh)%nat →
            at_location i v' = welford_step (at_location i v) (data xi !!! i).
Proof.
  destruct v as [n [? dm] [? ds] [? dz]], xi as [? dx].
  unfold uniform, wf_array. cbn [v_n v_m v_s v_z shape data].
  intros ((-> & Hwm) & (-> & Hws) & (-> & Hwz)) -> Hwx.
  unfold sample_view. cbn [v_n v_m v_s v_z].
  rewrite (inplace_same add_bool) by
    (try done; unfold wf_array; cbn [amap shape data]; by rewrite length_fmap).
  destruct (welford_mean_pointwise sh (NDArray sh dm) (NDArray sh dx) n
              eq_refl Hwm eq_refl Hwx) as (nm & -> & Hnm & Hwnm & Hpm).
  destruct (welford_ssd_pointwise sh (NDArray sh ds) (NDArray sh dm) nm
              (NDArray sh dx) eq_refl Hws eq_refl Hwm Hnm Hwnm eq_refl Hwx)
    as (ns & -> & Hns & Hwns & Hps).
  eexists. split; [reflexivity|]. cbn [v_n v_m v_s v_z amap shape data] in *.
  split; [|split; [done|]].
  - split; [done|]. split; [done|]. split; [done|].
    rewrite length_zip_with, length_fmap. lia.
  - intros i Hi. unfold at_location, welford_step.
    cbn [v_n v_m v_s v_z amap data].
    rewrite Hpm, Hps by done. rewrite Hpm by done.
    rewrite lookup_total_zip_with by (rewrite ?length_fmap; lia).
    by rewrite (@list_lookup_total_fmap _ _ _ float64_inhabited _) by lia.
Qed.

(** ** Batches of the feature shape, location by location *)

Lemma loop_view_pointwise (sh : list nat) (xs : list (ndarray float64)) (v : view) :
  Forall (λ xi, shape xi = sh ∧ wf_array xi) xs → uniform sh v →
  ∃ v', loop_view xs v = (v', Ok tt)
        ∧ uniform sh v'
        ∧ v_n v' = v_n v + Z.of_nat (length xs)
        ∧ ∀ i, (i < numel sh)%nat →
            at_location i v' =
              foldl welford_step (at_location i v) ((λ xi, data xi !!! i) <$> xs).
Proof.
  intros Hxs. revert v. induction Hxs as [|xi xs [Hx Hwx] _ IH]; intros v Hv.
  - exists v. split; [done|]. split; [done|]. split; [simpl; lia|done].
  - destruct (sample_view_pointwise sh xi v Hv Hx Hwx) as (v1 & Hstep & Hv1 & Hn1 & Hp1).
    destruct (IH v1 Hv1) as (v2 & Hloop & Hv2 & Hn2 & Hp2).
    exists v2. cbn [loop_view]. rewrite Hstep, Hloop.
    split; [done|]. split; [done|]. split; [rewrite Hn2, Hn1, length_cons; lia|].
    intros i Hi. rewrite fmap_cons. cbn [foldl]. rewrite <- Hp1 by done.
    by apply Hp2.
Qed.

Lemma chunks_filled {A} (n k : nat) (d : list A) :
  length d = (k * n)%nat → Forall (λ c, length c = n) (chunks n k d).
Proof.
  revert d. induction k as [|k IH]; intros d Hd; [constructor|].
  cbn [chunks]. constructor.
  - rewrite length_take. lia.
  - apply IH. rewrite length_drop. lia.
Qed.

Lemma iter_batch_of (sh : list nat) (x : ndarray float64) :
  batch_of sh x →
  ∃ xs, iter x = Ok xs
        ∧ length xs = batch_size x
        ∧ Forall (λ xi, shape xi = sh ∧ wf_array xi) xs.
Proof.
  intros (Hwf & b & Hsh). unfold iter, batch_size. rewrite Hsh.
  eexists. split; [reflexivity|]. split.
  - by rewrite length_fmap, chunks_length.
  - apply Forall_fmap. unfold wf_array in Hwf. rewrite Hsh in Hwf.
    change (numel (b :: sh)) with (b * numel sh)%nat in Hwf.
    eapply list.Forall_impl; [by apply chunks_filled|].
    intros c Hc. by split.
Qed.

Lemma zeros_view_uniform (sh : list nat) :
  uniform sh (zeros_view sh)
  ∧ ∀ i, (i < numel sh)%nat →
      at_location i (zeros_view sh) = (0, Fin 0%Qc, Fin 0%Qc, 0).
Proof.
  split.
  - unfold uniform, wf_array, zeros_view, np_zeros, np_zeros_long, full.
    cbn [v_m v_s v_z shape data]. by rewrite !length_replicate.
  - intros i Hi. unfold at_location, zeros_view, np_zeros, np_zeros_long, full.
    cbn [v_n v_m v_s v_z data].
    by rewrite !lookup_total_replicate_2 by done.
Qed.

(** A call with a batch of the feature shape, on the contents: it returns
    its input, and every location folds in its own column of the batch,
    from zeros if no sample had been seen. *)
Lemma fit_view_pointwise (sh : list nat) (x : ndarray float64) (v : view) :
  batch_of sh x → v_n v = 0 ∨ uniform sh v →
  ∃ v', fit_view x v = (v', Ok x)
        ∧ uniform sh v'
        ∧ v_n v' = v_n v + Z.of_nat (batch_size x)
        ∧ ∀ i, (i < numel sh)%nat →
            at_location i v' =
              foldl welford_step
                (if decide (v_n v = 0) then (0, Fin 0%Qc, Fin 0%Qc, 0)
                 else at_location i v)
                (column i x).
Proof.
  intros Hx Hv. destruct (iter_batch_of sh x Hx) as (xs & Hiter & Hlen & Hxs).
  unfold fit_view, column. rewrite Hiter. cbv zeta.
  assert (Htail : tail (shape x) = sh).
  { destruct Hx as (_ & b & ->). done. }
  rewrite Htail.
  destruct (zeros_view_uniform sh) as (Hz & Hz0).
  set (v1 := if decide (v_n v = 0) then zeros_view sh else v).
  assert (Hv1 : uniform sh v1 ∧ v_n v1 = v_n v
                ∧ ∀ i, (i < numel sh)%nat →
                    at_location i v1 =
                      if decide (v_n v = 0) then (0, Fin 0%Qc, Fin 0%Qc, 0)
                      else at_location i v).
  { unfold v1. case_decide as Hn.
    - split; [done|]. split; [by rewrite Hn|done].
    - destruct Hv as [?|Hv]; [done|]. done. }
  destruct Hv1 as (Hu1 & Hn1 & Hp1).
  destruct (loop_view_pointwise sh xs v1 Hxs Hu1) as (v2 & -> & Hu2 & Hn2 & Hp2).
  exists v2. split; [done|]. split; [done|].
  split; [rewrite Hn2, Hn1, Hlen; lia|].
  intros i Hi. rewrite Hp2 by done. by rewrite Hp1.
Qed.

Lemma columns_snoc (i : nat) (calls : list (ndarray float64)) (x : ndarray float64) :
  columns i (calls ++ [x]) = columns i calls ++ column i x.
Proof.
  unfold columns. rewrite fmap_app, join_app. simpl. by rewrite app_nil_r.
Qed.

(** Successive calls with batches of one feature shape, on the contents. *)
Lemma run_view_pointwise (sh : list nat) (calls : list (ndarray float64))
    (v0 : view) :
  Forall (batch_of sh) calls → v_n v0 = 0 → calls ≠ [] →
  uniform sh (run_view calls v0)
  ∧ v_n (run_view calls v0) = Z.of_nat (sum_list_with batch_size calls)
  ∧ ∀ i, (i < numel sh)%nat →
      at_location i (run_view calls v0) =
        foldl welford_step (0, Fin 0%Qc, Fin 0%Qc, 0) (columns i calls).
Proof.
  intros Hcalls Hn0. induction calls as [|x calls IH] using rev_ind; [done|].
  intros _. apply list.Forall_app in Hcalls as (Hcalls & Hx).
  rewrite list.Forall_singleton in Hx.
  rewrite run_view_snoc, sum_list_with_app. simpl.
  destruct (decide (calls = [])) as [->|Hne].
  - destruct (fit_view_pointwise sh x v0 Hx (or_introl Hn0))
      as (v' & Hfit & Hu & Hn & Hp).
    change (run_view [] v0) with v0. rewrite Hfit. cbn [fst].
    split; [done|]. split; [rewrite Hn, Hn0; simpl; lia|].
    intros i Hi. rewrite Hp by done. rewrite decide_True by done.
    unfold columns. simpl. by rewrite app_nil_r.
  - destruct (IH Hcalls Hne) as (Hu & Hn & Hp).
    destruct (fit_view_pointwise sh x _ Hx (or_intror Hu))
      as (v' & Hfit & Hu' & Hn' & Hp').
    rewrite Hfit. cbn [fst].
    split; [done|]. split; [rewrite Hn', Hn; lia|].
    intros i Hi. rewrite Hp' by done. rewrite columns_snoc, foldl_app.
    rewrite <- Hp by done. case_decide as Hz; [|done].
    pose proof (foldl_welford_step_count (columns i calls)
                  (0, Fin 0%Qc, Fin 0%Qc, 0)) as Hcnt.
    rewrite <- Hp in Hcnt by done. cbn [at_location fst] in Hcnt.
    rewrite Hz in Hcnt. simpl in Hcnt.
    assert (columns i calls = []) as Hnil by (destruct (columns i calls); [done|simpl in Hcnt; lia]).
    rewrite Hp by done. by rewrite Hnil.
Qed.

(** ** Calls with batches of the feature shape *)

Lemma fit_tracks (x : ndarray float64) (st : state) (v : view) :
  tracks st v → tracks (fit x st).1 (fit_view x v).1.
Proof.
  intros Htr. destruct (fit_views x st v Htr) as (Hv & _ & Hfr).
  destruct Htr as (Hpos & _). destruct Hfr as (_ & _ & Hn & _).
  split; [lia|by right].
Qed.

Lemma run_fits_tracks (calls : list (ndarray float64)) (st : state) (v : view) :
  tracks st v → tracks (run_fits calls st) (run_view calls v).
Proof.
  intros Htr. induction calls as [|x calls IH] using rev_ind; [done|].
  rewrite run_fits_snoc, run_view_snoc. by apply fit_tracks.
Qed.

Lemma run_fits_views (calls : list (ndarray float64)) (st : state) (v : view) :
  tracks st v → calls ≠ [] → views (run_fits calls st) (run_view calls v).
Proof.
  intros Htr Hne. destruct calls as [|x calls _] using rev_ind; [done|].
  rewrite run_fits_snoc, run_view_snoc.
  by apply fit_views, run_fits_tracks.
Qed.

Lemma tracks_new (h : heap) : tracks (h, __init__) (zeros_view []).
Proof. split; [done|by left]. Qed.

(** The contents after calls with batches of one feature shape on a new
    estimator. *)
Lemma run_fits_locations (sh : list nat) (calls : list (ndarray float64))
    (h : heap) :
  Forall (batch_of sh) calls → calls ≠ [] →
  ∃ v, views (run_fits calls (h, __init__)) v
       ∧ uniform sh v
       ∧ v_n v = Z.of_nat (sum_list_with batch_size calls)
       ∧ ∀ i, (i < numel sh)%nat →
           at_location i v =
             foldl welford_step (0, Fin 0%Qc, Fin 0%Qc, 0) (columns i calls).
Proof.
  intros Hcalls Hne. exists (run_view calls (zeros_view [])).
  split; [by apply run_fits_views; [apply tracks_new|]|].
  by apply run_view_pointwise.
Qed.

Lemma sum_list_with_batch_size_nil (calls : list (ndarray float64)) :
  calls = [] → sum_list_with batch_size calls = 0%nat.
Proof. by intros ->. Qed.

(** X1. On a new estimator, a sequence of calls with filled batches of one
    per-sample shape never raises: every call returns the batch it was
    given. *)
Theorem fit_returns_its_input (sh : list nat) (calls : list (ndarray float64))
    (x : ndarray float64) (h : heap) :
  Forall (batch_of sh) calls → batch_of sh x →
  (fit x (run_fits calls (h, __init__))).2 = Ok x.
Proof.
  intros Hcalls Hx.
  pose proof (run_fits_tracks calls (h, __init__) _ (tracks_new h)) as Htr.
  destruct (fit_views x _ _ Htr) as (_ & -> & _).
  destruct (fit_view_pointwise sh x (run_view calls (zeros_view [])) Hx)
    as (v' & -> & _); [|done].
  destruct (decide (calls = [])) as [->|Hne]; [by left|right].
  by apply run_view_pointwise.
Qed.

(** X2. After such calls [n_samples] returns the total number of samples
    of the batches, whatever their grouping. *)
Theorem n_samples_counts_samples (sh : list nat) (calls : list (ndarray float64))
    (h : heap) :
  Forall (batch_of sh) calls →
  (n_samples (run_fits calls (h, __init__))).2 =
    Ok (Z.of_nat (sum_list_with batch_size calls)).
Proof.
  intros Hcalls. unfold n_samples, get. cbn [snd].
  destruct (decide (calls = [])) as [->|Hne]; [done|].
  destruct (run_fits_locations sh calls h Hcalls Hne) as (v & (Hn & _) & _ & Hv & _).
  by rewrite Hn, Hv.
Qed.

(** X3. After such calls the three arrays have the per-sample shape, and
    every location holds Welford's recurrence run over the values that the
    samples have at that location, in the order of the samples: the loop
    over arrays never mixes locations. *)
Theorem fit_is_welford_at_each_location (sh : list nat)
    (calls : list (ndarray float64)) (h : heap) :
  Forall (batch_of sh) calls → calls ≠ [] →
  ∃ am a_s az,
    mean_value (run_fits calls (h, __init__)) = Some am
    ∧ ssd_value (run_fits calls (h, __init__)) = Some a_s
    ∧ counts_value (run_fits calls (h, __init__)) = Some az
    ∧ shape am = sh ∧ shape a_s = sh ∧ shape az = sh
    ∧ ∀ i, (i < numel sh)%nat →
        (_n_samples (run_fits calls (h, __init__)).2,
         data am !!! i, data a_s !!! i, data az !!! i) =
          foldl welford_step (0, Fin 0%Qc, Fin 0%Qc, 0) (columns i calls).
Proof.
  intros Hcalls Hne.
  destruct (run_fits_locations sh calls h Hcalls Hne)
    as (v & Hv & ((Hm & _) & (Hs & _) & (Hz & _)) & _ & Hp).
  destruct (views_values _ _ Hv) as (Hvm & Hvs & Hvz).
  exists (v_m v), (v_s v), (v_z v). repeat (split; [done|]).
  intros i Hi. rewrite <- Hp by done. destruct Hv as (-> & _). done.
Qed.

Lemma fit_returns_its_input_witness :
  let calls := [NDArray [2; 2]%nat [of_Z 1; of_Z 0; of_Z 3; of_Z 0]] in
  let x := NDArray [1; 2]%nat [of_Z 5; of_Z 7] in
  Forall (batch_of [2%nat]) calls ∧ batch_of [2%nat] x
  ∧ (fit x (run_fits calls (empty_heap, __init__))).2 = Ok x.
Proof.
  cbv zeta.
  assert (H1 : Forall (batch_of [2%nat])
                 [NDArray [2; 2]%nat [of_Z 1; of_Z 0; of_Z 3; of_Z 0]]).
  { repeat constructor. by exists 2%nat. }
  assert (H2 : batch_of [2%nat] (NDArray [1; 2]%nat [of_Z 5; of_Z 7])).
  { split; [reflexivity|by exists 1%nat]. }
  split; [exact H1|]. split; [exact H2|].
  exact (fit_returns_its_input _ _ _ empty_heap H1 H2).
Defined.

Lemma n_samples_counts_samples_witness :
  let calls := [NDArray [2; 2]%nat [of_Z 1; of_Z 0; of_Z 3; of_Z 0];
                NDArray [1; 2]%nat [of_Z 5; of_Z 7]] in
  Forall (batch_of [2%nat]) calls
  ∧ (n_samples (run_fits calls (empty_heap, __init__))).2 = Ok 3.
Proof.
  cbv zeta.
  assert (H1 : Forall (batch_of [2%nat])
                 [NDArray [2; 2]%nat [of_Z 1; of_Z 0; of_Z 3; of_Z 0];
                  NDArray [1; 2]%nat [of_Z 5; of_Z 7]]).
  { repeat constructor; by eexists. }
  split; [exact H1|].
  exact (n_samples_counts_samples _ _ empty_heap H1).
Defined.

Lemma fit_is_welford_at_each_location_witness :
  let calls := [NDArray [2; 2]%nat [of_Z 1; of_Z 0; of_Z 3; of_Z 0];
                NDArray [1; 2]%nat [of_Z 5; of_Z 7]] in
  Forall (batch_of [2%nat]) calls ∧ calls ≠ []
  ∧ ∃ am a_s az,
      mean_value (run_fits calls (empty_heap, __init__)) = Some am
      ∧ ssd_value (run_fits calls (empty_heap, __init__)) = Some a_s
      ∧ counts_value (run_fits calls (empty_heap, __init__)) = Some az
      ∧ shape am = [2%nat] ∧ shape a_s = [2%nat] ∧ shape az = [2%nat]
      ∧ ∀ i, (i < 2)%nat →
          (_n_samples (run_fits calls (empty_heap, __init__)).2,
           data am !!! i, data a_s !!! i, data az !!! i) =
            foldl welford_step (0, Fin 0%Qc, Fin 0%Qc, 0) (columns i calls).
Proof.
  cbv zeta.
  assert (H1 : Forall (batch_of [2%nat])
                 [NDArray [2; 2]%nat [of_Z 1; of_Z 0; of_Z 3; of_Z 0];
                  NDArray [1; 2]%nat [of_Z 5; of_Z 7]]).
  { repeat constructor; by eexists. }
  split; [exact H1|]. split; [discriminate|].
  exact (fit_is_welford_at_each_location _ _ empty_heap H1 ltac:(discriminate)).
Defined.

(** ** Regrouping the samples *)

Lemma column_samples (i : nat) (x : ndarray float64) :
  column i x = (λ xi, data xi !!! i) <$> samples x.
Proof. unfold column, samples. by destruct (iter x). Qed.

Lemma columns_samples (i : nat) (calls : list (ndarray float64)) :
  columns i calls = (λ xi, data xi !!! i) <$> all_samples calls.
Proof.
  unfold columns, all_samples. induction calls as [|x calls IH]; [done|].
  rewrite !fmap_cons. change (mjoin (?a :: ?l)) with (a ++ mjoin l).
  by rewrite fmap_app, IH, column_samples.
Qed.

Lemma length_all_samples (sh : list nat) (calls : list (ndarray float64)) :
  Forall (batch_of sh) calls →
  sum_list_with batch_size calls = length (all_samples calls).
Proof.
  unfold all_samples. induction 1 as [|x calls Hx _ IH]; [done|].
  rewrite fmap_cons. cbn [mjoin list_join sum_list_with]. rewrite length_app, IH.
  destruct (iter_batch_of sh x Hx) as (xs & Hiter & Hlen & _).
  unfold samples. by rewrite Hiter, Hlen.
Qed.

(** Two filled arrays of one shape that agree at every flat index are
    equal. *)
Lemma ndarray_ext {A} `{Inhabited A} (a b : ndarray A) :
  shape a = shape b → wf_array a → wf_array b →
  (∀ i, (i < numel (shape a))%nat → data a !!! i = data b !!! i) → a = b.
Proof.
  destruct a as [sa da], b as [sb db]. unfold wf_array. simpl.
  intros -> Ha Hb Hp. f_equal.
  apply list_eq_same_length with (numel sb); [done|done|].
  intros i x y Hi Hx Hy.
  pose proof (Hp i Hi) as Heq.
  rewrite (list_lookup_total_correct _ _ _ Hx) in Heq.
  rewrite (list_lookup_total_correct _ _ _ Hy) in Heq. done.
Qed.

Lemma run_fits_regroup (sh : list nat) (calls calls' : list (ndarray float64))
    (h h' : heap) :
  Forall (batch_of sh) calls → Forall (batch_of sh) calls' →
  calls ≠ [] → calls' ≠ [] → all_samples calls = all_samples calls' →
  ∃ v, views (run_fits calls (h, __init__)) v
       ∧ views (run_fits calls' (h', __init__)) v.
Proof.
  intros Hc Hc' Hne Hne' Heq.
  destruct (run_fits_locations sh calls h Hc Hne)
    as (v & Hv & ((Hms & Hmw) & (Hss & Hsw) & (Hzs & Hzw)) & Hn & Hp).
  destruct (run_fits_locations sh calls' h' Hc' Hne')
    as (v' & Hv' & ((Hms' & Hmw') & (Hss' & Hsw') & (Hzs' & Hzw')) & Hn' & Hp').
  exists v. split; [done|].
  assert (Hloc : ∀ i, (i < numel sh)%nat → at_location i v = at_location i v').
  { intros i Hi. rewrite Hp, Hp' by done. by rewrite !columns_samples, Heq. }
  assert (v' = v) as ->; [|done].
  destruct v as [n am a_s az], v' as [n' am' a_s' az'].
  unfold at_location in Hloc. simpl in *.
  assert (am' = am) as ->.
  { apply ndarray_ext; [congruence|done|done|].
    intros i Hi. rewrite Hms' in Hi. by injection (Hloc i Hi). }
  assert (a_s' = a_s) as ->.
  { apply ndarray_ext; [congruence|done|done|].
    intros i Hi. rewrite Hss' in Hi. by injection (Hloc i Hi). }
  assert (az' = az) as ->.
  { apply ndarray_ext; [congruence|done|done|].
    intros i Hi. rewrite Hzs' in Hi. by injection (Hloc i Hi). }
  f_equal. rewrite Hn, Hn'.
  by rewrite !(length_all_samples sh), Heq.
Qed.


(** X4. How the samples are grouped into batches is irrelevant: two
    sequences of calls that feed the same samples in the same order leave
    the same sample count and equal arrays, on any two new estimators. *)
Theorem fit_grouping_is_irrelevant (sh : list nat)
    (calls calls' : list (ndarray float64)) (h h' : heap) :
  Forall (batch_of sh) calls → Forall (batch_of sh) calls' →
  calls ≠ [] → calls' ≠ [] → all_samples calls = all_samples calls' →
  _n_samples (run_fits calls (h, __init__)).2
    = _n_samples (run_fits calls' (h', __init__)).2
  ∧ mean_value (run_fits calls (h, __init__))
    = mean_value (run_fits calls' (h', __init__))
  ∧ ssd_value (run_fits calls (h, __init__))
    = ssd_value (run_fits calls' (h', __init__))
  ∧ counts_value (run_fits calls (h, __init__))
    = counts_value (run_fits calls' (h', __init__)).
Proof.
  intros Hc Hc' Hne Hne' Heq.
  destruct (run_fits_regroup sh calls calls' h h' Hc Hc' Hne Hne' Heq)
    as (v & Hv & Hv').
  destruct (views_values _ _ Hv) as (-> & -> & ->).
  destruct (views_values _ _ Hv') as (-> & -> & ->).
  destruct Hv as (-> & _), Hv' as (-> & _). done.
Qed.

Lemma fit_grouping_is_irrelevant_witness :
  let calls := [NDArray [2; 2]%nat [of_Z 1; of_Z 0; of_Z 3; of_Z 0]] in
  let calls' := [NDArray [1; 2]%nat [of_Z 1; of_Z 0];
                 NDArray [1; 2]%nat [of_Z 3; of_Z 0]] in
  (Forall (batch_of [2%nat]) calls ∧ Forall (batch_of [2%nat]) calls'
   ∧ calls ≠ [] ∧ calls' ≠ [] ∧ all_samples calls = all_samples calls')
  ∧ _n_samples (run_fits calls (empty_heap, __init__)).2
    = _n_samples (run_fits calls' (empty_heap, __init__)).2
  ∧ mean_value (run_fits calls (empty_heap, __init__))
    = mean_value (run_fits calls' (empty_heap, __init__))
  ∧ ssd_value (run_fits calls (empty_heap, __init__))
    = ssd_value (run_fits calls' (empty_heap, __init__))
  ∧ counts_value (run_fits calls (empty_heap, __init__))
    = counts_value (run_fits calls' (empty_heap, __init__)).
Proof.
  cbv zeta.
  assert (H1 : Forall (batch_of [2%nat])
                 [NDArray [2; 2]%nat [of_Z 1; of_Z 0; of_Z 3; of_Z 0]]).
  { repeat constructor; by eexists. }
  assert (H2 : Forall (batch_of [2%nat])
                 [NDArray [1; 2]%nat [of_Z 1; of_Z 0];
                  NDArray [1; 2]%nat [of_Z 3; of_Z 0]]).
  { repeat constructor; by eexists. }
  assert (H3 : all_samples [NDArray [2; 2]%nat [of_Z 1; of_Z 0; of_Z 3; of_Z 0]]
               = all_samples [NDArray [1; 2]%nat [of_Z 1; of_Z 0];
                              NDArray [1; 2]%nat [of_Z 3; of_Z 0]])
    by reflexivity.
  split; [repeat split; try done|].
  exact (fit_grouping_is_irrelevant _ _ _ empty_heap empty_heap H1 H2
           ltac:(discriminate) ltac:(discriminate) H3).
Defined.

(** ** The counts of non-zero values *)

Lemma wrap64_add (z d : Z) : wrap64 (wrap64 z + d) = wrap64 (z + d).
Proof.
  unfold wrap64. f_equal.
  replace ((z + 2 ^ 63) `mod` 2 ^ 64 - 2 ^ 63 + d + 2 ^ 63)
    with ((z + 2 ^ 63) `mod` 2 ^ 64 + d) by lia.
  rewrite Zplus_mod_idemp_l. f_equal. lia.
Qed.

Lemma wrap64_small (z : Z) : - 2 ^ 63 ≤ z < 2 ^ 63 → wrap64 z = z.
Proof. intros Hz. unfold wrap64. rewrite Z.mod_small; lia. Qed.

Lemma count_nonzero_cons (x : float64) (l : list float64) :
  count_nonzero (x :: l) = (if fne0 x then 1 else 0) + count_nonzero l.
Proof.
  unfold count_nonzero. rewrite filter_cons.
  destruct (fne0 x); [rewrite decide_True by done|rewrite decide_False by done];
    simpl length; lia.
Qed.

Lemma count_nonzero_bound (l : list float64) :
  0 ≤ count_nonzero l ≤ Z.of_nat (length l).
Proof.
  unfold count_nonzero. pose proof (length_filter (λ x, fne0 x = true) l). lia.
Qed.

Lemma foldl_welford_step_nonzero (l : list float64) (n : Z) (mv sv : float64)
    (c : Z) :
  (foldl welford_step (n, mv, sv, wrap64 c) l).2 = wrap64 (c + count_nonzero l).
Proof.
  revert n mv sv c. induction l as [|x l IH]; intros n mv sv c.
  - simpl. f_equal. unfold count_nonzero. simpl. lia.
  - cbn [foldl welford_step]. unfold add_bool. rewrite wrap64_add, IH.
    rewrite count_nonzero_cons. f_equal. lia.
Qed.

(** X5. The array of counts holds, at every location, the number of
    samples whose value there is not equal to zero (NaN and the infinities
    count), reduced to a [long]; it is that number itself while fewer than
    2^63 samples have been seen. *)
Theorem neuron_nonzero_counts_nonzero_values (sh : list nat)
    (calls : list (ndarray float64)) (h : heap) :
  Forall (batch_of sh) calls → calls ≠ [] →
  ∃ az, counts_value (run_fits calls (h, __init__)) = Some az
        ∧ shape az = sh
        ∧ ∀ i, (i < numel sh)%nat →
            data az !!! i = wrap64 (count_nonzero (columns i calls))
            ∧ (_n_samples (run_fits calls (h, __init__)).2 < 2 ^ 63 →
               data az !!! i = count_nonzero (columns i calls)).
Proof.
  intros Hcalls Hne.
  destruct (run_fits_locations sh calls h Hcalls Hne)
    as (v & Hv & (_ & _ & (Hz & _)) & _ & Hp).
  destruct (views_values _ _ Hv) as (_ & _ & Hvz).
  exists (v_z v). split; [done|]. split; [done|]. intros i Hi.
  pose proof (foldl_welford_step_nonzero (columns i calls) 0 (Fin 0%Qc)
                (Fin 0%Qc) 0) as Hc.
  change (wrap64 0) with 0 in Hc. rewrite <- Hp in Hc by done.
  cbn [at_location snd] in Hc. rewrite Z.add_0_l in Hc.
  split; [done|]. intros Hn. rewrite Hc. apply wrap64_small.
  pose proof (count_nonzero_bound (columns i calls)) as Hb.
  pose proof (foldl_welford_step_count (columns i calls)
                (0, Fin 0%Qc, Fin 0%Qc, 0)) as Hlen.
  rewrite <- Hp in Hlen by done. cbn [at_location fst] in Hlen.
  destruct Hv as (Hnv & _). rewrite Hnv in Hn. lia.
Qed.

Lemma neuron_nonzero_counts_nonzero_values_witness :
  let calls := [NDArray [2; 2]%nat [of_Z 1; of_Z 0; of_Z 3; of_Z 0];
                NDArray [1; 2]%nat [of_Z 5; of_Z 7]] in
  (Forall (batch_of [2%nat]) calls ∧ calls ≠ [])
  ∧ ∃ az, counts_value (run_fits calls (empty_heap, __init__)) = Some az
          ∧ shape az = [2%nat]
          ∧ ∀ i, (i < 2)%nat →
              data az !!! i = wrap64 (count_nonzero (columns i calls))
              ∧ (_n_samples (run_fits calls (empty_heap, __init__)).2 < 2 ^ 63 →
                 data az !!! i = count_nonzero (columns i calls)).
Proof.
  cbv zeta.
  assert (H1 : Forall (batch_of [2%nat])
                 [NDArray [2; 2]%nat [of_Z 1; of_Z 0; of_Z 3; of_Z 0];
                  NDArray [1; 2]%nat [of_Z 5; of_Z 7]]).
  { repeat constructor; by eexists. }
  split; [split; [exact H1|discriminate]|].
  exact (neuron_nonzero_counts_nonzero_values _ _ empty_heap H1
           ltac:(discriminate)).
Defined.

(** ** Values that are not numbers *)

Lemma welford_step_nan (n : Z) (mv sv : float64) (c : Z) :
  ∃ n' c', welford_step (n, mv, sv, c) NaN = (n', NaN, NaN, c').
Proof.
  exists (n + 1), (add_bool c (fne0 NaN)). unfold welford_step.
  assert (Hm : fadd mv (fdiv (fsub NaN mv) (of_Z (n + 1))) = NaN)
    by (by destruct mv).
  rewrite Hm. by destruct sv, mv.
Qed.

Lemma welford_step_nan_stays (n : Z) (c : Z) (x : float64) :
  ∃ n' c', welford_step (n, NaN, NaN, c) x = (n', NaN, NaN, c').
Proof. eexists _, _. unfold welford_step. by destruct x. Qed.

Lemma foldl_welford_step_nan_stays (l : list float64) (n c : Z) :
  ∃ n' c', foldl welford_step (n, NaN, NaN, c) l = (n', NaN, NaN, c').
Proof.
  revert n c. induction l as [|x l IH]; intros n c; [by eexists _, _|].
  cbn [foldl]. destruct (welford_step_nan_stays n c x) as (n' & c' & ->).
  apply IH.
Qed.

Lemma foldl_welford_step_nan (l : list float64) (acc : Z * float64 * float64 * Z) :
  NaN ∈ l → ∃ n' c', foldl welford_step acc l = (n', NaN, NaN, c').
Proof.
  intros (l1 & l2 & ->)%list_elem_of_split. rewrite foldl_app. cbn [foldl].
  destruct (foldl welford_step acc l1) as [[[n mv] sv] c].
  destruct (welford_step_nan n mv sv c) as (n' & c' & ->).
  apply foldl_welford_step_nan_stays.
Qed.

(** X6. A NaN is not skipped: once a sample holds NaN at a location, the
    mean and the sum of squared deviations at that location are NaN after
    every later call, whatever the other samples hold. *)
Theorem fit_nan_stays (sh : list nat) (calls : list (ndarray float64))
    (h : heap) (i : nat) :
  Forall (batch_of sh) calls → (i < numel sh)%nat → NaN ∈ columns i calls →
  ∃ am a_s,
    mean_value (run_fits calls (h, __init__)) = Some am
    ∧ ssd_value (run_fits calls (h, __init__)) = Some a_s
    ∧ data am !!! i = NaN ∧ data a_s !!! i = NaN.
Proof.
  intros Hcalls Hi Hnan.
  assert (Hne : calls ≠ []) by (intros ->; by apply elem_of_nil in Hnan).
  destruct (run_fits_locations sh calls h Hcalls Hne) as (v & Hv & _ & _ & Hp).
  destruct (views_values _ _ Hv) as (Hvm & Hvs & _).
  exists (v_m v), (v_s v). split; [done|]. split; [done|].
  destruct (foldl_welford_step_nan _ (0, Fin 0%Qc, Fin 0%Qc, 0) Hnan)
    as (n' & c' & Hf).
  rewrite <- Hp in Hf by done. unfold at_location in Hf.
  by injection Hf.
Qed.

Lemma fit_nan_stays_witness :
  let calls := [NDArray [2; 2]%nat [of_Z 1; NaN; of_Z 3; of_Z 0];
                NDArray [1; 2]%nat [of_Z 5; of_Z 7]] in
  (Forall (batch_of [2%nat]) calls ∧ (1 < numel [2%nat])%nat
   ∧ NaN ∈ columns 1 calls)
  ∧ ∃ am a_s,
      mean_value (run_fits calls (empty_heap, __init__)) = Some am
      ∧ ssd_value (run_fits calls (empty_heap, __init__)) = Some a_s
      ∧ data am !!! 1%nat = NaN ∧ data a_s !!! 1%nat = NaN.
Proof.
  cbv zeta.
  assert (H1 : Forall (batch_of [2%nat])
                 [NDArray [2; 2]%nat [of_Z 1; NaN; of_Z 3; of_Z 0];
                  NDArray [1; 2]%nat [of_Z 5; of_Z 7]]).
  { repeat constructor; by eexists. }
  assert (H2 : (1 < numel [2%nat])%nat) by (simpl; lia).
  assert (H3 : NaN ∈ columns 1 [NDArray [2; 2]%nat [of_Z 1; NaN; of_Z 3; of_Z 0];
                                  NDArray [1; 2]%nat [of_Z 5; of_Z 7]]).
  { by_eval. }
  split; [by repeat split|].
  exact (fit_nan_stays _ _ empty_heap 1%nat H1 H2 H3).
Defined.

(** ** Finite samples, in exact arithmetic *)

Section Sums.
Local Open Scope Qc_scope.

Lemma qsum_snoc (l : list Qc) (x : Qc) : qsum (l ++ [x]) = qsum l + x.
Proof.
  unfold qsum. induction l as [|y l IH]; simpl; [ring|]. rewrite IH. ring.
Qed.

(** The squared deviations from any [c], by the sum and the sum of
    squares. *)
Lemma qsum_sq_dev (c : Qc) (l : list Qc) :
  qsum ((λ q, (q - c) * (q - c)) <$> l) =
    qsum ((λ q, q * q) <$> l) - (c + c) * qsum l
    + Qc_of_Z (Z.of_nat (length l)) * c * c.
Proof.
  induction l as [|y l IH].
  - change (Qc_of_Z (Z.of_nat (length []))) with 0. unfold qsum. simpl. ring.
  - rewrite length_cons, Qc_of_Z_succ, !fmap_cons. unfold qsum in *.
    cbn [foldr]. rewrite IH. ring.
Qed.

Lemma qmean_nil : qmean [] = 0.
Proof. unfold qmean, qsum, Qcdiv. simpl. ring. Qed.

Lemma qmean_singleton (x : Qc) : qmean [x] = x.
Proof.
  unfold qmean, qsum. simpl.
  change (Qc_of_Z (Z.of_nat 1)) with 1. field. done.
Qed.

Lemma qmean_snoc (l : list Qc) (x : Qc) :
  qmean (l ++ [x]) =
    qmean l + (x + - qmean l) / Qc_of_Z (Z.of_nat (S (length l))).
Proof.
  destruct (decide (l = [])) as [->|Hne].
  - rewrite qmean_nil. change ([] ++ [x]) with [x]. rewrite qmean_singleton.
    change (Qc_of_Z (Z.of_nat (S (length [])))) with 1. field. done.
  - unfold qmean. rewrite length_app, qsum_snoc. simpl length.
    replace (length l + 1)%nat with (S (length l)) by lia.
    rewrite Qc_of_Z_succ.
    assert (HN : Qc_of_Z (Z.of_nat (length l)) ≠ 0).
    { apply Qc_of_Z_nonzero. destruct l; [done|simpl; lia]. }
    assert (HN1 : Qc_of_Z (Z.of_nat (length l)) + 1 ≠ 0).
    { rewrite <- Qc_of_Z_succ. apply Qc_of_Z_nonzero. lia. }
    field. done.
Qed.

Lemma qssd_snoc (l : list Qc) (x : Qc) :
  qssd (l ++ [x]) = qssd l + (x + - qmean (l ++ [x])) * (x + - qmean l).
Proof.
  unfold qssd. rewrite !qsum_sq_dev, fmap_app, !qsum_snoc. cbn [fmap list_fmap].
  rewrite qsum_snoc, qmean_snoc.
  rewrite length_app. simpl length.
  replace (length l + 1)%nat with (S (length l)) by lia.
  destruct (decide (l = [])) as [->|Hne].
  - rewrite qmean_nil.
    change (Qc_of_Z (Z.of_nat (S (length [])))) with 1.
    change (Qc_of_Z (Z.of_nat (length []))) with 0.
    unfold qsum. simpl. field. done.
  - unfold qmean. rewrite Qc_of_Z_succ.
    assert (HN : Qc_of_Z (Z.of_nat (length l)) ≠ 0).
    { apply Qc_of_Z_nonzero. destruct l; [done|simpl; lia]. }
    assert (HN1 : Qc_of_Z (Z.of_nat (length l)) + 1 ≠ 0).
    { rewrite <- Qc_of_Z_succ. apply Qc_of_Z_nonzero. lia. }
    set (N := Qc_of_Z (Z.of_nat (length l))) in *.
    set (S0 := qsum l). set (Q0 := qsum ((λ q, q * q) <$> l)).
    field. done.
Qed.

Lemma welford_step_finite (l : list Qc) (x : Qc) (c : Z) :
  welford_step (Z.of_nat (length l), Fin (qmean l), Fin (qssd l), c) (Fin x) =
    (Z.of_nat (length (l ++ [x])), Fin (qmean (l ++ [x])),
     Fin (qssd (l ++ [x])), add_bool c (fne0 (Fin x))).
Proof.
  unfold welford_step.
  replace (Z.of_nat (length l) + 1)%Z with (Z.of_nat (S (length l))) by lia.
  assert (Hlen : length (l ++ [x]) = S (length l))
    by (rewrite length_app; simpl; lia).
  assert (HN1 : Qc_of_Z (Z.of_nat (S (length l))) ≠ 0)
    by (apply Qc_of_Z_nonzero; lia).
  unfold of_Z, fsub, fneg, fadd, fdiv, fmul, is_zero.
  rewrite bool_decide_eq_false_2 by done.
  rewrite Hlen, <- qmean_snoc. by rewrite qssd_snoc.
Qed.

End Sums.

Lemma foldl_welford_step_finite (l : list Qc) :
  ∃ c, foldl welford_step (0, Fin 0%Qc, Fin 0%Qc, 0) (Fin <$> l) =
         (Z.of_nat (length l), Fin (qmean l), Fin (qssd l), c).
Proof.
  induction l as [|x l (c & IH)] using rev_ind.
  - exists 0. simpl. rewrite qmean_nil. by change (qssd []) with 0%Qc.
  - eexists. rewrite fmap_app, foldl_app, IH. cbn [fmap list_fmap foldl].
    apply welford_step_finite.
Qed.

Lemma run_fits_finite_location (sh : list nat) (calls : list (ndarray float64))
    (h : heap) (i : nat) (qs : list Qc) :
  Forall (batch_of sh) calls → calls ≠ [] → (i < numel sh)%nat →
  columns i calls = Fin <$> qs →
  ∃ v, views (run_fits calls (h, __init__)) v ∧ uniform sh v
       ∧ v_n v = Z.of_nat (length qs)
       ∧ data (v_m v) !!! i = Fin (qmean qs)
       ∧ data (v_s v) !!! i = Fin (qssd qs).
Proof.
  intros Hcalls Hne Hi Hcol.
  destruct (run_fits_locations sh calls h Hcalls Hne) as (v & Hv & Hu & _ & Hp).
  exists v. split; [done|]. split; [done|].
  destruct (foldl_welford_step_finite qs) as (c & Hf).
  rewrite <- Hcol, <- Hp in Hf by done. unfold at_location in Hf.
  by injection Hf.
Qed.

(** X7. Without rounding, Welford's updates compute the statistics they
    are meant to: where the samples are finite, the mean array holds their
    arithmetic mean and the array [s] the sum of their squared deviations
    from that mean. *)
Theorem fit_computes_mean_and_squared_deviations (sh : list nat)
    (calls : list (ndarray float64)) (h : heap) (i : nat) (qs : list Qc) :
  Forall (batch_of sh) calls → calls ≠ [] → (i < numel sh)%nat →
  columns i calls = Fin <$> qs →
  ∃ am a_s,
    mean_value (run_fits calls (h, __init__)) = Some am
    ∧ ssd_value (run_fits calls (h, __init__)) = Some a_s
    ∧ data am !!! i = Fin (qmean qs)
    ∧ data a_s !!! i = Fin (qssd qs).
Proof.
  intros Hcalls Hne Hi Hcol.
  destruct (run_fits_finite_location sh calls h i qs Hcalls Hne Hi Hcol)
    as (v & Hv & _ & _ & Hm & Hs).
  destruct (views_values _ _ Hv) as (Hvm & Hvs & _).
  by exists (v_m v), (v_s v).
Qed.

(** X8. Without rounding, once two samples have been seen [std] returns,
    where the samples are finite, the square root of their unbiased sample
    variance: the sum of squared deviations from the mean, divided by the
    number of samples minus one. *)
Theorem std_is_sample_standard_deviation (np_sqrt : float64 → float64)
    (sh : list nat) (calls : list (ndarray float64)) (h : heap) (i : nat)
    (qs : list Qc) :
  Forall (batch_of sh) calls → (i < numel sh)%nat →
  columns i calls = Fin <$> qs → (2 ≤ length qs)%nat →
  ∃ r, (std np_sqrt (run_fits calls (h, __init__))).2 = Ok r
       ∧ shape r = sh
       ∧ data r !!! i =
           np_sqrt (Fin (qssd qs / Qc_of_Z (Z.of_nat (length qs) - 1))%Qc).
Proof.
  intros Hcalls Hi Hcol Hlen.
  assert (Hne : calls ≠ []).
  { intros ->. destruct qs; [simpl in Hlen; lia|discriminate]. }
  destruct (run_fits_finite_location sh calls h i qs Hcalls Hne Hi Hcol)
    as (v & Hv & (_ & (Hss & Hsw) & _) & Hn & _ & Hs).
  eexists. split; [by apply std_bound|]. split; [done|].
  unfold amap. cbn [data].
  rewrite (@list_lookup_total_fmap _ _ _ float64_inhabited _)
    by (unfold wf_array in Hsw; rewrite Hsw, Hss; done).
  rewrite Hs, Hn. f_equal. unfold of_Z, fdiv, is_zero.
  rewrite bool_decide_eq_false_2; [done|]. apply Qc_of_Z_nonzero. lia.
Qed.

Lemma fit_computes_mean_and_squared_deviations_witness :
  let calls := [NDArray [2; 2]%nat [of_Z 1; of_Z 0; of_Z 3; of_Z 0];
                NDArray [1; 2]%nat [of_Z 5; of_Z 7]] in
  let qs := [Qc_of_Z 1; Qc_of_Z 3; Qc_of_Z 5] in
  (Forall (batch_of [2%nat]) calls ∧ calls ≠ [] ∧ (0 < numel [2%nat])%nat
   ∧ columns 0 calls = Fin <$> qs)
  ∧ ∃ am a_s,
      mean_value (run_fits calls (empty_heap, __init__)) = Some am
      ∧ ssd_value (run_fits calls (empty_heap, __init__)) = Some a_s
      ∧ data am !!! 0%nat = Fin (qmean qs)
      ∧ data a_s !!! 0%nat = Fin (qssd qs).
Proof.
  cbv zeta.
  assert (H1 : Forall (batch_of [2%nat])
                 [NDArray [2; 2]%nat [of_Z 1; of_Z 0; of_Z 3; of_Z 0];
                  NDArray [1; 2]%nat [of_Z 5; of_Z 7]]).
  { repeat constructor; by eexists. }
  assert (H2 : (0 < numel [2%nat])%nat) by (simpl; lia).
  assert (H3 : columns 0 [NDArray [2; 2]%nat [of_Z 1; of_Z 0; of_Z 3; of_Z 0];
                          NDArray [1; 2]%nat [of_Z 5; of_Z 7]]
               = Fin <$> [Qc_of_Z 1; Qc_of_Z 3; Qc_of_Z 5]) by reflexivity.
  split; [by repeat split|].
  exact (fit_computes_mean_and_squared_deviations _ _ empty_heap 0%nat _ H1
           ltac:(discriminate) H2 H3).
Defined.

Lemma std_is_sample_standard_deviation_witness :
  let calls := [NDArray [2; 2]%nat [of_Z 1; of_Z 0; of_Z 3; of_Z 0];
                NDArray [1; 2]%nat [of_Z 5; of_Z 7]] in
  let qs := [Qc_of_Z 1; Qc_of_Z 3; Qc_of_Z 5] in
  (Forall (batch_of [2%nat]) calls ∧ (0 < numel [2%nat])%nat
   ∧ columns 0 calls = Fin <$> qs ∧ (2 ≤ length qs)%nat)
  ∧ ∃ r, (std rational_sqrt (run_fits calls (empty_heap, __init__))).2 = Ok r
         ∧ shape r = [2%nat]
         ∧ data r !!! 0%nat =
             rational_sqrt
               (Fin (qssd qs / Qc_of_Z (Z.of_nat (length qs) - 1))%Qc).
Proof.
  cbv zeta.
  assert (H1 : Forall (batch_of [2%nat])
                 [NDArray [2; 2]%nat [of_Z 1; of_Z 0; of_Z 3; of_Z 0];
                  NDArray [1; 2]%nat [of_Z 5; of_Z 7]]).
  { repeat constructor; by eexists. }
  assert (H2 : (0 < numel [2%nat])%nat) by (simpl; lia).
  assert (H3 : columns 0 [NDArray [2; 2]%nat [of_Z 1; of_Z 0; of_Z 3; of_Z 0];
                          NDArray [1; 2]%nat [of_Z 5; of_Z 7]]
               = Fin <$> [Qc_of_Z 1; Qc_of_Z 3; Qc_of_Z 5]) by reflexivity.
  assert (H4 : (2 ≤ length [Qc_of_Z 1; Qc_of_Z 3; Qc_of_Z 5])%nat)
    by (simpl; lia).
  split; [by repeat split|].
  exact (std_is_sample_standard_deviation rational_sqrt _ _ empty_heap 0%nat _
           H1 H2 H3 H4).
Defined.

(** ** The float arrays are never written to *)

Lemma keeps_floats_ret {A} (a : A) : keeps_floats (ret a).
Proof. by intros st. Qed.

Lemma keeps_floats_raise {A} (e : exn) : keeps_floats (@raise A e).
Proof. by intros st. Qed.

Lemma keeps_floats_lift {A} (r : result A) : keeps_floats (lift r).
Proof. by intros st. Qed.

Lemma keeps_floats_get {A} (attr : WelfordEstimator → A) : keeps_floats (get attr).
Proof. by intros st. Qed.

Lemma keeps_floats_set_m (v : option nat) : keeps_floats (set_m v).
Proof. by intros [h self]. Qed.

Lemma keeps_floats_set_s (v : option nat) : keeps_floats (set_s v).
Proof. by intros [h self]. Qed.

Lemma keeps_floats_set_n_samples (v : Z) : keeps_floats (set_n_samples v).
Proof. by intros [h self]. Qed.

Lemma keeps_floats_set_neuron_nonzero (v : option nat) :
  keeps_floats (set_neuron_nonzero v).
Proof. by intros [h self]. Qed.

Lemma keeps_floats_new_float (a : ndarray float64) : keeps_floats (new_float a).
Proof. intros [h self]. simpl. by apply prefix_app_r. Qed.

Lemma keeps_floats_new_long (a : ndarray Z) : keeps_floats (new_long a).
Proof. by intros [h self]. Qed.

Lemma keeps_floats_load_float (l : nat) : keeps_floats (load_float l).
Proof. by intros st. Qed.

Lemma keeps_floats_load_long (l : nat) : keeps_floats (load_long l).
Proof. by intros st. Qed.

Lemma keeps_floats_store_long (l : nat) (a : ndarray Z) :
  keeps_floats (store_long l a).
Proof. by intros [h self]. Qed.

Lemma keeps_floats_bind {A B} (c : M A) (k : A → M B) :
  keeps_floats c → (∀ a, keeps_floats (k a)) → keeps_floats (bind c k).
Proof.
  intros Hc Hk st. unfold bind. specialize (Hc st).
  destruct (c st) as [st' [a|e]]; [|done].
  etrans; [exact Hc|apply Hk].
Qed.

Lemma keeps_floats_for_each {A} (xs : list A) (body : A → M unit) :
  (∀ x, keeps_floats (body x)) → keeps_floats (for_each xs body).
Proof.
  intros Hb. induction xs as [|x xs IH]; [apply keeps_floats_ret|].
  apply keeps_floats_bind; [apply Hb|by intros _].
Qed.

Ltac solve_keeps :=
  repeat first
    [ apply keeps_floats_bind; [|intros ?]
    | apply keeps_floats_ret | apply keeps_floats_raise
    | apply keeps_floats_lift | apply keeps_floats_get
    | apply keeps_floats_set_m | apply keeps_floats_set_s
    | apply keeps_floats_set_n_samples | apply keeps_floats_set_neuron_nonzero
    | apply keeps_floats_new_float | apply keeps_floats_new_long
    | apply keeps_floats_load_float | apply keeps_floats_load_long
    | apply keeps_floats_store_long
    | match goal with
      | |- keeps_floats (match ?r with _ => _ end) => destruct r
      end
    | progress cbv zeta ].

Lemma keeps_floats_deref_float (attr : WelfordEstimator → option nat) (e : exn) :
  keeps_floats (deref_float attr e).
Proof. unfold deref_float. solve_keeps. Qed.

Lemma keeps_floats_fit_sample (xi : ndarray float64) : keeps_floats (fit_sample xi).
Proof.
  unfold fit_sample.
  repeat first [apply keeps_floats_deref_float | progress solve_keeps].
Qed.

Lemma keeps_floats_fit (x : ndarray float64) : keeps_floats (fit x).
Proof.
  unfold fit.
  repeat first [apply keeps_floats_for_each; intros ?
               | apply keeps_floats_fit_sample | progress solve_keeps].
Qed.

Lemma run_fits_floats (calls : list (ndarray float64)) (st : state) :
  floats st.1 `prefix_of` floats (run_fits calls st).1.
Proof.
  induction calls as [|x calls IH] using rev_ind; [done|].
  rewrite run_fits_snoc. etrans; [exact IH|apply keeps_floats_fit].
Qed.

(** X9. Calls of [fit] write to no float array: in any state, an array
    that a reference denotes before a sequence of calls (the array returned
    by [mean], or held by a state dictionary) is the same after them,
    whether the calls return or raise. *)
Theorem fit_keeps_float_arrays (calls : list (ndarray float64)) (st : state)
    (l : nat) (a : ndarray float64) :
  floats st.1 !! l = Some a →
  floats (run_fits calls st).1 !! l = Some a.
Proof.
  intros Hl. by eapply prefix_lookup_Some; [|apply run_fits_floats].
Qed.

Lemma fit_keeps_float_arrays_witness :
  let st := run_fits [vec [of_Z 1; of_Z 2]] (empty_heap, __init__) in
  let calls := [vec [of_Z 4]; NDArray [1; 3]%nat [of_Z 1; of_Z 2; of_Z 3]] in
  let a := scalar (Fin (Q2Qc (3 # 2))) in
  m st.2 = Some 4%nat ∧ floats st.1 !! 4%nat = Some a
  ∧ floats (run_fits calls st).1 !! 4%nat = Some a.
Proof.
  cbv zeta.
  assert (H1 : floats (run_fits [vec [of_Z 1; of_Z 2]] (empty_heap, __init__)).1
               !! 4%nat = Some (scalar (Fin (Q2Qc (3 # 2))))) by by_eval.
  split; [reflexivity|]. split; [exact H1|].
  exact (fit_keeps_float_arrays _ _ _ _ H1).
Defined.

(** ** Calls before a sample has been seen *)

(** While the sample count is zero a call computes on zeros, whatever the
    attributes are bound to. *)
Lemma fit_views_restart (x : ndarray float64) (st : state) :
  _n_samples st.2 = 0 →
  views (fit x st).1 (fit_view x (zeros_view [])).1
  ∧ (fit x st).2 = (fit_view x (zeros_view [])).2.
Proof.
  intros Hn. rewrite fit_unfold. unfold fit_view.
  rewrite decide_True by done.
  change (v_n (zeros_view [])) with 0. rewrite decide_True by done. cbv zeta.
  pose proof (initialized_views (tail (shape x)) st Hn) as Hv1.
  destruct (iter x) as [xs|ex]; [|done].
  destruct (for_each_views xs _ _ Hv1) as (Hv2 & Hr2 & _).
  destruct (for_each xs fit_sample _) as [st2 r2].
  destruct (loop_view xs _) as [v2 r2']. simpl in *. subst r2'.
  by destruct r2 as [[]|ex].
Qed.

(** X10. Until a sample has been seen every call starts afresh: on a state
    whose sample count is zero, whatever its attributes are bound to (after
    calls with empty batches, say), a call returns or raises what it does
    on a new estimator and leaves the same sample count and equal arrays.
    The per-sample shape is thus not fixed by a batch without samples. *)
Theorem fit_restarts_until_a_sample_is_seen (x : ndarray float64) (st : state)
    (h' : heap) :
  _n_samples st.2 = 0 →
  (fit x st).2 = (fit x (h', __init__)).2
  ∧ _n_samples (fit x st).1.2 = _n_samples (fit x (h', __init__)).1.2
  ∧ mean_value (fit x st).1 = mean_value (fit x (h', __init__)).1
  ∧ ssd_value (fit x st).1 = ssd_value (fit x (h', __init__)).1
  ∧ counts_value (fit x st).1 = counts_value (fit x (h', __init__)).1.
Proof.
  intros Hn.
  destruct (fit_views_restart x st Hn) as (Hv & ->).
  destruct (fit_views_restart x (h', __init__) eq_refl) as (Hv' & ->).
  destruct (views_values _ _ Hv) as (-> & -> & ->).
  destruct (views_values _ _ Hv') as (-> & -> & ->).
  destruct Hv as (-> & _), Hv' as (-> & _). done.
Qed.

Lemma fit_restarts_until_a_sample_is_seen_witness :
  let st := run_fits [NDArray [0; 3]%nat []] (empty_heap, __init__) in
  let x := NDArray [1; 2]%nat [of_Z 5; of_Z 7] in
  (feature_shape st = Some [3%nat] ∧ _n_samples st.2 = 0)
  ∧ (fit x st).2 = (fit x (empty_heap, __init__)).2
  ∧ _n_samples (fit x st).1.2 = _n_samples (fit x (empty_heap, __init__)).1.2
  ∧ mean_value (fit x st).1 = mean_value (fit x (empty_heap, __init__)).1
  ∧ ssd_value (fit x st).1 = ssd_value (fit x (empty_heap, __init__)).1
  ∧ counts_value (fit x st).1 = counts_value (fit x (empty_heap, __init__)).1.
Proof.
  cbv zeta.
  assert (H1 : _n_samples
                 (run_fits [NDArray [0; 3]%nat []] (empty_heap, __init__)).2 = 0)
    by reflexivity.
  split; [split; [reflexivity|exact H1]|].
  exact (fit_restarts_until_a_sample_is_seen _ _ empty_heap H1).
Defined.

(** X11. A 0-d array cannot be iterated: [fit] raises [TypeError] and
    the sample count stays as it was. An estimator that has seen a sample
    is left as it was; one that has not has already been bound to new 0-d
    arrays of zeros when the exception is raised. *)
Theorem fit_zero_dimensional_input (x : ndarray float64) (st : state) :
  shape x = [] →
  (fit x st).2 = Raise TypeError
  ∧ _n_samples (fit x st).1.2 = _n_samples st.2
  ∧ (_n_samples st.2 ≠ 0 → (fit x st).1 = st)
  ∧ (_n_samples st.2 = 0 →
     mean_value (fit x st).1 = Some (np_zeros [])
     ∧ ssd_value (fit x st).1 = Some (np_zeros [])
     ∧ counts_value (fit x st).1 = Some (np_zeros_long [])).
Proof.
  intros Hsh. rewrite fit_unfold. unfold iter. rewrite Hsh. cbv zeta.
  destruct (decide (_n_samples st.2 = 0)) as [Hn|Hn].
  - split; [done|]. split; [done|]. split; [done|]. intros _.
    exact (views_values _ _ (initialized_views [] st Hn)).
  - by repeat split.
Qed.

Lemma fit_zero_dimensional_input_witness :
  let x := scalar (of_Z 1) in
  let st := (empty_heap, __init__) in
  shape x = []
  ∧ (fit x st).2 = Raise TypeError
  ∧ _n_samples (fit x st).1.2 = _n_samples st.2
  ∧ (_n_samples st.2 ≠ 0 → (fit x st).1 = st)
  ∧ (_n_samples st.2 = 0 →
     mean_value (fit x st).1 = Some (np_zeros [])
     ∧ ssd_value (fit x st).1 = Some (np_zeros [])
     ∧ counts_value (fit x st).1 = Some (np_zeros_long [])).
Proof.
  cbv zeta. split; [reflexivity|].
  exact (fit_zero_dimensional_input (scalar (of_Z 1)) (empty_heap, __init__)
           eq_refl).
Defined.

(** ** [load_state_dict] on any mapping *)

Lemma as_float_ref_float_ref (r : option nat) (st : state) :
  as_float_ref (float_ref r) st = (st, Ok r).
Proof. by destruct r. Qed.

Lemma as_long_ref_long_ref (r : option nat) (st : state) :
  as_long_ref (long_ref r) st = (st, Ok r).
Proof. by destruct r. Qed.

(** X12. [load_state_dict] reads the keys "m", "s", "n_samples" and
    "neuron_nonzero" in this order and raises [KeyError] at the first one
    that the mapping lacks. Nothing is rolled back: the attributes
    assigned before the missing key keep their new values, the others
    their old ones. *)
Theorem load_state_dict_missing_key (state : gmap string pyval) (h : heap)
    (self : WelfordEstimator) (rm rs : option nat) (n : Z) :
  (state !! "m" = None →
   load_state_dict state (h, self) = ((h, self), Raise KeyError))
  ∧ (state !! "m" = Some (float_ref rm) → state !! "s" = None →
     load_state_dict state (h, self) =
       ((h, Estimator rm (s self) (_n_samples self) (_neuron_nonzero self)),
        Raise KeyError))
  ∧ (state !! "m" = Some (float_ref rm) → state !! "s" = Some (float_ref rs) →
     state !! "n_samples" = None →
     load_state_dict state (h, self) =
       ((h, Estimator rm rs (_n_samples self) (_neuron_nonzero self)),
        Raise KeyError))
  ∧ (state !! "m" = Some (float_ref rm) → state !! "s" = Some (float_ref rs) →
     state !! "n_samples" = Some (PyInt n) →
     state !! "neuron_nonzero" = None →
     load_state_dict state (h, self) =
       ((h, Estimator rm rs n (_neuron_nonzero self)), Raise KeyError)).
Proof.
  destruct self as [em es en ez].
  unfold load_state_dict, getitem, bind.
  repeat split.
  - by intros ->.
  - intros -> ->. cbn. by rewrite as_float_ref_float_ref.
  - intros -> -> ->. cbn. rewrite as_float_ref_float_ref. cbn.
    by rewrite as_float_ref_float_ref.
  - intros -> -> -> ->. cbn. rewrite as_float_ref_float_ref. cbn.
    by rewrite as_float_ref_float_ref.
Qed.

Lemma load_state_dict_missing_key_witness :
  let state : gmap string pyval :=
    <["m" := PyFloatArray 0]> (<["n_samples" := PyInt 5]> ∅) in
  let self := Estimator None (Some 1%nat) 2 (Some 0%nat) in
  (state !! "m" = Some (float_ref (Some 0%nat)) ∧ state !! "s" = None)
  ∧ load_state_dict state (empty_heap, self) =
      ((empty_heap, Estimator (Some 0%nat) (Some 1%nat) 2 (Some 0%nat)),
       Raise KeyError).
Proof.
  cbv zeta.
  assert (H1 : (<["m" := PyFloatArray 0]> (<["n_samples" := PyInt 5]> ∅)
                : gmap string pyval) !! "m" = Some (float_ref (Some 0%nat)))
    by reflexivity.
  assert (H2 : (<["m" := PyFloatArray 0]> (<["n_samples" := PyInt 5]> ∅)
                : gmap string pyval) !! "s" = None) by reflexivity.
  split; [by split|].
  exact (proj1 (proj2 (load_state_dict_missing_key _ empty_heap
                         (Estimator None (Some 1%nat) 2 (Some 0%nat))
                         (Some 0%nat) None 0)) H1 H2).
Defined.

(** X13. [load_state_dict] looks at the four keys only. When the mapping
    has them, all four attributes are overwritten by the values found
    (references are bound as they are, no array is copied), whatever the
    estimator held before and whatever other keys the mapping has; the
    store is not touched. *)
Theorem load_state_dict_reads_four_keys (state : gmap string pyval) (h : heap)
    (self : WelfordEstimator) (rm rs rz : option nat) (n : Z) :
  state !! "m" = Some (float_ref rm) → state !! "s" = Some (float_ref rs) →
  state !! "n_samples" = Some (PyInt n) →
  state !! "neuron_nonzero" = Some (long_ref rz) →
  load_state_dict state (h, self) = ((h, Estimator rm rs n rz), Ok tt).
Proof.
  destruct self as [em es en ez].
  unfold load_state_dict, getitem, bind.
  intros -> -> -> ->. cbn. rewrite as_float_ref_float_ref. cbn.
  rewrite as_float_ref_float_ref. cbn. by rewrite as_long_ref_long_ref.
Qed.

Lemma load_state_dict_reads_four_keys_witness :
  let state : gmap string pyval :=
    <["epoch" := PyInt 9]> (snapshot_of (Estimator (Some 2%nat) (Some 3%nat) 1 (Some 0%nat))) in
  let self := Estimator None (Some 1%nat) 2 None in
  (state !! "m" = Some (float_ref (Some 2%nat))
   ∧ state !! "s" = Some (float_ref (Some 3%nat))
   ∧ state !! "n_samples" = Some (PyInt 1)
   ∧ state !! "neuron_nonzero" = Some (long_ref (Some 0%nat)))
  ∧ load_state_dict state (empty_heap, self) =
      ((empty_heap, Estimator (Some 2%nat) (Some 3%nat) 1 (Some 0%nat)), Ok tt).
Proof.
  cbv zeta.
  split; [by repeat split|].
  exact (load_state_dict_reads_four_keys
           (<["epoch" := PyInt 9]>
              (snapshot_of (Estimator (Some 2%nat) (Some 3%nat) 1 (Some 0%nat))))
           empty_heap (Estimator None (Some 1%nat) 2 None)
           (Some 2%nat) (Some 3%nat) (Some 0%nat) 1
           eq_refl eq_refl eq_refl eq_refl).
Defined.

(** ** Queries before two samples have been seen *)

Lemma active_neurons_bound (threshold : option float64) (st : state) (v : view) :
  views st v →
  (active_neurons threshold st).2 =
    Ok (amap (λ c, fgt (round32 (fdiv (float32_of_Z c) (float32_of_Z (v_n v))))
                       (round32 (default default_threshold threshold)))
          (v_z v)).
Proof.
  intros (Hn & lm & ls & lz & _ & _ & Hz & _ & _ & Hlz).
  unfold active_neurons, bind, get, load_long, ret. cbv beta zeta.
  rewrite Hz. cbv beta iota. by rewrite Hlz, Hn.
Qed.

Lemma amap_full {A B} (f : A → B) (sh : list nat) (a : A) :
  amap f (full sh a) = full sh (f a).
Proof. unfold amap, full. simpl. by rewrite fmap_replicate. Qed.

(** A filled array that holds one value everywhere. *)
Lemma ndarray_full {A} `{Inhabited A} (a : ndarray A) (x : A) :
  wf_array a → (∀ i, (i < numel (shape a))%nat → data a !!! i = x) →
  a = full (shape a) x.
Proof.
  intros Hwf Hp. apply ndarray_ext; [done|done| |].
  - unfold wf_array, full. simpl. by rewrite length_replicate.
  - intros i Hi. rewrite Hp by done. unfold full. simpl.
    by rewrite lookup_total_replicate_2.
Qed.

(** The contents after calls that fed no sample. *)
Lemma run_fits_no_sample (sh : list nat) (calls : list (ndarray float64))
    (h : heap) :
  Forall (batch_of sh) calls → calls ≠ [] →
  sum_list_with batch_size calls = 0%nat →
  views (run_fits calls (h, __init__)) (zeros_view sh).
Proof.
  intros Hcalls Hne Hsum.
  destruct (run_fits_locations sh calls h Hcalls Hne)
    as (v & Hv & ((Hms & Hmw) & (Hss & Hsw) & (Hzs & Hzw)) & Hn & Hp).
  assert (Hloc : ∀ i, (i < numel sh)%nat →
                   at_location i v = (0, Fin 0%Qc, Fin 0%Qc, 0)).
  { intros i Hi. rewrite Hp by done.
    pose proof (foldl_welford_step_count (columns i calls)
                  (0, Fin 0%Qc, Fin 0%Qc, 0)) as Hlen.
    rewrite <- Hp in Hlen by done. cbn [at_location fst] in Hlen.
    rewrite Hn, Hsum in Hlen.
    by destruct (columns i calls); [|simpl in Hlen; lia]. }
  assert (v = zeros_view sh) as ->; [|done].
  destruct v as [n am a_s az]. unfold at_location in Hloc. simpl in *.
  unfold zeros_view, np_zeros, np_zeros_long. rewrite Hsum in Hn. subst n.
  f_equal.
  - rewrite <- Hms. apply ndarray_full; [done|]. rewrite Hms.
    intros i Hi. by injection (Hloc i Hi).
  - rewrite <- Hss. apply ndarray_full; [done|]. rewrite Hss.
    intros i Hi. by injection (Hloc i Hi).
  - rewrite <- Hzs. apply ndarray_full; [done|]. rewrite Hzs.
    intros i Hi. by injection (Hloc i Hi).
Qed.

(** X14. [active_neurons] before any sample: on a new estimator it raises
    [AttributeError]; after calls that fed only batches without samples it
    divides zero counts by a zero sample count and returns a mask that is
    false everywhere, whatever the threshold. *)
Theorem active_neurons_without_samples (threshold : option float64)
    (sh : list nat) (calls : list (ndarray float64)) (h : heap) :
  Forall (batch_of sh) calls → sum_list_with batch_size calls = 0%nat →
  (active_neurons threshold (run_fits calls (h, __init__))).2 =
    if decide (calls = []) then Raise AttributeError else Ok (full sh false).
Proof.
  intros Hcalls Hsum. case_decide as Hne; [by subst calls|].
  rewrite (active_neurons_bound _ _ _ (run_fits_no_sample sh calls h Hcalls Hne Hsum)).
  unfold zeros_view, np_zeros_long. cbn [v_z v_n]. by rewrite amap_full.
Qed.

Lemma active_neurons_without_samples_witness :
  let calls := [NDArray [0; 3]%nat []; NDArray [0; 3]%nat []] in
  (Forall (batch_of [3%nat]) calls ∧ sum_list_with batch_size calls = 0%nat)
  ∧ (active_neurons (Some (of_Z (-1))) (run_fits calls (empty_heap, __init__))).2
    = Ok (full [3%nat] false).
Proof.
  cbv zeta.
  assert (H1 : Forall (batch_of [3%nat])
                 [NDArray [0; 3]%nat []; NDArray [0; 3]%nat []]).
  { repeat constructor; by eexists. }
  split; [by split|].
  exact (active_neurons_without_samples (Some (of_Z (-1))) _ _ empty_heap H1
           eq_refl).
Defined.

(** The first sample leaves a sum of squared deviations that is zero or
    NaN: divided by zero it is NaN. *)
Lemma welford_step_first (x : float64) :
  fdiv (welford_step (0, Fin 0%Qc, Fin 0%Qc, 0) x).1.2 (of_Z 0) = NaN.
Proof.
  destruct x as [|sg|q]; [done|by destruct sg|].
  unfold welford_step. cbn [fst snd].
  unfold of_Z, fsub, fneg, fadd, fdiv, fmul.
  change (is_zero (Qc_of_Z (0 + 1))) with false. cbv iota.
  change (is_zero (Qc_of_Z 0)) with true. cbv iota.
  change (Qc_of_Z (0 + 1)) with 1%Qc.
  assert (Hz : (0 + (q + - (0 + (q + - 0) / 1)) * (q + - 0) = 0)%Qc)
    by (field; done).
  by rewrite Hz.
Qed.

(** X15. [std] needs two samples. On a new estimator it raises
    [TypeError]; after exactly one sample it divides by zero a sum of
    squared deviations that is zero or NaN, so that every element is the
    square root of NaN, whatever the sample holds. *)
Theorem std_needs_two_samples (np_sqrt : float64 → float64) (sh : list nat)
    (calls : list (ndarray float64)) (h : heap) :
  (std np_sqrt (h, __init__)).2 = Raise TypeError
  ∧ (Forall (batch_of sh) calls → sum_list_with batch_size calls = 1%nat →
     (std np_sqrt (run_fits calls (h, __init__))).2 =
       Ok (full sh (np_sqrt NaN))).
Proof.
  split; [done|]. intros Hcalls Hsum.
  assert (Hne : calls ≠ []) by (by intros ->).
  destruct (run_fits_locations sh calls h Hcalls Hne)
    as (v & Hv & (_ & (Hss & Hsw) & _) & Hn & Hp).
  rewrite (std_bound np_sqrt _ _ Hv). f_equal.
  rewrite <- Hss at 1.
  change (shape (v_s v)) with (shape (amap (λ x, np_sqrt (fdiv x (of_Z (v_n v - 1)))) (v_s v))).
  apply ndarray_full.
  - unfold wf_array, amap. simpl. by rewrite length_fmap.
  - cbn [amap shape data]. rewrite Hss. intros i Hi.
    rewrite (@list_lookup_total_fmap _ _ _ float64_inhabited _)
      by (unfold wf_array in Hsw; rewrite Hsw, Hss; done).
    rewrite Hn, Hsum. change (Z.of_nat 1 - 1) with 0. f_equal.
    pose proof (Hp i Hi) as Hloc.
    pose proof (foldl_welford_step_count (columns i calls)
                  (0, Fin 0%Qc, Fin 0%Qc, 0)) as Hlen.
    rewrite <- Hloc in Hlen. cbn [at_location fst] in Hlen.
    rewrite Hn, Hsum in Hlen.
    destruct (columns i calls) as [|x [|y l]]; simpl in Hlen; try lia.
    cbn [foldl] in Hloc. rewrite <- (welford_step_first x), <- Hloc. done.
Qed.

Lemma std_needs_two_samples_witness :
  let calls := [NDArray [0; 2]%nat []; NDArray [1; 2]%nat [of_Z 5; Inf false]] in
  (Forall (batch_of [2%nat]) calls ∧ sum_list_with batch_size calls = 1%nat)
  ∧ (std rational_sqrt (run_fits calls (empty_heap, __init__))).2 =
      Ok (full [2%nat] (rational_sqrt NaN)).
Proof.
  cbv zeta.
  assert (H1 : Forall (batch_of [2%nat])
                 [NDArray [0; 2]%nat []; NDArray [1; 2]%nat [of_Z 5; Inf false]]).
  { repeat constructor; by eexists. }
  split; [by split|].
  exact (proj2 (std_needs_two_samples rational_sqrt _ _ empty_heap) H1 eq_refl).
Defined.

(** ** [to_saliency_map]: values that are not negative *)

Lemma fadd_nonneg (x y : float64) :
  is_nonneg x = true → is_nonneg y = true → is_nonneg (fadd x y) = true.
Proof.
  destruct x as [|[]|p], y as [|[]|q]; try done. simpl.
  intros Hp%bool_decide_eq_true_1 Hq%bool_decide_eq_true_1.
  apply bool_decide_eq_true_2.
  replace 0%Qc with (0 + 0)%Qc by ring. by apply Qcplus_le_compat.
Qed.

Lemma Q2Qc_nonneg (z : Z) (p : positive) : 0 ≤ z → (0 ≤ Q2Qc (z # p))%Qc.
Proof.
  intros Hz. unfold Qcle. cbn [this Q2Qc]. rewrite (Qred_correct (z # p)).
  unfold Qle. simpl. lia.
Qed.

Lemma div_nearest_even_nonneg (n d : Z) :
  0 ≤ n → 0 < d → 0 ≤ div_nearest_even n d.
Proof.
  intros Hn Hd. unfold div_nearest_even.
  pose proof (Z.div_pos n d Hn Hd). repeat case_decide; [lia|lia|].
  destruct (Z.even (n / d)); lia.
Qed.

(** Rounding keeps the sign. *)
Lemma round_binary_nonneg (prec emin emax : Z) (q : Qc) :
  (0 ≤ q)%Qc → is_nonneg (round_binary prec emin emax q) = true.
Proof.
  intros Hq.
  assert (Hnum : 0 ≤ Qnum q).
  { unfold Qcle, Qle in Hq. simpl in Hq. lia. }
  unfold round_binary. cbv zeta. case_decide as Hn.
  { apply bool_decide_eq_true_2, Qcle_refl. }
  case_decide as Hov.
  - simpl. by rewrite bool_decide_eq_false_2 by lia.
  - simpl. apply bool_decide_eq_true_2, Q2Qc_nonneg.
    apply Z.mul_nonneg_nonneg; [|by apply Z.pow_nonneg].
    apply Z.mul_nonneg_nonneg; [lia|].
    apply div_nearest_even_nonneg.
    + apply Z.mul_nonneg_nonneg; [lia|by apply Z.pow_nonneg].
    + apply Z.mul_pos_pos; [done|]. apply Z.pow_pos_nonneg; lia.
Qed.

Lemma round64_nonneg (x : float64) :
  is_nonneg x = true → is_nonneg (round64 x) = true.
Proof.
  destruct x as [|sg|q]; try done.
  intros Hq%bool_decide_eq_true_1. by apply round_binary_nonneg.
Qed.

Lemma nan_to_zero_nonneg (x : float64) :
  is_nonneg x || isnan x = true → is_nonneg (nan_to_zero x) = true.
Proof.
  destruct x as [|[]|q]; try done. simpl. by rewrite orb_false_r.
Qed.

Lemma nansum_list_nonneg (l : list float64) :
  Forall (λ x, is_nonneg x || isnan x = true) l →
  is_nonneg (nansum_list l) = true ∧ is_nonneg (nansum_list64 l) = true.
Proof.
  unfold nansum_list, nansum_list64, fsum, fsum64. intros Hl.
  cut (∀ a, is_nonneg a = true →
         is_nonneg (foldl fadd a (nan_to_zero <$> l)) = true
         ∧ is_nonneg (foldl (λ a x, round64 (fadd a x)) a (nan_to_zero <$> l))
           = true).
  { intros Hcut. apply Hcut. apply bool_decide_eq_true_2, Qcle_refl. }
  induction Hl as [|x l Hx _ IH]; intros a Ha; [done|].
  rewrite fmap_cons. cbn [foldl].
  pose proof (fadd_nonneg a _ Ha (nan_to_zero_nonneg x Hx)) as Hax.
  split; [by apply IH|]. by apply IH, round64_nonneg.
Qed.

Lemma LN2_positive : ∃ q : Qc, LN2 = Fin q ∧ (0 < q)%Qc.
Proof. eexists. split; [reflexivity|]. by_eval. Qed.

Lemma fdiv_LN2_nonneg (x : float64) :
  is_nonneg x = true → is_nonneg (fdiv x LN2) = true.
Proof.
  destruct LN2_positive as (q & -> & Hq). destruct x as [|[]|p]; try done.
  - intros _. simpl. unfold is_neg.
    rewrite bool_decide_eq_false_2; [done|]. by apply Qcle_not_lt, Qclt_le_weak.
  - simpl. intros Hp%bool_decide_eq_true_1. unfold is_zero.
    assert (Hne : q ≠ 0%Qc).
    { intros ->. by apply Qclt_not_eq in Hq. }
    rewrite bool_decide_eq_false_2 by done.
    simpl. apply bool_decide_eq_true_2.
    apply (Qcmult_lt_0_le_reg_r _ _ q Hq).
    replace (0 * q)%Qc with 0%Qc by ring.
    replace (p / q * q)%Qc with p by (field; done). done.
Qed.

(** The reduced array holds sums of elements of the array, or of values
    that are missing from it. *)
Lemma np_nansum_with_elements (sum : list float64 → float64)
    (P : float64 → Prop) (a r : ndarray float64) (axis : Z) :
  (∀ l, Forall (λ x, x = NaN ∨ x ∈ data a) l → P (sum l)) →
  np_nansum_with sum a axis = Ok r → Forall P (data r).
Proof.
  intros HP.
  assert (Hel : ∀ k, data a !!! k = NaN ∨ data a !!! k ∈ data a).
  { intros k. destruct (data a !! k) as [y|] eqn:Hk.
    - right. rewrite (list_lookup_total_correct _ _ _ Hk).
      by eapply list_elem_of_lookup_2.
    - left. by rewrite list_lookup_total_alt, Hk. }
  unfold np_nansum_with. cbv zeta. case_decide.
  { intros [= <-]. cbn [data]. apply list.Forall_singleton, HP.
    apply list.Forall_singleton, Hel. }
  case_decide; [|done]. intros [= <-]. cbn [data].
  apply Forall_fmap, list.Forall_forall. intros j _. cbn.
  apply HP. apply Forall_fmap, list.Forall_forall. intros i _. cbn.
  apply Hel.
Qed.

Lemma to_saliency_map64_native
    (resize : ndarray float64 → list Z → Z → bool → result (ndarray float64))
    (capacity : ndarray float64) (data_format : string) :
  to_saliency_map64 resize capacity None data_format =
    if decide (data_format = "NCHW")
    then let? r := np_nansum64 capacity 0 in
         Ok (amap (λ v, round64 (fdiv v LN2)) r)
    else if decide (data_format = "NHWC")
    then let? r := np_nansum64 capacity (-1) in
         Ok (amap (λ v, round64 (fdiv v LN2)) r)
    else Raise UnboundLocalError.
Proof.
  unfold to_saliency_map64.
  destruct (decide (data_format = "NCHW")) as [->|Hc]; simpl.
  - by destruct (np_nansum64 capacity 0).
  - destruct (decide (data_format = "NHWC")) as [->|Hl]; simpl; [|done].
    by destruct (np_nansum64 capacity (-1)).
Qed.

(** X16. With no target shape, when every entry of [capacity] is NaN, the
    positive infinity or a number that is not negative, no entry of the map
    is NaN or negative (NaN entries are summed as zeros). This holds
    without rounding and in double precision, where a sum can overflow to
    the positive infinity. *)
Theorem to_saliency_map_nonnegative
    (resize : ndarray float64 → list Z → Z → bool → result (ndarray float64))
    (capacity sm : ndarray float64) (data_format : string) :
  Forall (λ x, is_nonneg x || isnan x = true) (data capacity) →
  to_saliency_map resize capacity None data_format = Ok sm
  ∨ to_saliency_map64 resize capacity None data_format = Ok sm →
  Forall (λ x, is_nonneg x = true) (data sm).
Proof.
  intros Hcap.
  assert (Hl : ∀ l, Forall (λ x, x = NaN ∨ x ∈ data capacity) l →
            Forall (λ x, is_nonneg x || isnan x = true) l).
  { intros l Hl. eapply list.Forall_impl; [exact Hl|].
    intros x [->|Hx]; [done|].
    by eapply (proj1 (list.Forall_forall _ _) Hcap). }
  assert (Hex : ∀ ax r, np_nansum capacity ax = Ok r →
            Forall (λ x, is_nonneg x = true) (data (amap (λ v, fdiv v LN2) r))).
  { intros ax r Hr. cbn [amap data]. apply Forall_fmap.
    eapply (np_nansum_with_elements nansum_list); [|exact Hr].
    intros l Hel. cbn. apply fdiv_LN2_nonneg, nansum_list_nonneg, Hl, Hel. }
  assert (H64 : ∀ ax r, np_nansum64 capacity ax = Ok r →
            Forall (λ x, is_nonneg x = true)
              (data (amap (λ v, round64 (fdiv v LN2)) r))).
  { intros ax r Hr. cbn [amap data]. apply Forall_fmap.
    eapply (np_nansum_with_elements nansum_list64); [|exact Hr].
    intros l Hel. cbn.
    apply round64_nonneg, fdiv_LN2_nonneg, nansum_list_nonneg, Hl, Hel. }
  intros [Hsm|Hsm].
  - rewrite to_saliency_map_native in Hsm.
    repeat case_decide; [| |done].
    + destruct (np_nansum capacity 0) as [r|] eqn:Hr; [|done].
      injection Hsm as <-. by eapply Hex.
    + destruct (np_nansum capacity (-1)) as [r|] eqn:Hr; [|done].
      injection Hsm as <-. by eapply Hex.
  - rewrite to_saliency_map64_native in Hsm.
    repeat case_decide; [| |done].
    + destruct (np_nansum64 capacity 0) as [r|] eqn:Hr; [|done].
      injection Hsm as <-. by eapply H64.
    + destruct (np_nansum64 capacity (-1)) as [r|] eqn:Hr; [|done].
      injection Hsm as <-. by eapply H64.
Qed.

Lemma to_saliency_map_nonnegative_witness :
  let capacity := NDArray [2; 1; 2]%nat [of_Z 1; NaN; of_Z 3; NaN] in
  let sm := NDArray [1; 2]%nat [round64 (fdiv (of_Z 4) LN2); of_Z 0] in
  (Forall (λ x, is_nonneg x || isnan x = true) (data capacity)
   ∧ to_saliency_map64 no_resize capacity None "NCHW" = Ok sm)
  ∧ Forall (λ x, is_nonneg x = true) (data sm).
Proof.
  cbv zeta.
  assert (H1 : to_saliency_map64 no_resize
                 (NDArray [2; 1; 2]%nat [of_Z 1; NaN; of_Z 3; NaN]) None "NCHW"
               = Ok (NDArray [1; 2]%nat [round64 (fdiv (of_Z 4) LN2); of_Z 0]))
    by by_eval.
  assert (H2 : Forall (λ x, is_nonneg x || isnan x = true)
                 (data (NDArray [2; 1; 2]%nat [of_Z 1; NaN; of_Z 3; NaN])))
    by (repeat constructor).
  split; [by split|].
  exact (to_saliency_map_nonnegative no_resize _ _ "NCHW" H2 (or_intror H1)).
Defined.

(** ** The order of the samples *)

Lemma qsum_Permutation (l l' : list Qc) : l ≡ₚ l' → qsum l = qsum l'.
Proof.
  unfold qsum. induction 1 as [|x l l' _ IH|x y l|l1 l2 l3 _ IH1 _ IH2]; simpl.
  - done.
  - by rewrite IH.
  - ring.
  - by rewrite IH1.
Qed.

Lemma qmean_Permutation (l l' : list Qc) : l ≡ₚ l' → qmean l = qmean l'.
Proof.
  intros Hp. unfold qmean.
  by rewrite (qsum_Permutation _ _ Hp), (Permutation_length Hp).
Qed.

Lemma qssd_Permutation (l l' : list Qc) : l ≡ₚ l' → qssd l = qssd l'.
Proof.
  intros Hp. unfold qssd. rewrite (qmean_Permutation _ _ Hp).
  apply qsum_Permutation. by apply fmap_Permutation.
Qed.

Lemma count_nonzero_Permutation (l l' : list float64) :
  l ≡ₚ l' → count_nonzero l = count_nonzero l'.
Proof. intros Hp. unfold count_nonzero. by rewrite Hp. Qed.

Lemma finite_rational (l : list float64) :
  Forall (λ x, is_finite x = true) l → l = Fin <$> (rational <$> l).
Proof.
  induction 1 as [|x l Hx _ IH]; [done|].
  rewrite !fmap_cons, <- IH. by destruct x.
Qed.

(** The contents at a location whose samples are finite. *)
Lemma foldl_welford_step_closed (l : list float64) :
  Forall (λ x, is_finite x = true) l →
  foldl welford_step (0, Fin 0%Qc, Fin 0%Qc, 0) l =
    (Z.of_nat (length l), Fin (qmean (rational <$> l)),
     Fin (qssd (rational <$> l)), wrap64 (count_nonzero l)).
Proof.
  intros Hl.
  pose proof (foldl_welford_step_nonzero l 0 (Fin 0%Qc) (Fin 0%Qc) 0) as Hc.
  change (wrap64 0) with 0 in Hc. rewrite Z.add_0_l in Hc.
  destruct (foldl_welford_step_finite (rational <$> l)) as (c & Hf).
  rewrite <- finite_rational in Hf by done. rewrite Hf in Hc |- *.
  rewrite length_fmap. simpl in Hc. by rewrite Hc.
Qed.

Lemma all_samples_shape (sh : list nat) (calls : list (ndarray float64)) :
  Forall (batch_of sh) calls →
  Forall (λ xi, shape xi = sh ∧ wf_array xi) (all_samples calls).
Proof.
  unfold all_samples. induction 1 as [|x calls Hx _ IH]; [constructor|].
  rewrite fmap_cons. change (mjoin (?a :: ?l)) with (a ++ mjoin l).
  apply list.Forall_app. split; [|done].
  destruct (iter_batch_of sh x Hx) as (xs & Hiter & _ & Hxs).
  unfold samples. by rewrite Hiter.
Qed.

(** Two contents of one shape that agree at every location are equal. *)
Lemma view_ext (sh : list nat) (v v' : view) :
  uniform sh v → uniform sh v' → v_n v = v_n v' →
  (∀ i, (i < numel sh)%nat → at_location i v = at_location i v') → v = v'.
Proof.
  destruct v as [n am a_s az], v' as [n' am' a_s' az'].
  intros ((Hms & Hmw) & (Hss & Hsw) & (Hzs & Hzw))
         ((Hms' & Hmw') & (Hss' & Hsw') & (Hzs' & Hzw')) Hn Hloc.
  unfold at_location in Hloc. simpl in *. subst n'. f_equal.
  - apply ndarray_ext; [congruence|done|done|].
    intros i Hi. rewrite Hms in Hi. by injection (Hloc i Hi).
  - apply ndarray_ext; [congruence|done|done|].
    intros i Hi. rewrite Hss in Hi. by injection (Hloc i Hi).
  - apply ndarray_ext; [congruence|done|done|].
    intros i Hi. rewrite Hzs in Hi. by injection (Hloc i Hi).
Qed.

Lemma run_fits_reorder (sh : list nat) (calls calls' : list (ndarray float64))
    (h h' : heap) :
  Forall (batch_of sh) calls → Forall (batch_of sh) calls' →
  calls ≠ [] → calls' ≠ [] →
  Forall (λ xi, Forall (λ x, is_finite x = true) (data xi)) (all_samples calls) →
  all_samples calls ≡ₚ all_samples calls' →
  ∃ v, views (run_fits calls (h, __init__)) v
       ∧ views (run_fits calls' (h', __init__)) v.
Proof.
  intros Hc Hc' Hne Hne' Hfin Hperm.
  destruct (run_fits_locations sh calls h Hc Hne) as (v & Hv & Hu & Hn & Hp).
  destruct (run_fits_locations sh calls' h' Hc' Hne') as (v' & Hv' & Hu' & Hn' & Hp').
  exists v. split; [done|].
  assert (Hfin' : Forall (λ xi, Forall (λ x, is_finite x = true) (data xi))
                    (all_samples calls')) by (by rewrite <- Hperm).
  assert (Hcol : ∀ k i, Forall (batch_of sh) k → (i < numel sh)%nat →
            Forall (λ xi, Forall (λ x, is_finite x = true) (data xi)) (all_samples k) →
            Forall (λ x, is_finite x = true) (columns i k)).
  { intros k i Hk Hi Hf. rewrite columns_samples. apply Forall_fmap.
    pose proof (all_samples_shape sh k Hk) as Hsh.
    apply list.Forall_forall. intros xi Hxi. cbn.
    pose proof (proj1 (list.Forall_forall _ _) Hf xi Hxi) as Hd.
    destruct (proj1 (list.Forall_forall _ _) Hsh xi Hxi) as (Hs & Hw).
    unfold wf_array in Hw. rewrite Hs in Hw.
    destruct (data xi !! i) as [y|] eqn:Hy.
    - rewrite (list_lookup_total_correct _ _ _ Hy).
      apply (proj1 (list.Forall_forall _ _) Hd). by eapply list_elem_of_lookup_2.
    - apply lookup_ge_None in Hy. lia. }
  assert (v' = v) as ->; [|done].
  apply (view_ext sh); [done|done| |].
  - rewrite Hn, Hn', !(length_all_samples sh) by done. by rewrite Hperm.
  - intros i Hi. rewrite Hp, Hp' by done.
    rewrite !foldl_welford_step_closed by (by apply Hcol).
    assert (Hpc : columns i calls' ≡ₚ columns i calls).
    { rewrite !columns_samples. by apply fmap_Permutation. }
    rewrite (qmean_Permutation _ _ (fmap_Permutation rational _ _ Hpc)).
    rewrite (qssd_Permutation _ _ (fmap_Permutation rational _ _ Hpc)).
    by rewrite (count_nonzero_Permutation _ _ Hpc), (Permutation_length Hpc).
Qed.

(** X17. Without rounding, the order of finite samples is irrelevant: two
    sequences of calls that feed the same finite samples, in any order and
    grouping, leave the same sample count and equal arrays. The counts of
    non-zero values are integers and do not depend on the order in floating
    point either. *)
Theorem fit_order_is_irrelevant (sh : list nat)
    (calls calls' : list (ndarray float64)) (h h' : heap) :
  Forall (batch_of sh) calls → Forall (batch_of sh) calls' →
  calls ≠ [] → calls' ≠ [] →
  Forall (λ xi, Forall (λ x, is_finite x = true) (data xi)) (all_samples calls) →
  all_samples calls ≡ₚ all_samples calls' →
  _n_samples (run_fits calls (h, __init__)).2
    = _n_samples (run_fits calls' (h', __init__)).2
  ∧ mean_value (run_fits calls (h, __init__))
    = mean_value (run_fits calls' (h', __init__))
  ∧ ssd_value (run_fits calls (h, __init__))
    = ssd_value (run_fits calls' (h', __init__))
  ∧ counts_value (run_fits calls (h, __init__))
    = counts_value (run_fits calls' (h', __init__)).
Proof.
  intros Hc Hc' Hne Hne' Hfin Hperm.
  destruct (run_fits_reorder sh calls calls' h h' Hc Hc' Hne Hne' Hfin Hperm)
    as (v & Hv & Hv').
  destruct (views_values _ _ Hv) as (-> & -> & ->).
  destruct (views_values _ _ Hv') as (-> & -> & ->).
  destruct Hv as (-> & _), Hv' as (-> & _). done.
Qed.

Lemma fit_order_is_irrelevant_witness :
  let calls := [NDArray [2; 2]%nat [of_Z 1; of_Z 0; of_Z 3; of_Z 4]] in
  let calls' := [NDArray [1; 2]%nat [of_Z 3; of_Z 4];
                 NDArray [1; 2]%nat [of_Z 1; of_Z 0]] in
  (Forall (batch_of [2%nat]) calls ∧ Forall (batch_of [2%nat]) calls'
   ∧ calls ≠ [] ∧ calls' ≠ []
   ∧ Forall (λ xi, Forall (λ x, is_finite x = true) (data xi)) (all_samples calls)
   ∧ all_samples calls ≡ₚ all_samples calls')
  ∧ _n_samples (run_fits calls (empty_heap, __init__)).2
    = _n_samples (run_fits calls' (empty_heap, __init__)).2
  ∧ mean_value (run_fits calls (empty_heap, __init__))
    = mean_value (run_fits calls' (empty_heap, __init__))
  ∧ ssd_value (run_fits calls (empty_heap, __init__))
    = ssd_value (run_fits calls' (empty_heap, __init__))
  ∧ counts_value (run_fits calls (empty_heap, __init__))
    = counts_value (run_fits calls' (empty_heap, __init__)).
Proof.
  cbv zeta.
  assert (H1 : Forall (batch_of [2%nat])
                 [NDArray [2; 2]%nat [of_Z 1; of_Z 0; of_Z 3; of_Z 4]]).
  { repeat constructor; by eexists. }
  assert (H2 : Forall (batch_of [2%nat])
                 [NDArray [1; 2]%nat [of_Z 3; of_Z 4];
                  NDArray [1; 2]%nat [of_Z 1; of_Z 0]]).
  { repeat constructor; by eexists. }
  assert (H3 : Forall (λ xi, Forall (λ x, is_finite x = true) (data xi))
                 (all_samples [NDArray [2; 2]%nat [of_Z 1; of_Z 0; of_Z 3; of_Z 4]])).
  { repeat constructor. }
  assert (H4 : all_samples [NDArray [2; 2]%nat [of_Z 1; of_Z 0; of_Z 3; of_Z 4]]
               ≡ₚ all_samples [NDArray [1; 2]%nat [of_Z 3; of_Z 4];
                               NDArray [1; 2]%nat [of_Z 1; of_Z 0]]).
  { apply Permutation_swap. }
  split; [repeat split; try done|].
  exact (fit_order_is_irrelevant _ _ _ empty_heap empty_heap H1 H2
           ltac:(discriminate) ltac:(discriminate) H3 H4).
Defined.
